(** * droneCFD: the geometry transforms of [stlTools.py] and the domain
      sizing and refinement planning of [Meshing.py]

    Shallow embedding of

    - [droneCFD/stlTools.py], class [solidSTL]: bounding box and extremal
      points, translate, centerGeometry, scale, rotate, euler2mat;
    - [droneCFD/Meshing.py], class [mesher]: blockMeshDomain and the
      dictionary part of snappyHexMesh;
    - [droneCFD/Utilities.py], class [parallelUtilities], and the
      processor attributes [mesher.__init__] derives from it.

    Numbers.  The Python code computes with IEEE floats (numpy arrays and
    Python [float]).  In [stlTools.py] and in [snappyHexMesh] they are
    idealised as real numbers [R]: [+], [-], [*], [/] are the exact
    operations, comparisons are decided by [Rlt_dec], [Rle_dec] and
    [Req_EM_T], and [math.cos] and [math.sin] are [cos] and [sin];
    rounding, infinities and NaN are outside that part of the model.

    [blockMeshDomain] is different: it takes [math.ceil] of a quotient of
    floats, where the rounding of the quotient decides an integer and an
    overflow raises.  Its arithmetic is modelled in binary64 ([Float]):
    every operation returns the exact result rounded to nearest, ties to
    even, with 53 significant bits and subnormals from 2^-1074, or an
    infinity beyond the largest double; infinities and NaN propagate as
    in IEEE 754.  The numbers it reads (the bounding box, the cell size,
    the floats of the template) are finite reals, taken as the doubles
    they are in the code; the sign of zero is not kept.

    Effects.  Methods mutate [self]; they are modelled in a state and
    exception monad [M S A := S -> result A * S] in which a raised exception
    keeps the state as mutated so far, as in Python.  Nested dictionaries
    mutated through an alias ([dwBox = d['geometry']['downwindbox']]) are
    modelled by running the mutation at the aliased path ([at_key]). *)

From Stdlib Require Import Reals Lra ZArith.
From stdpp Require Import gmap strings list.

Set Warnings "-register-all".

(** ** Python runtime: exceptions and the state/exception monad *)

Module Py.

Inductive exn : Type :=
  | FileNotFoundError (msg : string)
  | ValueError (msg : string)
  | ZeroDivisionError (msg : string)
  | KeyError (key : string)
  | IndexError (msg : string)
  | TypeError (msg : string)
  | OverflowError (msg : string).

Inductive result (A : Type) : Type :=
  | Ok (a : A)
  | Raise (e : exn).
Arguments Ok {A} a.
Arguments Raise {A} e.

Definition rbind {A B} (r : result A) (k : A -> result B) : result B :=
  match r with
  | Ok a => k a
  | Raise e => Raise e
  end.

Fixpoint mapM_result {A B} (f : A -> result B) (l : list A) : result (list B) :=
  match l with
  | [] => Ok []
  | a :: l' =>
      rbind (f a) (fun b => rbind (mapM_result f l') (fun bs => Ok (b :: bs)))
  end.

(** [list[i]] *)
Definition list_index {A} (l : list A) (i : nat) : result A :=
  match l !! i with
  | Some a => Ok a
  | None => Raise (IndexError "list index out of range")
  end.

(** A computation on a mutable object of type [S]. *)
Definition M (S A : Type) : Type := S -> result A * S.

Definition ret {S A} (a : A) : M S A := fun s => (Ok a, s).

Definition bind {S A B} (c : M S A) (k : A -> M S B) : M S B :=
  fun s =>
    match c s with
    | (Ok a, s') => k a s'
    | (Raise e, s') => (Raise e, s')
    end.

Definition raise {S A} (e : exn) : M S A := fun s => (Raise e, s).

Definition lift {S A} (r : result A) : M S A := fun s => (r, s).

Definition get {S} : M S S := fun s => (Ok s, s).

Definition modify {S} (f : S -> S) : M S unit := fun s => (Ok tt, f s).

(** Run [c] on a component of the object and store the component back: the
    component is mutated in place, also when [c] raises. *)
Definition zoom {S T A} (proj : S -> T) (upd : T -> S -> S) (c : M T A) : M S A :=
  fun s => let (r, t') := c (proj s) in (r, upd t' s).

End Py.

Import Py.

Declare Scope py_scope.
Delimit Scope py_scope with py.
Notation "x <- c ;; k" := (bind c (fun x => k))
  (at level 20, c at level 99, k at level 200, only parsing) : py_scope.
Notation "c1 ;; c2" := (bind c1 (fun _ => c2))
  (at level 100, c2 at level 200, only parsing) : py_scope.
Notation "x <-- r ;; k" := (rbind r (fun x => k))
  (at level 20, r at level 99, k at level 200, only parsing) : py_scope.
Open Scope py_scope.
Open Scope R_scope.

(** Comparisons of floats, as decisions on [R]. *)
#[global] Instance Req_decision (x y : R) : Decision (x = y) := Req_dec_T x y.
#[global] Instance Rlt_decision (x y : R) : Decision (x < y) := Rlt_dec x y.
#[global] Instance Rle_decision (x y : R) : Decision (x <= y) := Rle_dec x y.

(** ** Python floats in the domain sizing: IEEE binary64 *)

Module Float.

(** 2^e *)
Definition bpow (e : Z) : R := powerRZ 2 e.

(** floor(log2 |x|), for x <> 0: the exponent of the binade of [x]. *)
Definition mag (x : R) : Z := Zfloor (ln (Rabs x) / ln 2).

(** The nearest integer, ties to even. *)
Definition rne (r : R) : Z :=
  let f := Zfloor r in
  if decide (r - IZR f < / 2) then f
  else if decide (/ 2 < r - IZR f) then (f + 1)%Z
  else if Z.even f then f else (f + 1)%Z.

(** The exponent of the unit in the last place of [x]: 53 significant
    bits, and 2^-1074 in the subnormal range. *)
Definition ulp_exp (x : R) : Z := Z.max (mag x - 52) (-1074).

(** Round to nearest, ties to even, without a bound on the exponent. *)
Definition round64 (x : R) : R :=
  if decide (x = 0) then 0
  else IZR (rne (x / bpow (ulp_exp x))) * bpow (ulp_exp x).

(** A float: a finite number, an infinity or NaN.  The sign of zero is
    not kept. *)
Inductive float : Type :=
  | Num (x : R)
  | Inf (negative : bool)
  | NaN.

(** The float an operation returns when its exact result is [x]: the
    rounded value, or an infinity when that exceeds the largest double. *)
Definition rnd (x : R) : float :=
  if decide (Rabs (round64 x) < bpow 1024) then Num (round64 x)
  else Inf (bool_decide (x < 0)).

(** [a + b] *)
Definition fadd (a b : float) : float :=
  match a, b with
  | Num x, Num y => rnd (x + y)
  | Inf s, Num _ => Inf s
  | Num _, Inf s => Inf s
  | Inf s, Inf t => if bool_decide (s = t) then Inf s else NaN
  | _, _ => NaN
  end.

(** [a - b] *)
Definition fsub (a b : float) : float :=
  match a, b with
  | Num x, Num y => rnd (x - y)
  | Inf s, Num _ => Inf s
  | Num _, Inf s => Inf (negb s)
  | Inf s, Inf t => if bool_decide (s = t) then NaN else Inf s
  | _, _ => NaN
  end.

(** [a * b] *)
Definition fmul (a b : float) : float :=
  match a, b with
  | Num x, Num y => rnd (x * y)
  | Inf s, Num y | Num y, Inf s =>
      if decide (y = 0) then NaN else Inf (xorb s (bool_decide (y < 0)))
  | Inf s, Inf t => Inf (xorb s t)
  | _, _ => NaN
  end.

(** [a / b] on Python floats: a zero divisor raises. *)
Definition fdiv (a b : float) : result float :=
  match b with
  | Num y =>
      if decide (y = 0) then Raise (ZeroDivisionError "float division by zero")
      else Ok (match a with
               | Num x => rnd (x / y)
               | Inf s => Inf (xorb s (bool_decide (y < 0)))
               | NaN => NaN
               end)
  | Inf _ => Ok (match a with Num _ => Num 0 | _ => NaN end)
  | NaN => Ok NaN
  end.

(** [a < b] *)
Definition flt (a b : float) : bool :=
  match a, b with
  | Num x, Num y => bool_decide (x < y)
  | Inf true, Num _ => true
  | Num _, Inf false => true
  | Inf true, Inf false => true
  | _, _ => false
  end.

(** [math.ceil(a)] *)
Definition math_ceil (a : float) : result Z :=
  match a with
  | Num x => Ok (Zceil x)
  | Inf _ => Raise (OverflowError "cannot convert float infinity to integer")
  | NaN => Raise (ValueError "cannot convert float NaN to integer")
  end.

End Float.

Import Float.

(** ** stlTools.py *)

Module stlTools.

(** One vertex: a row [vectors[i][j]] of three floats. *)
Record Point : Type := mkPoint { px : R; py : R; pz : R }.

(** One facet: [vectors[i]], three vertices.  (The normal and the
    attribute word that numpy-stl keeps next to them are not touched by
    the transforms.) *)
Record Triangle : Type := mkTriangle { v0 : Point; v1 : Point; v2 : Point }.

(** [mesh.data['vectors']], an array of shape (N, 3, 3). *)
Abbreviation Mesh := (list Triangle).

Definition coords (p : Point) : list R := [px p; py p; pz p].
Definition vertices (t : Triangle) : list Point := [v0 t; v1 t; v2 t].

(** [mesh.x], [mesh.y], [mesh.z]: the slice [vectors[:, :, k]], here in
    scan order. *)
Definition axis (k : Point -> R) (m : Mesh) : list R :=
  concat (map (fun t => map k (vertices t)) m).

(** [ndarray.min()] and [ndarray.max()]; numpy raises on an empty array. *)
Definition amin (l : list R) : result R :=
  match l with
  | [] => Raise (ValueError "zero-size array to reduction operation minimum which has no identity")
  | a :: l' => Ok (foldl Rmin a l')
  end.

Definition amax (l : list R) : result R :=
  match l with
  | [] => Raise (ValueError "zero-size array to reduction operation maximum which has no identity")
  | a :: l' => Ok (foldl Rmax a l')
  end.

(** [np.where(vectors == c)]: the index triples (i, j, k) of the entries
    equal to [c], in row-major order.  The comparison runs over all nine
    entries of every facet. *)
Definition where_point (i j : nat) (c : R) (p : Point) : list (nat * nat * nat) :=
  (if decide (px p = c) then [(i, j, 0%nat)] else []) ++
  (if decide (py p = c) then [(i, j, 1%nat)] else []) ++
  (if decide (pz p = c) then [(i, j, 2%nat)] else []).

Definition where_triangle (i : nat) (c : R) (t : Triangle) : list (nat * nat * nat) :=
  where_point i 0 c (v0 t) ++ where_point i 1 c (v1 t) ++ where_point i 2 c (v2 t).

Fixpoint where_from (i : nat) (c : R) (m : Mesh) : list (nat * nat * nat) :=
  match m with
  | [] => []
  | t :: m' => where_triangle i c t ++ where_from (S i) c m'
  end.

Definition np_where_eq (m : Mesh) (c : R) : list (nat * nat * nat) :=
  where_from 0 c m.

(** [vectors[i][j]] *)
Definition vertex_at (m : Mesh) (i j : nat) : result Point :=
  t <-- list_index m i ;; list_index (vertices t) j.

(** [self.bb = [xmin, xmax, ymin, ymax, zmin, zmax]]: [bb[0]] is [xmin],
    [bb[1]] is [xmax], ..., [bb[5]] is [zmax]. *)
Record BoundingBox : Type := mkBB {
  xmin : R; xmax : R; ymin : R; ymax : R; zmin : R; zmax : R
}.

(** The attributes of a [solidSTL] object. *)
Record solidSTL : Type := mkSolid {
  mesh : Mesh;
  bb : BoundingBox;
  ymaxPoint : Point;
  yminPoint : Point
}.

Definition set_mesh (m : Mesh) (s : solidSTL) : solidSTL :=
  {| mesh := m; bb := bb s; ymaxPoint := ymaxPoint s; yminPoint := yminPoint s |}.
Definition set_bb (b : BoundingBox) (s : solidSTL) : solidSTL :=
  {| mesh := mesh s; bb := b; ymaxPoint := ymaxPoint s; yminPoint := yminPoint s |}.
Definition set_ymaxPoint (p : Point) (s : solidSTL) : solidSTL :=
  {| mesh := mesh s; bb := bb s; ymaxPoint := p; yminPoint := yminPoint s |}.
Definition set_yminPoint (p : Point) (s : solidSTL) : solidSTL :=
  {| mesh := mesh s; bb := bb s; ymaxPoint := ymaxPoint s; yminPoint := p |}.

(** The vertex [boundingBox] stores for an extreme value [c]:
<<
    where = np.where(self.mesh.data['vectors'] == c)
    if len(where[0]) > 0:  vectors[where[0][0]][where[1][0]]
    else:                  np.array([0.0, c, 0.0])
>> *)
Definition extreme_point (m : Mesh) (c : R) : result Point :=
  match np_where_eq m c with
  | (i, j, _) :: _ => vertex_at m i j
  | [] => Ok (mkPoint 0 c 0)
  end.

Definition boundingBox : M solidSTL unit :=
  self <- get ;;
  xmin <- lift (amin (axis px (mesh self))) ;;
  xmax <- lift (amax (axis px (mesh self))) ;;
  ymin <- lift (amin (axis py (mesh self))) ;;
  ymax <- lift (amax (axis py (mesh self))) ;;
  zmin <- lift (amin (axis pz (mesh self))) ;;
  zmax <- lift (amax (axis pz (mesh self))) ;;
  modify (set_bb (mkBB xmin xmax ymin ymax zmin zmax)) ;;
  pmax <- lift (extreme_point (mesh self) ymax) ;;
  modify (set_ymaxPoint pmax) ;;
  pmin <- lift (extreme_point (mesh self) ymin) ;;
  modify (set_yminPoint pmin).

(** [vectors + [dx, dy, dz]] and [vectors * [x, y, z]], broadcast over
    every vertex. *)
Definition map_vertices (f : Point -> Point) (m : Mesh) : Mesh :=
  map (fun t => mkTriangle (f (v0 t)) (f (v1 t)) (f (v2 t))) m.

Definition add_offset (dx dy dz : R) (p : Point) : Point :=
  mkPoint (px p + dx) (py p + dy) (pz p + dz).

Definition mul_factors (x y z : R) (p : Point) : Point :=
  mkPoint (px p * x) (py p * y) (pz p * z).

Definition translate (dx dy dz : R) : M solidSTL unit :=
  self <- get ;;
  modify (set_mesh (map_vertices (add_offset dx dy dz) (mesh self))) ;;
  boundingBox.

Definition centerGeometry : M solidSTL unit :=
  boundingBox ;;
  self <- get ;;
  let dx := xmax (bb self) - xmin (bb self) in
  let dy := ymax (bb self) - ymin (bb self) in
  let dz := zmax (bb self) - zmin (bb self) in
  translate (-1 * (dx / 2 + xmin (bb self)))
            (-1 * (dy / 2 + ymin (bb self)))
            (-1 * (dz / 2 + zmin (bb self))).

Definition scale (x y z : R) : M solidSTL unit :=
  if decide (x <= 0 \/ y <= 0 \/ z <= 0)
  then raise (ValueError "Scale factors must be positive")
  else
    self <- get ;;
    modify (set_mesh (map_vertices (mul_factors x y z) (mesh self))) ;;
    boundingBox.

(** 3x3 matrices ([np.array] of three rows). *)
Record Mat3 : Type := mkMat3 {
  m00 : R; m01 : R; m02 : R;
  m10 : R; m11 : R; m12 : R;
  m20 : R; m21 : R; m22 : R
}.

(** [np.eye(3)] *)
Definition eye : Mat3 := mkMat3 1 0 0  0 1 0  0 0 1.

(** [np.dot(A, B)] of two matrices *)
Definition dot (A B : Mat3) : Mat3 :=
  mkMat3
    (m00 A * m00 B + m01 A * m10 B + m02 A * m20 B)
    (m00 A * m01 B + m01 A * m11 B + m02 A * m21 B)
    (m00 A * m02 B + m01 A * m12 B + m02 A * m22 B)
    (m10 A * m00 B + m11 A * m10 B + m12 A * m20 B)
    (m10 A * m01 B + m11 A * m11 B + m12 A * m21 B)
    (m10 A * m02 B + m11 A * m12 B + m12 A * m22 B)
    (m20 A * m00 B + m21 A * m10 B + m22 A * m20 B)
    (m20 A * m01 B + m21 A * m11 B + m22 A * m21 B)
    (m20 A * m02 B + m21 A * m12 B + m22 A * m22 B).

(** [A.T] *)
Definition transpose (A : Mat3) : Mat3 :=
  mkMat3 (m00 A) (m10 A) (m20 A)
         (m01 A) (m11 A) (m21 A)
         (m02 A) (m12 A) (m22 A).

(** [np.dot(v, A)] of a vertex (a row) and a matrix *)
Definition dot_row (v : Point) (A : Mat3) : Point :=
  mkPoint (px v * m00 A + py v * m10 A + pz v * m20 A)
          (px v * m01 A + py v * m11 A + pz v * m21 A)
          (px v * m02 A + py v * m12 A + pz v * m22 A).

(** The three matrices [euler2mat] builds. *)
Definition rot_z (z : R) : Mat3 :=
  let cosz := cos z in
  let sinz := sin z in
  mkMat3 cosz (- sinz) 0
         sinz cosz 0
         0 0 1.

Definition rot_y (y : R) : Mat3 :=
  let cosy := cos y in
  let siny := sin y in
  mkMat3 cosy 0 siny
         0 1 0
         (- siny) 0 cosy.

Definition rot_x (x : R) : Mat3 :=
  let cosx := cos x in
  let sinx := sin x in
  mkMat3 1 0 0
         0 cosx (- sinx)
         0 sinx cosx.

(** The list [Ms] at the end of [euler2mat]: one matrix per non-zero
    angle, appended in the order z, y, x. *)
Definition euler_Ms (z y x : R) : list Mat3 :=
  let Ms := [] in
  let Ms := if decide (z = 0) then Ms else Ms ++ [rot_z z] in
  let Ms := if decide (y = 0) then Ms else Ms ++ [rot_y y] in
  let Ms := if decide (x = 0) then Ms else Ms ++ [rot_x x] in
  Ms.

(** [functools.reduce(f, l)] on a non-empty list *)
Definition reduce {A} (f : A -> A -> A) (l : list A) : option A :=
  match l with
  | [] => None
  | a :: l' => Some (foldl f a l')
  end.

Definition euler2mat (z y x : R) : Mat3 :=
  let Ms := euler_Ms z y x in
  match reduce dot (rev Ms) with
  | Some rm => rm
  | None => eye
  end.

(** [np.radians] *)
Definition radians (a : R) : R := a * PI / 180.

Definition get_vertex (t : Triangle) (j : nat) : option Point := vertices t !! j.

Definition set_vertex (t : Triangle) (j : nat) (p : Point) : Triangle :=
  match j with
  | 0%nat => mkTriangle p (v1 t) (v2 t)
  | 1%nat => mkTriangle (v0 t) p (v2 t)
  | 2%nat => mkTriangle (v0 t) (v1 t) p
  | _ => t
  end.

(** One assignment of the rotation loop:
    [vectors[i][j] = np.dot(vectors[i][j], rm.T)] *)
Definition rotate_vertex (rm : Mat3) (m : Mesh) (i j : nat) : Mesh :=
  match m !! i with
  | Some t =>
      match get_vertex t j with
      | Some v => <[i := set_vertex t j (dot_row v (transpose rm))]> m
      | None => m
      end
  | None => m
  end.

(** [for i in range(vectors.shape[0]): for j in range(3): ...] *)
Definition rotate_loop (rm : Mat3) (m : Mesh) : Mesh :=
  foldl (fun m i => foldl (fun m j => rotate_vertex rm m i j) m (seq 0 3))
        m (seq 0 (length m)).

Definition rotate (z y x : R) (units : string) : M solidSTL unit :=
  angles <-
    (if decide (units = "degrees") then ret (radians z, radians y, radians x)
     else if decide (units = "radians") then ret (z, y, x)
     else raise (ValueError ("Invalid units: " +:+ units +:+
                             ". Must be 'degrees' or 'radians'"))) ;;
  let '(z, y, x) := angles in
  let rm := euler2mat z y x in
  self <- get ;;
  modify (set_mesh (rotate_loop rm (mesh self))) ;;
  boundingBox.

Definition setaoa (aoa : R) (units : string) : M solidSTL unit :=
  rotate 0 aoa 0 units.

(** What [Path(fp).exists()] and [stl.StlMesh(fp)] find at the path. *)
Inductive stl_file : Type :=
  | Missing
  | Unreadable (why : string)
  | Facets (m : Mesh).

(** [solidSTL(fp)].  The attributes [bb], [ymaxPoint] and [yminPoint] do
    not exist before the first [boundingBox()]; the blank values below
    stand for them and are all overwritten when that call returns, and no
    object is returned when it raises. *)
Definition blank (m : Mesh) : solidSTL :=
  mkSolid m (mkBB 0 0 0 0 0 0) (mkPoint 0 0 0) (mkPoint 0 0 0).

Definition __init__ (fp : string) (file : stl_file) : result solidSTL :=
  match file with
  | Missing => Raise (FileNotFoundError ("STL file not found: " +:+ fp))
  | Unreadable why =>
      Raise (ValueError ("Failed to load STL file " +:+ fp +:+ ": " +:+ why))
  | Facets m =>
      match (boundingBox ;; centerGeometry) (blank m) with
      | (Ok _, self) => Ok self
      | (Raise e, _) => Raise e
      end
  end.

Definition getWingtip (self : solidSTL) : Point := ymaxPoint self.

End stlTools.

(** ** The parsed OpenFOAM dictionaries (PyFoam's [ParsedParameterFile]) *)

Module Foam.

(** The values found in and stored into the dictionaries.  [VFmt3 x y z]
    is the text ['(%f %f %f)' % (x, y, z)], kept by the three floats it
    prints. *)
Inductive Value : Type :=
  | VNum (r : R)
  | VInt (n : Z)
  | VStr (s : string)
  | VFmt3 (x y z : float)
  | VList (l : list Value)
  | VDict (d : gmap string Value).

(** [d[k]] *)
Definition item (d : Value) (k : string) : result Value :=
  match d with
  | VDict g =>
      match g !! k with
      | Some v => Ok v
      | None => Raise (KeyError k)
      end
  | _ => Raise (TypeError "not a dictionary")
  end.

(** [v[i]] *)
Definition index (v : Value) (i : nat) : result Value :=
  match v with
  | VList l => list_index l i
  | _ => Raise (TypeError "not a list")
  end.

(** [for i in v] *)
Definition as_list (v : Value) : result (list Value) :=
  match v with
  | VList l => Ok l
  | _ => Raise (TypeError "not iterable")
  end.

(** An entry of a numeric array used in float arithmetic: a float is kept,
    an int is converted to the nearest double. *)
Definition as_float (v : Value) : result float :=
  match v with
  | VNum r => Ok (Num r)
  | VInt n => Ok (rnd (IZR n))
  | _ => Raise (TypeError "not a number")
  end.

(** [np.array(l)] for an arithmetic use *)
Definition np_array (l : list Value) : result (list float) := mapM_result as_float l.

(** Read without changing the object. *)
Definition peek {A} (f : Value -> result A) : M Value A := fun v => (f v, v).

(** [d[k] = x] *)
Definition setitem (k : string) (x : Value) : M Value unit :=
  fun d =>
    match d with
    | VDict g => (Ok tt, VDict (<[k := x]> g))
    | _ => (Raise (TypeError "not a dictionary"), d)
    end.

(** [v[i] = x] *)
Definition setidx (i : nat) (x : Value) : M Value unit :=
  fun v =>
    match v with
    | VList l =>
        if decide (i < length l)%nat then (Ok tt, VList (<[i := x]> l))
        else (Raise (IndexError "list assignment index out of range"), v)
    | _ => (Raise (TypeError "not a list"), v)
    end.

(** Mutation of the object stored under [d[k]], reached through [d] or
    through an alias of [d[k]]: [c] runs on it and the dictionary holds
    the mutated object afterwards. *)
Definition at_key {A} (k : string) (c : M Value A) : M Value A :=
  fun d =>
    match d with
    | VDict g =>
        match g !! k with
        | Some v => let (r, v') := c v in (r, VDict (<[k := v']> g))
        | None => (Raise (KeyError k), d)
        end
    | _ => (Raise (TypeError "not a dictionary"), d)
    end.

End Foam.

(** ** Meshing.py *)

Module Meshing.

Import stlTools Foam.

(** The attributes of a [mesher] that [blockMeshDomain] and
    [snappyHexMesh] read and write. *)
Record mesher : Type := mkMesher {
  stlSolid : solidSTL;
  baseCellSize : R;
  blockMeshDict : Value;
  snappyHexMeshDict : Value
}.

Definition set_blockMeshDict (d : Value) (self : mesher) : mesher :=
  {| stlSolid := stlSolid self; baseCellSize := baseCellSize self;
     blockMeshDict := d; snappyHexMeshDict := snappyHexMeshDict self |}.

Definition set_snappyHexMeshDict (d : Value) (self : mesher) : mesher :=
  {| stlSolid := stlSolid self; baseCellSize := baseCellSize self;
     blockMeshDict := blockMeshDict self; snappyHexMeshDict := d |}.

Definition in_blockMeshDict {A} (c : M Value A) : M mesher A :=
  zoom blockMeshDict set_blockMeshDict c.

Definition in_snappyHexMeshDict {A} (c : M Value A) : M mesher A :=
  zoom snappyHexMeshDict set_snappyHexMeshDict c.

(** The last loop of [blockMeshDomain]:
<<
    for enu, i in enumerate(x_verts):
        new_verts.append('(%f %f %f)' % (x_verts[enu], y_verts[enu], z_verts[enu]))
>>
    [todo] is the part of [x_verts] still to enumerate. *)
Fixpoint format_verts (enu : nat) (todo x_verts y_verts z_verts : list float)
  : result (list Value) :=
  match todo with
  | [] => Ok []
  | _ :: todo' =>
      x <-- list_index x_verts enu ;;
      y <-- list_index y_verts enu ;;
      z <-- list_index z_verts enu ;;
      rest <-- format_verts (S enu) todo' x_verts y_verts z_verts ;;
      Ok (VFmt3 x y z :: rest)
  end.

(** The bounding box holds Python floats and [float(self.baseCellSize)]
    is the cell size as a float: both enter the arithmetic as they are. *)
Definition blockMeshDomain : M mesher unit :=
  self <- get ;;
  (* the vertices of the template blockMeshDict *)
  template <- in_blockMeshDict (peek (fun d => v <-- item d "vertices" ;; as_list v)) ;;
  rows <- lift (mapM_result
                  (fun i => a <-- index i 0 ;; b <-- index i 1 ;; c <-- index i 2 ;;
                            Ok (a, b, c)) template) ;;
  let x_verts := map (fun r => fst (fst r)) rows in
  let y_verts := map (fun r => snd (fst r)) rows in
  let z_verts := map (fun r => snd r) rows in
  let bb := bb (stlSolid self) in
  (* the domain: 12 times the bounding box downwind, 4 times in y and z *)
  let dx := fmul (fsub (Num (xmax bb)) (Num (xmin bb))) (Num 12) in
  let dy := fmul (fsub (Num (ymax bb)) (Num (ymin bb))) (Num 4) in
  let dz := fmul (fsub (Num (zmax bb)) (Num (zmin bb))) (Num 4) in
  (* minimum size *)
  let dx := if flt dx (Num 2.5) then Num 2.5 else dx in
  let dy := if flt dy (Num 2.5) then Num 2.5 else dy in
  let dz := if flt dz (Num 2.5) then Num 2.5 else dz in
  (* number of blocks per direction *)
  qx <- lift (fdiv dx (Num (baseCellSize self))) ;;
  block_x <- lift (math_ceil qx) ;;
  qy <- lift (fdiv dy (Num (baseCellSize self))) ;;
  block_y <- lift (math_ceil qy) ;;
  qz <- lift (fdiv dz (Num (baseCellSize self))) ;;
  block_z <- lift (math_ceil qz) ;;
  in_blockMeshDict
    (at_key "blocks" (setidx 2 (VList [VInt block_x; VInt block_y; VInt block_z]))) ;;
  (* scale the vertices; the box is moved downwind *)
  xs <- lift (np_array x_verts) ;;
  let x_verts :=
    map (fun a => fadd (fmul a dx) (fmul (fsub (Num (xmax bb)) (Num (xmin bb))) (Num 6)))
        xs in
  ys <- lift (np_array y_verts) ;;
  let y_verts := map (fun a => fmul a dy) ys in
  zs <- lift (np_array z_verts) ;;
  let z_verts := map (fun a => fmul a dz) zs in
  new_verts <- lift (format_verts 0 x_verts x_verts y_verts z_verts) ;;
  in_blockMeshDict (setitem "vertices" (VList new_verts)).

(** [p.tolist()] *)
Definition tolist (p : Point) : Value := VList (map VNum (coords p)).

(** [sum(t)] of a tuple of floats: Python adds from 0. *)
Definition py_sum (t : list R) : R := foldl Rplus 0 t.

(** [[sum(x) for x in zip(p, [6, 0, 0])]] *)
Definition downwind6 (p : Point) : Value :=
  VList (map (fun x : R * R => VNum (py_sum [fst x; snd x])) (zip (coords p) [6; 0; 0])).

(** The nested dictionaries [snappyHexMesh] writes into, and the three
    aliases [dwBox], [wt1Box], [wt2Box] of the geometry entries. *)
Definition geometry {A} (c : M Value A) : M mesher A :=
  in_snappyHexMeshDict (at_key "geometry" c).

Definition castellatedMeshControls {A} (c : M Value A) : M mesher A :=
  in_snappyHexMeshDict (at_key "castellatedMeshControls" c).

Definition refinementRegions {A} (c : M Value A) : M mesher A :=
  castellatedMeshControls (at_key "refinementRegions" c).

Definition dwBox {A} (c : M Value A) : M mesher A := geometry (at_key "downwindbox" c).
Definition wt1Box {A} (c : M Value A) : M mesher A := geometry (at_key "wingtip1" c).
Definition wt2Box {A} (c : M Value A) : M mesher A := geometry (at_key "wingtip2" c).

(** [dwBox['min'][i]] *)
Definition dwBox_min (i : nat) : M mesher Value :=
  dwBox (peek (fun b => v <-- item b "min" ;; index v i)).

(** [snappyHexMesh], up to [self.snappyHexMeshDict.writeFile()]; what
    follows runs the external tools. *)
Definition snappyHexMesh : M mesher unit :=
  self <- get ;;
  let bb := bb (stlSolid self) in
  (* the box around the aircraft, extended downwind *)
  geometry (setitem "downwindbox" (VDict ∅)) ;;
  dwBox (setitem "type" (VStr "searchableBox")) ;;
  let boxenlarge := 2.5 in
  dwBox (setitem "min" (VList [VNum (boxenlarge * xmin bb);
                               VNum (boxenlarge * ymin bb);
                               VNum (boxenlarge * zmin bb)])) ;;
  dwBox (setitem "max" (VList [VNum (boxenlarge * xmax bb + 4 * (xmax bb - xmin bb));
                               VNum (boxenlarge * ymax bb);
                               VNum (boxenlarge * zmax bb)])) ;;
  refinementRegions (setitem "downwindbox" (VDict ∅)) ;;
  refinementRegions (at_key "downwindbox" (setitem "mode" (VStr "inside"))) ;;
  refinementRegions (at_key "downwindbox"
                       (setitem "levels" (VList [VList [VInt 1; VInt 4]]))) ;;
  m0 <- dwBox_min 0 ;;
  castellatedMeshControls (at_key "locationInMesh" (setidx 0 m0)) ;;
  m1 <- dwBox_min 1 ;;
  castellatedMeshControls (at_key "locationInMesh" (setidx 1 m1)) ;;
  m2 <- dwBox_min 2 ;;
  castellatedMeshControls (at_key "locationInMesh" (setidx 2 m2)) ;;
  (* the refinement regions around the wing tips *)
  geometry (setitem "wingtip1" (VDict ∅)) ;;
  wt1Box (setitem "type" (VStr "searchableCylinder")) ;;
  wt1Box (setitem "point1" (tolist (yminPoint (stlSolid self)))) ;;
  wt1Box (setitem "point2" (downwind6 (yminPoint (stlSolid self)))) ;;
  wt1Box (setitem "radius" (VNum 0.2)) ;;
  refinementRegions (setitem "wingtip1" (VDict ∅)) ;;
  refinementRegions (at_key "wingtip1" (setitem "mode" (VStr "inside"))) ;;
  refinementRegions (at_key "wingtip1"
                       (setitem "levels" (VList [VList [VInt 1; VInt 5]]))) ;;
  geometry (setitem "wingtip2" (VDict ∅)) ;;
  wt2Box (setitem "type" (VStr "searchableCylinder")) ;;
  wt2Box (setitem "point1" (tolist (ymaxPoint (stlSolid self)))) ;;
  wt2Box (setitem "point2" (downwind6 (ymaxPoint (stlSolid self)))) ;;
  wt2Box (setitem "radius" (VNum 0.2)) ;;
  refinementRegions (setitem "wingtip2" (VDict ∅)) ;;
  refinementRegions (at_key "wingtip2" (setitem "mode" (VStr "inside"))) ;;
  refinementRegions (at_key "wingtip2"
                       (setitem "levels" (VList [VList [VInt 1; VInt 5]]))).

End Meshing.

(** ** Utilities.py: the processor count *)

Module Utilities.

(** [parallelUtilities(procs).procs]; [cpu_count] is what
    [multiprocessing.cpu_count()] returns. *)
Definition parallelUtilities (procs : option Z) (cpu_count : Z) : result Z :=
  match procs with
  | None => Ok cpu_count
  | Some p =>
      if decide (p < 1)%Z
      then Raise (ValueError "Number of processors must be at least 1")
      else Ok p
  end.

End Utilities.

(** The attributes [parallel] and [nprocs] that [mesher.__init__] (and,
    with the same statements, [solver.__init__]) derives from
    [parallelUtilities(nprocs)]. *)
Module Processors.

Record processors : Type := mkProcessors { parallel : bool; nprocs : Z }.

Definition configure (nprocs : option Z) (cpu_count : Z) : result processors :=
  procs <-- Utilities.parallelUtilities nprocs cpu_count ;;
  if decide (procs > 1)%Z
  then Ok (mkProcessors true procs)
  else Ok (mkProcessors false 1).

End Processors.

(** * Vocabulary of the statements *)

Import stlTools Foam Meshing.

(** [b] holds the per-axis minimum and maximum of the vertices of [m]. *)
Definition is_bbox (m : Mesh) (b : BoundingBox) : Prop :=
  amin (axis px m) = Ok (xmin b) /\ amax (axis px m) = Ok (xmax b) /\
  amin (axis py m) = Ok (ymin b) /\ amax (axis py m) = Ok (ymax b) /\
  amin (axis pz m) = Ok (zmin b) /\ amax (axis pz m) = Ok (zmax b).

(** The cached attributes are those [boundingBox] computes from the
    current vertices. *)
Definition cache_fresh (s : solidSTL) : Prop :=
  is_bbox (mesh s) (bb s) /\
  extreme_point (mesh s) (ymax (bb s)) = Ok (ymaxPoint s) /\
  extreme_point (mesh s) (ymin (bb s)) = Ok (yminPoint s).

(** The matrix-vector product [A v] (the vertex as a column). *)
Definition mat_vec (A : Mat3) (v : Point) : Point :=
  mkPoint (m00 A * px v + m01 A * py v + m02 A * pz v)
          (m10 A * px v + m11 A * py v + m12 A * pz v)
          (m20 A * px v + m21 A * py v + m22 A * pz v).

(** [v] is a template vertex: a list of three numbers, the coordinates of
    [p]. *)
Definition vec_of (v : Value) (p : Point) : Prop :=
  exists a b c, v = VList [a; b; c] /\
                as_float a = Ok (Num (px p)) /\ as_float b = Ok (Num (py p)) /\
                as_float c = Ok (Num (pz p)).

(** [v[k1][k2]...] *)
Fixpoint path (v : Value) (ks : list string) : result Value :=
  match ks with
  | [] => Ok v
  | k :: ks' => v' <-- item v k ;; path v' ks'
  end.

(** All vertices of a mesh, in scan order. *)
Definition mesh_vertices (m : Mesh) : list Point := concat (map vertices m).

(** Some coordinate of [p] equals [c]. *)
Definition has_coord (c : R) (p : Point) : bool :=
  bool_decide (px p = c \/ py p = c \/ pz p = c).

(** The squared distance of two points. *)
Definition dist2 (v w : Point) : R :=
  (px v - px w) * (px v - px w) + (py v - py w) * (py v - py w) +
  (pz v - pz w) * (pz v - pz w).

(** Every coordinate of every vertex of [m] is at most [B] in size. *)
Definition coords_within (B : R) (m : Mesh) : Prop :=
  forall v, In v (mesh_vertices m) ->
            Rabs (px v) <= B /\ Rabs (py v) <= B /\ Rabs (pz v) <= B.

(** The eight stored vertices of a block from (x0, y0, z0) to
    (x1, y1, z1), in the order of the unit-cube template. *)
Definition block_corners (x0 x1 y0 y1 z0 z1 : R) : Value :=
  VList [VFmt3 (Num x0) (Num y0) (Num z0); VFmt3 (Num x1) (Num y0) (Num z0);
         VFmt3 (Num x1) (Num y1) (Num z0); VFmt3 (Num x0) (Num y1) (Num z0);
         VFmt3 (Num x0) (Num y0) (Num z1); VFmt3 (Num x1) (Num y0) (Num z1);
         VFmt3 (Num x1) (Num y1) (Num z1); VFmt3 (Num x0) (Num y1) (Num z1)].

(** What a run of [snappyHexMesh] leaves in the dictionary [d], given the
    three geometry entries, the two kinds of refinement region and the
    three coordinates it stores. *)
Definition snappy_written (box cyl1 cyl2 r4 r5 l0 l1 l2 : Value)
    (d geo cmc rr : gmap string Value) (loc : list Value) : gmap string Value :=
  <["castellatedMeshControls" :=
      VDict (<["locationInMesh" :=
                 VList (<[2%nat := l2]> (<[1%nat := l1]> (<[0%nat := l0]> loc)))]>
            (<["refinementRegions" :=
                 VDict (<["wingtip2" := r5]> (<["wingtip1" := r5]>
                       (<["downwindbox" := r4]> rr)))]> cmc))]>
  (<["geometry" :=
       VDict (<["wingtip2" := cyl2]> (<["wingtip1" := cyl1]>
             (<["downwindbox" := box]> geo)))]> d).

(** The minimum size of an extent: [if d < 2.5: d = 2.5]. *)
Definition clamp (d : float) : float := if flt d (Num 2.5) then Num 2.5 else d.

(** [x] is a double: at most 53 significant bits, in units of 2^-1074 or
    more. *)
Definition representable (x : R) : Prop :=
  exists m e, x = IZR m * bpow e /\ (Z.abs m < 2 ^ 53)%Z /\ (-1074 <= e)%Z.

(** [x] is within the range of the single-precision coordinates of an STL
    file, whose largest value is below 2^128. *)
Definition float32_range (x : R) : Prop := Rabs x <= bpow 128.

Definition bb_float32 (b : BoundingBox) : Prop :=
  float32_range (xmin b) /\ float32_range (xmax b) /\
  float32_range (ymin b) /\ float32_range (ymax b) /\
  float32_range (zmin b) /\ float32_range (zmax b).

(** * Concrete inputs *)

(** One facet with vertices (5,0,0), (-5,5,0), (0,-5,0): its bounding box
    is already centred on the origin. *)
Definition facet_5 : Triangle :=
  mkTriangle (mkPoint 5 0 0) (mkPoint (-5) 5 0) (mkPoint 0 (-5) 0).

Definition solid_5 : solidSTL :=
  mkSolid [facet_5] (mkBB (-5) 5 (-5) 5 0 0) (mkPoint 5 0 0) (mkPoint (-5) 5 0).

(** A facet away from the origin: x in [1,4], y in [2,6], z in [3,3]. *)
Definition facet_off : Triangle :=
  mkTriangle (mkPoint 1 2 3) (mkPoint 4 2 3) (mkPoint 1 6 3).

(** A template as the comment in [blockMeshDomain] describes it: the
    eight corners of the cube from -1 to 1, and a [blocks] entry whose
    slot 2 holds the cell counts. *)
Definition corner (x y z : Z) : Value := VList [VInt x; VInt y; VInt z].

Definition unit_cube : list Value :=
  [corner (-1) (-1) (-1); corner 1 (-1) (-1); corner 1 1 (-1); corner (-1) 1 (-1);
   corner (-1) (-1) 1; corner 1 (-1) 1; corner 1 1 1; corner (-1) 1 1].

Definition unit_cube_points : list Point :=
  [mkPoint (-1) (-1) (-1); mkPoint 1 (-1) (-1); mkPoint 1 1 (-1); mkPoint (-1) 1 (-1);
   mkPoint (-1) (-1) 1; mkPoint 1 (-1) 1; mkPoint 1 1 1; mkPoint (-1) 1 1].

Definition template_blocks : list Value :=
  [VStr "hex"; VList (map VInt [0; 1; 2; 3; 4; 5; 6; 7]%Z);
   VList [VInt 20; VInt 20; VInt 20]; VStr "simpleGrading";
   VList [VInt 1; VInt 1; VInt 1]].

Definition template_blockMeshDict : gmap string Value :=
  <["blocks" := VList template_blocks]> (<["vertices" := VList unit_cube]> ∅).

Definition template_snappyHexMeshDict : gmap string Value :=
  <["castellatedMeshControls" :=
      VDict (<["locationInMesh" := VList [VNum 0; VNum 0; VNum 0]]>
            (<["refinementRegions" := VDict ∅]> ∅))]>
  (<["geometry" := VDict ∅]> ∅).

(** A solid with the bounding box [0, 2, -3, 3, -1, 1]. *)
Definition solid_box : solidSTL :=
  mkSolid [mkTriangle (mkPoint 0 (-3) (-1)) (mkPoint 2 3 1) (mkPoint 1 0 0)]
          (mkBB 0 2 (-3) 3 (-1) 1) (mkPoint 2 3 1) (mkPoint 0 (-3) (-1)).

(** A solid whose [ymaxPoint] is (3, 5, 0). *)
Definition solid_tip : solidSTL :=
  mkSolid [mkTriangle (mkPoint 3 5 0) (mkPoint 0 0 0) (mkPoint 3 (-5) 0)]
          (mkBB 0 3 (-5) 5 0 0) (mkPoint 3 5 0) (mkPoint 3 (-5) 0).

Definition mesher_of (solid : solidSTL) (cell : R) : mesher :=
  mkMesher solid cell (VDict template_blockMeshDict) (VDict template_snappyHexMeshDict).

(** A snappyHexMeshDict that also holds the aircraft surface and a
    setting of its own. *)
Definition snappy_with_aircraft : gmap string Value :=
  <["castellatedMeshControls" :=
      VDict (<["maxGlobalCells" := VInt 2000000]>
            (<["locationInMesh" := VList [VNum 0; VNum 0; VNum 0]]>
            (<["refinementRegions" := VDict ∅]> ∅)))]>
  (<["geometry" := VDict (<["Aircraft.stl" := VDict (<["type" := VStr "triSurfaceMesh"]> ∅)]> ∅)]>
  (<["addLayers" := VStr "false"]> ∅)).

(** The double nearest to 0.3: 5404319552844595 * 2^-54. *)
Definition cell_03 : R := 5404319552844595 / 18014398509481984.

(** The smallest positive double. *)
Definition cell_tiny : R := bpow (-1074).

(** A solid with the bounding box [0, 0.25, 0, 0, 0, 0]: its extent
    downwind is 0.25 * 12 = 3. *)
Definition solid_quarter : solidSTL :=
  mkSolid [mkTriangle (mkPoint 0 0 0) (mkPoint 0.25 0 0) (mkPoint 0 0 0)]
          (mkBB 0 0.25 0 0 0 0) (mkPoint 0 0 0) (mkPoint 0 0 0).

(** * Tactics *)

Ltac run_monad :=
  unfold bind, lift, get, modify, ret, raise, zoom; cbn beta iota.

Ltac case_results :=
  repeat match goal with
         | |- context [match ?r with Ok _ => _ | Raise _ => _ end] =>
             destruct r; cbn beta iota
         end.

Ltac Rminmax :=
  repeat match goal with
         | |- context [Rmin ?a ?b] =>
             first [ rewrite (Rmin_left a b) by lra | rewrite (Rmin_right a b) by lra ]
         | |- context [Rmax ?a ?b] =>
             first [ rewrite (Rmax_left a b) by lra | rewrite (Rmax_right a b) by lra ]
         end.

Ltac decide_R :=
  repeat match goal with
         | |- context [decide (?a = ?b)] =>
             destruct (decide (a = b)); try (exfalso; lra)
         end.

(** Two string literals differ. *)
Ltac str_ne := let H := fresh in intros H; discriminate H.

(** * Properties *)


(** ** Minimum and maximum of an array *)

Section Extrema.

Lemma Rmin_shift (a b d : R) : Rmin (a + d) (b + d) = Rmin a b + d.
Proof. unfold Rmin. repeat destruct (Rle_dec _ _); lra. Qed.

Lemma Rmax_shift (a b d : R) : Rmax (a + d) (b + d) = Rmax a b + d.
Proof. unfold Rmax. repeat destruct (Rle_dec _ _); lra. Qed.

Lemma foldl_Rmin_shift (d : R) (l : list R) (a : R) :
  foldl Rmin (a + d) (map (fun b => b + d) l) = foldl Rmin a l + d.
Proof.
  revert a; induction l as [|b l IH]; intros a; simpl; [reflexivity|].
  rewrite Rmin_shift. apply IH.
Qed.

Lemma foldl_Rmax_shift (d : R) (l : list R) (a : R) :
  foldl Rmax (a + d) (map (fun b => b + d) l) = foldl Rmax a l + d.
Proof.
  revert a; induction l as [|b l IH]; intros a; simpl; [reflexivity|].
  rewrite Rmax_shift. apply IH.
Qed.

Lemma amin_shift (d : R) (l : list R) (lo : R) :
  amin l = Ok lo -> amin (map (fun b => b + d) l) = Ok (lo + d).
Proof.
  destruct l as [|a l]; simpl; [discriminate|].
  intros [= <-]. f_equal. apply foldl_Rmin_shift.
Qed.

Lemma amax_shift (d : R) (l : list R) (hi : R) :
  amax l = Ok hi -> amax (map (fun b => b + d) l) = Ok (hi + d).
Proof.
  destruct l as [|a l]; simpl; [discriminate|].
  intros [= <-]. f_equal. apply foldl_Rmax_shift.
Qed.

Lemma amin_nonempty (l : list R) : l <> [] -> exists lo, amin l = Ok lo.
Proof. destruct l; [congruence|]; simpl; eauto. Qed.

Lemma amax_nonempty (l : list R) : l <> [] -> exists hi, amax l = Ok hi.
Proof. destruct l; [congruence|]; simpl; eauto. Qed.

Lemma axis_nonempty (k : Point -> R) (m : Mesh) : m <> [] -> axis k m <> [].
Proof. destruct m; [congruence|]; discriminate. Qed.

Lemma axis_map_vertices (k : Point -> R) (f : Point -> Point) (g : R -> R) (m : Mesh) :
  (forall p, k (f p) = g (k p)) ->
  axis k (map_vertices f m) = map g (axis k m).
Proof.
  intros Hk. unfold axis, map_vertices.
  induction m as [|t m IH]; [reflexivity|].
  cbn [map concat vertices v0 v1 v2 app]. rewrite !Hk.
  f_equal. f_equal. f_equal. exact IH.
Qed.

End Extrema.

(** ** The scan of [np.where] *)

Section Where.

Lemma where_point_valid (i j : nat) (c : R) (p : Point) (i' j' k' : nat) :
  In (i', j', k') (where_point i j c p) -> i' = i /\ j' = j.
Proof.
  unfold where_point. rewrite !in_app_iff.
  repeat destruct (decide _); simpl; intuition congruence.
Qed.

Lemma where_triangle_valid (i : nat) (c : R) (t : Triangle) (i' j' k' : nat) :
  In (i', j', k') (where_triangle i c t) -> i' = i /\ (j' < 3)%nat.
Proof.
  unfold where_triangle. rewrite !in_app_iff.
  intros [H|[H|H]]; apply where_point_valid in H; lia.
Qed.

Lemma where_from_valid (c : R) (m : Mesh) (i i' j' k' : nat) :
  In (i', j', k') (where_from i c m) ->
  (i <= i')%nat /\ is_Some (m !! (i' - i)%nat) /\ (j' < 3)%nat.
Proof.
  revert i; induction m as [|t m IH]; intros i; simpl; [tauto|].
  rewrite in_app_iff. intros [H|H].
  - apply where_triangle_valid in H as [-> ?].
    replace (i - i)%nat with 0%nat by lia. simpl. eauto.
  - apply IH in H as (? & ? & ?).
    replace (i' - i)%nat with (S (i' - S i)) by lia. simpl. split; [lia|]. tauto.
Qed.

Lemma vertex_at_valid (m : Mesh) (i j : nat) :
  is_Some (m !! i) -> (j < 3)%nat -> exists p, vertex_at m i j = Ok p.
Proof.
  intros [t Ht] Hj. unfold vertex_at, list_index. rewrite Ht. simpl.
  destruct j as [|[|[|j]]]; simpl; eauto. lia.
Qed.

(** The lookup of the stored vertex never fails. *)
Lemma extreme_point_ok (m : Mesh) (c : R) : exists p, extreme_point m c = Ok p.
Proof.
  unfold extreme_point, np_where_eq.
  destruct (where_from 0 c m) as [|[[i j] k] w] eqn:Hw; [eauto|].
  assert (Hin : In (i, j, k) (where_from 0 c m)) by (rewrite Hw; left; reflexivity).
  apply where_from_valid in Hin as (_ & Hi & Hj).
  replace (i - 0)%nat with i in Hi by lia.
  apply vertex_at_valid; assumption.
Qed.

End Where.

(** ** boundingBox, translate, centerGeometry *)

Section BoundingBox.

Lemma boundingBox_ok (s : solidSTL) :
  mesh s <> [] ->
  exists s', boundingBox s = (Ok tt, s') /\ mesh s' = mesh s /\ cache_fresh s'.
Proof.
  intros Hne.
  destruct (amin_nonempty (axis px (mesh s))) as [x0 Hx0]; [by apply axis_nonempty|].
  destruct (amax_nonempty (axis px (mesh s))) as [x1 Hx1]; [by apply axis_nonempty|].
  destruct (amin_nonempty (axis py (mesh s))) as [y0 Hy0]; [by apply axis_nonempty|].
  destruct (amax_nonempty (axis py (mesh s))) as [y1 Hy1]; [by apply axis_nonempty|].
  destruct (amin_nonempty (axis pz (mesh s))) as [z0 Hz0]; [by apply axis_nonempty|].
  destruct (amax_nonempty (axis pz (mesh s))) as [z1 Hz1]; [by apply axis_nonempty|].
  destruct (extreme_point_ok (mesh s) y1) as [p1 Hp1].
  destruct (extreme_point_ok (mesh s) y0) as [p0 Hp0].
  exists (mkSolid (mesh s) (mkBB x0 x1 y0 y1 z0 z1) p1 p0).
  split; [|split; [reflexivity|]].
  - unfold boundingBox. run_monad.
    rewrite Hx0, Hx1, Hy0, Hy1, Hz0, Hz1. cbn beta iota.
    rewrite Hp1. cbn beta iota. rewrite Hp0. reflexivity.
  - unfold cache_fresh, is_bbox; simpl. tauto.
Qed.

(** [boundingBox] never writes the vertices, also when it raises. *)
Lemma boundingBox_mesh (s : solidSTL) : mesh (snd (boundingBox s)) = mesh s.
Proof.
  unfold boundingBox. run_monad. case_results; reflexivity.
Qed.

(** On an empty array the first [min()] raises and nothing is stored. *)
Lemma boundingBox_empty (s : solidSTL) :
  mesh s = [] -> exists e, boundingBox s = (Raise e, s).
Proof.
  intros Hm. unfold boundingBox. run_monad. rewrite Hm. simpl. eauto.
Qed.

Lemma translate_ok (dx dy dz : R) (s : solidSTL) :
  mesh s <> [] ->
  exists s', translate dx dy dz s = (Ok tt, s') /\
             mesh s' = map_vertices (add_offset dx dy dz) (mesh s) /\
             cache_fresh s'.
Proof.
  intros Hne. unfold translate. run_monad.
  set (s1 := set_mesh _ s).
  destruct (boundingBox_ok s1) as (s' & Hrun & Hm & Hc).
  { subst s1; simpl. destruct (mesh s); [congruence|discriminate]. }
  exists s'. rewrite Hrun. auto.
Qed.

Lemma is_bbox_translate (dx dy dz : R) (m : Mesh) (b : BoundingBox) :
  is_bbox m b ->
  is_bbox (map_vertices (add_offset dx dy dz) m)
          (mkBB (xmin b + dx) (xmax b + dx) (ymin b + dy) (ymax b + dy)
                (zmin b + dz) (zmax b + dz)).
Proof.
  unfold is_bbox; simpl. intros (H1 & H2 & H3 & H4 & H5 & H6).
  rewrite (axis_map_vertices px _ (fun a => a + dx)) by reflexivity.
  rewrite (axis_map_vertices py _ (fun a => a + dy)) by reflexivity.
  rewrite (axis_map_vertices pz _ (fun a => a + dz)) by reflexivity.
  repeat split; auto using amin_shift, amax_shift.
Qed.

Lemma is_bbox_unique (m : Mesh) (b b' : BoundingBox) :
  is_bbox m b -> is_bbox m b' -> b = b'.
Proof.
  unfold is_bbox. destruct b, b'; simpl.
  intros (H1 & H2 & H3 & H4 & H5 & H6) (G1 & G2 & G3 & G4 & G5 & G6).
  congruence.
Qed.

(** [centerGeometry] on a non-empty solid: it returns, every vertex is
    moved by minus the midpoint of the old bounding box, and the new
    bounding box is the old one moved by the same offset. *)
Lemma centerGeometry_ok (s : solidSTL) :
  mesh s <> [] ->
  exists b s',
    is_bbox (mesh s) b /\
    centerGeometry s = (Ok tt, s') /\
    let ox := -1 * ((xmax b - xmin b) / 2 + xmin b) in
    let oy := -1 * ((ymax b - ymin b) / 2 + ymin b) in
    let oz := -1 * ((zmax b - zmin b) / 2 + zmin b) in
    mesh s' = map_vertices (add_offset ox oy oz) (mesh s) /\
    bb s' = mkBB (xmin b + ox) (xmax b + ox) (ymin b + oy) (ymax b + oy)
                 (zmin b + oz) (zmax b + oz) /\
    cache_fresh s'.
Proof.
  intros Hne.
  destruct (boundingBox_ok s Hne) as (s1 & Hrun1 & Hm1 & Hc1).
  assert (Hne1 : mesh s1 <> []) by congruence.
  set (b := bb s1).
  destruct (translate_ok (-1 * ((xmax b - xmin b) / 2 + xmin b))
                         (-1 * ((ymax b - ymin b) / 2 + ymin b))
                         (-1 * ((zmax b - zmin b) / 2 + zmin b)) s1 Hne1)
    as (s' & Hrun2 & Hm2 & Hc2).
  exists b, s'. split; [|split; [|cbn zeta; split; [|split]]].
  - rewrite <- Hm1. apply Hc1.
  - unfold centerGeometry. run_monad. rewrite Hrun1. exact Hrun2.
  - rewrite Hm2, Hm1. reflexivity.
  - apply (is_bbox_unique (mesh s')); [apply Hc2|].
    rewrite Hm2. apply is_bbox_translate. apply Hc1.
  - exact Hc2.
Qed.

End BoundingBox.

(** ** rotate and euler2mat *)

Section Rotation.

Lemma point_eq (a b c a' b' c' : R) :
  a = a' -> b = b' -> c = c' -> mkPoint a b c = mkPoint a' b' c'.
Proof. congruence. Qed.

Lemma mat3_eq (a b c d e f g h i a' b' c' d' e' f' g' h' i' : R) :
  a = a' -> b = b' -> c = c' -> d = d' -> e = e' -> f = f' ->
  g = g' -> h = h' -> i = i' ->
  mkMat3 a b c d e f g h i = mkMat3 a' b' c' d' e' f' g' h' i'.
Proof. congruence. Qed.

(** [np.dot(v, rm.T)] is the product of [rm] with the column [v]. *)
Lemma dot_row_transpose (rm : Mat3) (v : Point) :
  dot_row v (transpose rm) = mat_vec rm v.
Proof. unfold dot_row, mat_vec, transpose; simpl. apply point_eq; ring. Qed.

Lemma mat_vec_dot (A B : Mat3) (v : Point) :
  mat_vec (dot A B) v = mat_vec A (mat_vec B v).
Proof. unfold mat_vec, dot; simpl. apply point_eq; ring. Qed.

Lemma mat_vec_eye (v : Point) : mat_vec eye v = v.
Proof. destruct v. unfold mat_vec, eye; simpl. apply point_eq; ring. Qed.

Lemma dot_eye_l (A : Mat3) : dot eye A = A.
Proof. destruct A. unfold dot, eye; simpl. apply mat3_eq; ring. Qed.

Lemma dot_eye_r (A : Mat3) : dot A eye = A.
Proof. destruct A. unfold dot, eye; simpl. apply mat3_eq; ring. Qed.

Lemma rot_z_0 : rot_z 0 = eye.
Proof. unfold rot_z, eye. rewrite cos_0, sin_0. apply mat3_eq; ring. Qed.

Lemma rot_y_0 : rot_y 0 = eye.
Proof. unfold rot_y, eye. rewrite cos_0, sin_0. apply mat3_eq; ring. Qed.

Lemma rot_x_0 : rot_x 0 = eye.
Proof. unfold rot_x, eye. rewrite cos_0, sin_0. apply mat3_eq; ring. Qed.

(** The three assignments to the vertices of facet [i]. *)
Lemma rotate_facet (rm : Mat3) (m : Mesh) (i : nat) (t : Triangle) :
  m !! i = Some t ->
  foldl (fun m j => rotate_vertex rm m i j) m (seq 0 3) =
  <[i := mkTriangle (dot_row (v0 t) (transpose rm))
                    (dot_row (v1 t) (transpose rm))
                    (dot_row (v2 t) (transpose rm))]> m.
Proof.
  intros Ht. assert (Hi : (i < length m)%nat) by (eapply lookup_lt_Some; eauto).
  cbn [seq foldl]. unfold rotate_vertex at 3. rewrite Ht. cbn.
  unfold rotate_vertex at 2. rewrite list_lookup_insert_eq by assumption. cbn.
  rewrite list_insert_insert_eq.
  unfold rotate_vertex. rewrite list_lookup_insert_eq by assumption. cbn.
  rewrite list_insert_insert_eq. reflexivity.
Qed.

(** The loop over the facets, started when the facets [done] are already
    rotated. *)
Lemma rotate_loop_from (rm : Mat3) (todo done : Mesh) :
  foldl (fun m i => foldl (fun m j => rotate_vertex rm m i j) m (seq 0 3))
        (done ++ todo) (seq (length done) (length todo)) =
  done ++ map_vertices (fun v => dot_row v (transpose rm)) todo.
Proof.
  revert done; induction todo as [|t todo IH]; intros done; [reflexivity|].
  change (seq (length done) (length (t :: todo)))
    with (length done :: seq (S (length done)) (length todo)).
  cbn [foldl].
  rewrite (rotate_facet rm _ _ t) by (by apply list_lookup_middle).
  replace (length done) with (length done + 0)%nat at 1 by lia.
  rewrite insert_app_r. cbn [insert list_insert].
  set (t' := mkTriangle _ _ _).
  replace (done ++ t' :: todo) with ((done ++ [t']) ++ todo)
    by (rewrite <- app_assoc; reflexivity).
  replace (S (length done)) with (length (done ++ [t']))
    by (rewrite length_app; simpl; lia).
  rewrite IH. rewrite <- app_assoc. reflexivity.
Qed.

(** The rotation loop replaces every vertex [v] by [rm v]. *)
Lemma rotate_loop_map (rm : Mat3) (m : Mesh) :
  rotate_loop rm m = map_vertices (mat_vec rm) m.
Proof.
  unfold rotate_loop.
  transitivity ([] ++ map_vertices (fun v => dot_row v (transpose rm)) m);
    [exact (rotate_loop_from rm m [])|].
  cbn [app]. unfold map_vertices. apply map_ext. intros t.
  rewrite !dot_row_transpose. reflexivity.
Qed.

(** The product [euler2mat] returns, whichever angles are zero. *)
Lemma euler2mat_product (z y x : R) :
  euler2mat z y x = dot (dot (rot_x x) (rot_y y)) (rot_z z).
Proof.
  unfold euler2mat, euler_Ms.
  destruct (decide (z = 0)) as [->|Hz], (decide (y = 0)) as [->|Hy],
           (decide (x = 0)) as [->|Hx]; cbn;
    rewrite ?rot_z_0, ?rot_y_0, ?rot_x_0, ?dot_eye_l, ?dot_eye_r; reflexivity.
Qed.

Lemma map_vertices_id (f : Point -> Point) (m : Mesh) :
  (forall v, f v = v) -> map_vertices f m = m.
Proof.
  intros Hf. unfold map_vertices. induction m as [|[a b c] m IH]; [reflexivity|].
  cbn. rewrite !Hf, IH. reflexivity.
Qed.

(** [rotate] with accepted units: the angles in radians, then the loop,
    then [boundingBox]. *)
Lemma rotate_radians_run (z y x : R) (s : solidSTL) :
  rotate z y x "radians" s =
  boundingBox (set_mesh (rotate_loop (euler2mat z y x) (mesh s)) s).
Proof.
  unfold rotate.
  destruct (decide ("radians" = "degrees")) as [Heq|_]; [discriminate Heq|].
  destruct (decide ("radians" = "radians")) as [_|Hne]; [|congruence].
  reflexivity.
Qed.

Lemma rotate_degrees_run (z y x : R) (s : solidSTL) :
  rotate z y x "degrees" s =
  boundingBox
    (set_mesh (rotate_loop (euler2mat (radians z) (radians y) (radians x)) (mesh s)) s).
Proof.
  unfold rotate.
  destruct (decide ("degrees" = "degrees")) as [_|Hne]; [|congruence].
  reflexivity.
Qed.

(** What [rotate] leaves in [vectors] once the units are accepted. *)
Lemma rotate_radians_mesh (z y x : R) (s : solidSTL) :
  mesh (snd (rotate z y x "radians" s)) =
  map_vertices (mat_vec (euler2mat z y x)) (mesh s).
Proof.
  rewrite rotate_radians_run, boundingBox_mesh. simpl. apply rotate_loop_map.
Qed.

Lemma rotate_degrees_mesh (z y x : R) (s : solidSTL) :
  mesh (snd (rotate z y x "degrees" s)) =
  map_vertices (mat_vec (euler2mat (radians z) (radians y) (radians x))) (mesh s).
Proof.
  rewrite rotate_degrees_run, boundingBox_mesh. simpl. apply rotate_loop_map.
Qed.

End Rotation.

(** ** The monad, step by step *)

Section Monad.

Context {S A B : Type}.

Lemma bind_ok (c : M S A) (k : A -> M S B) (s s' : S) (a : A) :
  c s = (Ok a, s') -> bind c k s = k a s'.
Proof. unfold bind. intros ->. reflexivity. Qed.

Lemma bind_raise (c : M S A) (k : A -> M S B) (s s' : S) (e : exn) :
  c s = (Raise e, s') -> bind c k s = (Raise e, s').
Proof. unfold bind. intros ->. reflexivity. Qed.

End Monad.

(** ** Binary64 rounding *)

Section Bpow.

Lemma bpow_pos (e : Z) : 0 < bpow e.
Proof. apply powerRZ_lt. lra. Qed.

Lemma bpow_0 : bpow 0 = 1.
Proof. reflexivity. Qed.

Lemma bpow_1 : bpow 1 = 2.
Proof. unfold bpow. simpl. lra. Qed.

Lemma bpow_add (a b : Z) : bpow (a + b) = bpow a * bpow b.
Proof. apply powerRZ_add. lra. Qed.

Lemma bpow_opp (a : Z) : bpow (- a) = / bpow a.
Proof. apply powerRZ_neg'. Qed.

Lemma bpow_IZR (k : Z) : (0 <= k)%Z -> bpow k = IZR (2 ^ k).
Proof.
  intros Hk. unfold bpow. destruct k as [|p|p]; [reflexivity| |lia].
  rewrite <- Z.pow_pos_fold. rewrite Zpower_pos_powerRZ. reflexivity.
Qed.

Lemma bpow_ge_1 (k : Z) : (0 <= k)%Z -> 1 <= bpow k.
Proof.
  intros Hk. rewrite bpow_IZR by assumption. apply IZR_le.
  pose proof (Z.pow_pos_nonneg 2 k). lia.
Qed.

Lemma bpow_le (a b : Z) : (a <= b)%Z -> bpow a <= bpow b.
Proof.
  intros H. replace b with (a + (b - a))%Z by lia. rewrite bpow_add.
  pose proof (bpow_pos a). pose proof (bpow_ge_1 (b - a) ltac:(lia)). nra.
Qed.

Lemma bpow_lt (a b : Z) : (a < b)%Z -> bpow a < bpow b.
Proof.
  intros H. replace b with (a + 1 + (b - a - 1))%Z by lia. rewrite !bpow_add.
  pose proof (bpow_pos a). pose proof (bpow_ge_1 (b - a - 1) ltac:(lia)).
  rewrite bpow_1. nra.
Qed.

Lemma bpow_lt_inv (a b : Z) : bpow a < bpow b -> (a < b)%Z.
Proof.
  intros H. destruct (Z_lt_le_dec a b) as [|Hle]; [assumption|].
  apply bpow_le in Hle. lra.
Qed.

Lemma bpow_exp (e : Z) : bpow e = exp (IZR e * ln 2).
Proof. unfold bpow. rewrite powerRZ_Rpower by lra. reflexivity. Qed.

End Bpow.

Section Mag.

Lemma ln2_pos : 0 < ln 2.
Proof. pose proof ln_lt_2. lra. Qed.

Lemma mag_spec (x : R) : x <> 0 -> bpow (mag x) <= Rabs x < bpow (mag x + 1).
Proof.
  intros Hx. assert (Ha : 0 < Rabs x) by (by apply Rabs_pos_lt).
  pose proof ln2_pos as H2.
  pose proof (Zfloor_bound (ln (Rabs x) / ln 2)) as [Hlo Hhi]. fold (mag x) in Hlo, Hhi.
  assert (Hlo' : IZR (mag x) * ln 2 <= ln (Rabs x)).
  { apply Rmult_le_reg_r with (/ ln 2); [by apply Rinv_0_lt_compat|].
    rewrite Rmult_assoc, Rinv_r by lra. unfold Rdiv in Hlo. lra. }
  assert (Hhi' : ln (Rabs x) < IZR (mag x + 1) * ln 2).
  { rewrite plus_IZR. apply Rmult_lt_reg_r with (/ ln 2); [by apply Rinv_0_lt_compat|].
    rewrite Rmult_assoc, Rinv_r by lra. unfold Rdiv in Hhi. lra. }
  rewrite !bpow_exp. rewrite <- (exp_ln (Rabs x) Ha) at 1 2.
  split.
  - destruct Hlo' as [Hlt|Heq]; [left; by apply exp_increasing|right; by rewrite Heq].
  - by apply exp_increasing.
Qed.

Lemma mag_unique (x : R) (e : Z) : bpow e <= Rabs x < bpow (e + 1) -> mag x = e.
Proof.
  intros [Hlo Hhi].
  assert (Hx : x <> 0).
  { intros ->. rewrite Rabs_R0 in Hlo. pose proof (bpow_pos e). lra. }
  destruct (mag_spec x Hx) as [Mlo Mhi].
  assert (H1 : (e < mag x + 1)%Z) by (apply bpow_lt_inv; lra).
  assert (H2 : (mag x < e + 1)%Z) by (apply bpow_lt_inv; lra).
  lia.
Qed.

End Mag.

Section Rne.

Lemma rne_IZR (n : Z) : rne (IZR n) = n.
Proof.
  unfold rne. rewrite ZfloorZ. destruct (decide (IZR n - IZR n < / 2)); [reflexivity|lra].
Qed.

Lemma rne_error (r : R) : Rabs (IZR (rne r) - r) <= / 2.
Proof.
  unfold rne. pose proof (Zfloor_bound r) as [Hlo Hhi].
  repeat destruct (decide _); try destruct (Z.even _); rewrite ?plus_IZR;
    apply Rabs_le; lra.
Qed.

Lemma rne_le (r : R) (n : Z) : r <= IZR n -> (rne r <= n)%Z.
Proof.
  intros H. unfold rne. pose proof (Zfloor_bound r) as [Hlo Hhi].
  assert (Hf : (Zfloor r <= n)%Z) by (apply le_IZR; lra).
  destruct (Z.eq_dec (Zfloor r) n) as [E|E].
  - rewrite E in *. assert (r = IZR n) by lra. subst r.
    destruct (decide (IZR n - IZR n < / 2)); [lia|lra].
  - repeat destruct (decide _); try destruct (Z.even _); lia.
Qed.

Lemma rne_ge (r : R) (n : Z) : IZR n <= r -> (n <= rne r)%Z.
Proof.
  intros H. unfold rne. pose proof (Zfloor_bound r) as [Hlo Hhi].
  assert (Hf : (n <= Zfloor r)%Z) by (by apply Zfloor_lub).
  repeat destruct (decide _); try destruct (Z.even _); lia.
Qed.

Lemma rne_near (r : R) (n : Z) : Rabs (r - IZR n) < / 2 -> rne r = n.
Proof.
  intros H. apply Rabs_def2 in H as [H1 H2].
  unfold rne. pose proof (Zfloor_bound r) as [Hlo Hhi].
  assert (Hn : (Zfloor r = n \/ Zfloor r = n - 1)%Z).
  { assert (IZR (n - 1) < IZR (Zfloor r) + 1) by (rewrite minus_IZR; lra).
    assert (IZR (Zfloor r) < IZR (n + 1)) by (rewrite plus_IZR; lra).
    assert (n - 1 < Zfloor r + 1)%Z by (apply lt_IZR; rewrite plus_IZR; lra).
    assert (Zfloor r < n + 1)%Z by (by apply lt_IZR). lia. }
  destruct Hn as [E|E]; rewrite E in *; [|rewrite minus_IZR in *].
  - destruct (decide (r - IZR n < / 2)); [reflexivity|lra].
  - destruct (decide (r - (IZR n - 1) < / 2)); [lra|].
    destruct (decide (/ 2 < r - (IZR n - 1))); [lia|lra].
Qed.

End Rne.

Section Round64.

Lemma Rabs_bounds (a b : R) : Rabs a <= b -> - b <= a <= b.
Proof. unfold Rabs. destruct (Rcase_abs a); lra. Qed.

Lemma round64_0 : round64 0 = 0.
Proof. unfold round64. destruct (decide (0 = 0)); [reflexivity|contradiction]. Qed.

Lemma round64_unfold (x : R) :
  x <> 0 -> round64 x = IZR (rne (x / bpow (ulp_exp x))) * bpow (ulp_exp x).
Proof. intros Hx. unfold round64. destruct (decide (x = 0)); [contradiction|reflexivity]. Qed.

Lemma ulp_exp_ge (x : R) : (-1074 <= ulp_exp x)%Z.
Proof. unfold ulp_exp. lia. Qed.

Lemma scaled (x : R) (e : Z) : x / bpow e * bpow e = x.
Proof. pose proof (bpow_pos e). field. lra. Qed.

Lemma scaled_bpow (a b : Z) : bpow a / bpow b = bpow (a - b).
Proof.
  replace (a - b)%Z with (a + - b)%Z by lia. rewrite bpow_add, bpow_opp. reflexivity.
Qed.

Lemma Rabs_scaled (x : R) (e : Z) : Rabs (x / bpow e) = Rabs x / bpow e.
Proof.
  pose proof (bpow_pos e). unfold Rdiv. rewrite Rabs_mult, (Rabs_right (/ bpow e)); [reflexivity|].
  apply Rle_ge. left. by apply Rinv_0_lt_compat.
Qed.

Lemma div_le_bpow (x : R) (a e : Z) : x <= bpow a -> x / bpow e <= bpow (a - e).
Proof.
  intros H. rewrite <- scaled_bpow. pose proof (bpow_pos e).
  apply Rmult_le_compat_r; [|assumption]. left. by apply Rinv_0_lt_compat.
Qed.

Lemma div_lt_bpow (x : R) (a e : Z) : x < bpow a -> x / bpow e < bpow (a - e).
Proof.
  intros H. rewrite <- scaled_bpow. pose proof (bpow_pos e).
  apply Rmult_lt_compat_r; [|assumption]. by apply Rinv_0_lt_compat.
Qed.

Lemma div_ge_bpow (x : R) (a e : Z) : bpow a <= x -> bpow (a - e) <= x / bpow e.
Proof.
  intros H. rewrite <- scaled_bpow. pose proof (bpow_pos e).
  apply Rmult_le_compat_r; [|assumption]. left. by apply Rinv_0_lt_compat.
Qed.

(** A number with at most 53 significant bits above 2^-1074 is a double. *)
Lemma round64_exact (m e : Z) :
  (Z.abs m < 2 ^ 53)%Z -> (-1074 <= e)%Z -> round64 (IZR m * bpow e) = IZR m * bpow e.
Proof.
  intros Hm He. set (x := IZR m * bpow e).
  destruct (decide (x = 0)) as [E|Hx]; [rewrite E; apply round64_0|].
  rewrite round64_unfold by assumption.
  pose proof (bpow_pos e) as Hpe.
  assert (Habs : Rabs x < bpow (e + 53)).
  { unfold x. rewrite Rabs_mult, (Rabs_right (bpow e)) by lra.
    rewrite bpow_add, Rmult_comm, (bpow_IZR 53) by lia.
    apply Rmult_lt_compat_l; [assumption|]. rewrite <- abs_IZR. by apply IZR_lt. }
  destruct (mag_spec x Hx) as [Mlo _].
  assert (Hmag : (mag x < e + 53)%Z) by (apply bpow_lt_inv; lra).
  assert (Hue : (ulp_exp x <= e)%Z) by (unfold ulp_exp; lia).
  assert (Hs : x / bpow (ulp_exp x) = IZR (m * 2 ^ (e - ulp_exp x))).
  { rewrite mult_IZR, <- bpow_IZR by lia. unfold x, Rdiv.
    rewrite Rmult_assoc. f_equal. apply scaled_bpow. }
  rewrite Hs, rne_IZR, <- Hs. apply scaled.
Qed.

Lemma round64_id (x : R) : representable x -> round64 x = x.
Proof. intros (m & e & -> & Hm & He). by apply round64_exact. Qed.

Lemma representable_opp (x : R) : representable x -> representable (- x).
Proof.
  intros (m & e & -> & Hm & He). exists (- m)%Z, e. rewrite opp_IZR.
  split; [lra|]. split; [lia|assumption].
Qed.

Lemma representable_0 : representable 0.
Proof. exists 0%Z, 0%Z. split; [lra|]. split; [reflexivity|lia]. Qed.

Lemma scaled_bound (x : R) : x <> 0 -> Rabs (x / bpow (ulp_exp x)) < bpow 53.
Proof.
  intros Hx. destruct (mag_spec x Hx) as [_ Mhi]. rewrite Rabs_scaled.
  eapply Rlt_le_trans; [apply div_lt_bpow, Mhi|]. apply bpow_le. unfold ulp_exp. lia.
Qed.

Lemma round64_representable (x : R) : representable (round64 x).
Proof.
  destruct (decide (x = 0)) as [->|Hx]; [rewrite round64_0; apply representable_0|].
  rewrite round64_unfold by assumption.
  pose proof (scaled_bound x Hx) as Hb. rewrite (bpow_IZR 53) in Hb by lia.
  apply Rabs_def2 in Hb as [Hhi Hlo].
  set (n := rne (x / bpow (ulp_exp x))).
  assert (H1 : (n <= 2 ^ 53)%Z) by (apply rne_le; lra).
  assert (H2 : (- 2 ^ 53 <= n)%Z) by (apply rne_ge; rewrite opp_IZR; lra).
  pose proof (ulp_exp_ge x) as Hge.
  destruct (Z.eq_dec n (2 ^ 53)%Z) as [E|N1].
  { exists 1%Z, (ulp_exp x + 53)%Z. rewrite E, bpow_add, (bpow_IZR 53) by lia.
    split; [lra|]. split; [reflexivity|lia]. }
  destruct (Z.eq_dec n (- 2 ^ 53)%Z) as [E|N2].
  { exists (-1)%Z, (ulp_exp x + 53)%Z. rewrite E, bpow_add, (bpow_IZR 53), opp_IZR by lia.
    split; [lra|]. split; [reflexivity|lia]. }
  exists n, (ulp_exp x). split; [reflexivity|]. split; [lia|assumption].
Qed.

(** The rounding error is at most half a unit in the last place. *)
Lemma round64_ulp (x : R) : Rabs (round64 x - x) <= / 2 * bpow (ulp_exp x).
Proof.
  pose proof (bpow_pos (ulp_exp x)) as Hp.
  destruct (decide (x = 0)) as [->|Hx].
  { rewrite round64_0, Rminus_0_r, Rabs_R0. lra. }
  rewrite round64_unfold by assumption.
  replace (IZR (rne (x / bpow (ulp_exp x))) * bpow (ulp_exp x) - x)
    with ((IZR (rne (x / bpow (ulp_exp x))) - x / bpow (ulp_exp x)) * bpow (ulp_exp x))
    by (field; lra).
  rewrite Rabs_mult, (Rabs_right (bpow (ulp_exp x))) by lra.
  apply Rmult_le_compat_r; [lra|apply rne_error].
Qed.

Lemma round64_error (x : R) :
  Rabs (round64 x - x) <= bpow (-53) * Rabs x + bpow (-1075).
Proof.
  pose proof (bpow_pos (-53)). pose proof (bpow_pos (-1075)). pose proof (Rabs_pos x).
  destruct (decide (x = 0)) as [->|Hx].
  { rewrite round64_0, Rminus_0_r, Rabs_R0. lra. }
  eapply Rle_trans; [apply round64_ulp|].
  destruct (mag_spec x Hx) as [Mlo _]. unfold ulp_exp.
  destruct (Z.max_spec (mag x - 52) (-1074)) as [[_ ->]|[_ ->]].
  - replace (-1074)%Z with (1 + -1075)%Z by lia. rewrite bpow_add, bpow_1. nra.
  - replace (mag x - 52)%Z with (1 + (-53 + mag x))%Z by lia.
    rewrite !bpow_add, bpow_1. nra.
Qed.

Lemma round64_le_bpow (x : R) (k : Z) :
  (-1074 <= k)%Z -> Rabs x <= bpow k -> Rabs (round64 x) <= bpow k.
Proof.
  intros Hk Hx. destruct (decide (x = 0)) as [->|Hne].
  { rewrite round64_0, Rabs_R0. left. apply bpow_pos. }
  rewrite round64_unfold by assumption.
  destruct (mag_spec x Hne) as [Mlo _].
  assert (Hmag : (mag x <= k)%Z).
  { destruct (Z_le_gt_dec (mag x) k); [assumption|].
    assert (bpow k < bpow (mag x)) by (apply bpow_lt; lia). lra. }
  assert (Hue : (ulp_exp x <= k)%Z) by (unfold ulp_exp; lia).
  pose proof (bpow_pos (ulp_exp x)) as Hp.
  assert (Hs : Rabs (x / bpow (ulp_exp x)) <= IZR (2 ^ (k - ulp_exp x))).
  { rewrite Rabs_scaled, <- bpow_IZR by lia. by apply div_le_bpow. }
  apply Rabs_bounds in Hs as [Hlo Hhi]. rewrite <- opp_IZR in Hlo.
  apply rne_ge in Hlo. apply rne_le in Hhi.
  rewrite Rabs_mult, (Rabs_right (bpow (ulp_exp x))) by lra.
  assert (E : bpow k = bpow (k - ulp_exp x) * bpow (ulp_exp x))
    by (rewrite <- bpow_add; f_equal; lia).
  rewrite E. apply Rmult_le_compat_r; [left; exact Hp|].
  rewrite (bpow_IZR (k - ulp_exp x)), <- abs_IZR by lia. apply IZR_le. lia.
Qed.

Lemma round64_ge_bpow (x : R) (k : Z) :
  (-1074 <= k)%Z -> bpow k <= x -> bpow k <= round64 x.
Proof.
  intros Hk Hx. pose proof (bpow_pos k) as Hpk.
  assert (Hne : x <> 0) by lra.
  rewrite round64_unfold by assumption.
  destruct (mag_spec x Hne) as [Mlo Mhi]. rewrite Rabs_right in Mlo, Mhi by lra.
  assert (Hmag : (k <= mag x)%Z).
  { assert (k < mag x + 1)%Z by (apply bpow_lt_inv; lra). lia. }
  pose proof (bpow_pos (ulp_exp x)) as Hp.
  destruct (Z_le_gt_dec (ulp_exp x) k) as [Hue|Hue].
  - assert (Hs : IZR (2 ^ (k - ulp_exp x)) <= x / bpow (ulp_exp x)).
    { rewrite <- bpow_IZR by lia. by apply div_ge_bpow. }
    apply rne_ge in Hs. apply IZR_le in Hs. rewrite <- bpow_IZR in Hs by lia.
    assert (E : bpow k = bpow (k - ulp_exp x) * bpow (ulp_exp x))
      by (rewrite <- bpow_add; f_equal; lia).
    rewrite E. apply Rmult_le_compat_r; lra.
  - assert (Eu : ulp_exp x = (mag x - 52)%Z) by (unfold ulp_exp in *; lia).
    assert (Hs : IZR (2 ^ 52) <= x / bpow (ulp_exp x)).
    { rewrite <- bpow_IZR by lia. replace 52%Z with (mag x - ulp_exp x)%Z by lia.
      by apply div_ge_bpow. }
    apply rne_ge in Hs. apply IZR_le in Hs. rewrite <- bpow_IZR in Hs by lia.
    apply Rle_trans with (bpow (mag x)); [by apply bpow_le|].
    assert (E : bpow (mag x) = bpow 52 * bpow (ulp_exp x))
      by (rewrite <- bpow_add; f_equal; lia).
    rewrite E. apply Rmult_le_compat_r; lra.
Qed.

Lemma round64_nonneg (x : R) : 0 <= x -> 0 <= round64 x.
Proof.
  intros Hx. destruct (decide (x = 0)) as [->|Hne]; [rewrite round64_0; lra|].
  rewrite round64_unfold by assumption.
  pose proof (bpow_pos (ulp_exp x)) as Hp.
  assert (Hs : IZR 0 <= x / bpow (ulp_exp x)).
  { apply Rmult_le_pos; [assumption|]. left. by apply Rinv_0_lt_compat. }
  apply rne_ge, IZR_le in Hs. apply Rmult_le_pos; lra.
Qed.

Lemma round64_nonpos (x : R) : x <= 0 -> round64 x <= 0.
Proof.
  intros Hx. destruct (decide (x = 0)) as [->|Hne]; [rewrite round64_0; lra|].
  rewrite round64_unfold by assumption.
  pose proof (bpow_pos (ulp_exp x)) as Hp.
  assert (Hs : x / bpow (ulp_exp x) <= IZR 0).
  { unfold Rdiv. pose proof (Rinv_0_lt_compat _ Hp). nra. }
  apply rne_le, IZR_le in Hs. nra.
Qed.

Lemma round64_le_opp_bpow (x : R) (k : Z) :
  (-1074 <= k)%Z -> x <= - bpow k -> round64 x <= - bpow k.
Proof.
  intros Hk Hx. pose proof (bpow_pos k) as Hpk.
  assert (Hne : x <> 0) by lra.
  rewrite round64_unfold by assumption.
  destruct (mag_spec x Hne) as [Mlo Mhi]. rewrite Rabs_left in Mlo, Mhi by lra.
  assert (Hmag : (k <= mag x)%Z).
  { assert (k < mag x + 1)%Z by (apply bpow_lt_inv; lra). lia. }
  pose proof (bpow_pos (ulp_exp x)) as Hp.
  assert (Hinv : 0 < / bpow (ulp_exp x)) by (by apply Rinv_0_lt_compat).
  destruct (Z_le_gt_dec (ulp_exp x) k) as [Hue|Hue].
  - assert (Hs : x / bpow (ulp_exp x) <= IZR (- 2 ^ (k - ulp_exp x))).
    { rewrite opp_IZR, <- bpow_IZR by lia.
      pose proof (div_ge_bpow (- x) k (ulp_exp x) ltac:(lra)). unfold Rdiv in *. lra. }
    apply rne_le in Hs. apply IZR_le in Hs. rewrite opp_IZR, <- bpow_IZR in Hs by lia.
    assert (E : bpow k = bpow (k - ulp_exp x) * bpow (ulp_exp x))
      by (rewrite <- bpow_add; f_equal; lia).
    rewrite E. nra.
  - assert (Eu : ulp_exp x = (mag x - 52)%Z) by (unfold ulp_exp in *; lia).
    assert (Hs : x / bpow (ulp_exp x) <= IZR (- 2 ^ 52)).
    { rewrite opp_IZR, <- bpow_IZR by lia.
      pose proof (div_ge_bpow (- x) (mag x) (ulp_exp x) ltac:(lra)) as Hd.
      replace (mag x - ulp_exp x)%Z with 52%Z in Hd by lia. unfold Rdiv in *. lra. }
    apply rne_le in Hs. apply IZR_le in Hs. rewrite opp_IZR, <- bpow_IZR in Hs by lia.
    assert (bpow k <= bpow (mag x)) by (by apply bpow_le).
    assert (E : bpow (mag x) = bpow 52 * bpow (ulp_exp x)).
    { rewrite <- bpow_add. f_equal. lia. }
    nra.
Qed.

(** Rounding to an integer multiple of the unit in the last place. *)
Lemma round64_nearest (x : R) (n e : Z) :
  (-1074 <= e)%Z -> bpow (e + 52) <= Rabs x < bpow (e + 53) ->
  Rabs (x / bpow e - IZR n) < / 2 ->
  round64 x = IZR n * bpow e.
Proof.
  intros He Hx Hn.
  assert (Hne : x <> 0).
  { intros ->. rewrite Rabs_R0 in Hx. pose proof (bpow_pos (e + 52)). lra. }
  assert (Hmag : mag x = (e + 52)%Z).
  { apply mag_unique. replace (e + 52 + 1)%Z with (e + 53)%Z by lia. exact Hx. }
  assert (Hue : ulp_exp x = e) by (unfold ulp_exp; lia).
  rewrite round64_unfold, Hue by assumption. by rewrite (rne_near _ n).
Qed.

End Round64.

Section Rnd.

Lemma bpow_10 : bpow 10 = 1024.
Proof. rewrite bpow_IZR by lia. reflexivity. Qed.

Lemma bpow_m53_small : bpow (-53) <= / 1000.
Proof.
  change (-53)%Z with (- (53))%Z. rewrite bpow_opp.
  pose proof (bpow_le 10 53 ltac:(lia)) as H. rewrite bpow_10 in H.
  apply Rinv_le_contravar; lra.
Qed.

Lemma bpow_m1075_small : bpow (-1075) <= / 1000.
Proof.
  eapply Rle_trans; [apply (bpow_le _ (-53)); lia|apply bpow_m53_small].
Qed.

(** One rounding moves a number by at most a thousandth of its size and a
    thousandth. *)
Lemma round64_close (x : R) : Rabs (round64 x - x) <= Rabs x / 1000 + / 1000.
Proof.
  eapply Rle_trans; [apply round64_error|].
  pose proof bpow_m53_small. pose proof bpow_m1075_small.
  pose proof (Rabs_pos x). pose proof (bpow_pos (-53)). nra.
Qed.

Lemma round64_close_pos (x : R) :
  0 <= x -> x * (999 / 1000) - / 1000 <= round64 x <= x * (1001 / 1000) + / 1000.
Proof.
  intros Hx. pose proof (round64_close x) as H. rewrite (Rabs_right x) in H by lra.
  apply Rabs_bounds in H. lra.
Qed.

Lemma round64_close_neg (x : R) :
  x <= 0 -> x * (1001 / 1000) - / 1000 <= round64 x <= x * (999 / 1000) + / 1000.
Proof.
  intros Hx. pose proof (round64_close x) as H. rewrite (Rabs_left1 x) in H by lra.
  apply Rabs_bounds in H. lra.
Qed.

Lemma rnd_finite (x : R) : Rabs x <= bpow 1023 -> rnd x = Num (round64 x).
Proof.
  intros Hx. unfold rnd.
  pose proof (round64_le_bpow x 1023 ltac:(lia) Hx).
  pose proof (bpow_lt 1023 1024 ltac:(lia)).
  destruct (decide (Rabs (round64 x) < bpow 1024)); [reflexivity|lra].
Qed.

Lemma representable_bound (m e : Z) :
  (Z.abs m < 2 ^ 53)%Z -> Rabs (IZR m * bpow e) <= bpow (e + 53).
Proof.
  intros Hm. pose proof (bpow_pos e).
  rewrite Rabs_mult, (Rabs_right (bpow e)) by lra.
  rewrite bpow_add, Rmult_comm, (bpow_IZR 53) by lia.
  apply Rmult_le_compat_l; [lra|]. rewrite <- abs_IZR. apply IZR_le. lia.
Qed.

(** A double below the overflow threshold is the result of an operation
    whose exact result it is. *)
Lemma rnd_exact (m e : Z) (x : R) :
  x = IZR m * bpow e -> (Z.abs m < 2 ^ 53)%Z -> (-1074 <= e <= 970)%Z -> rnd x = Num x.
Proof.
  intros -> Hm [He1 He2]. rewrite rnd_finite.
  - by rewrite round64_exact.
  - eapply Rle_trans; [by apply representable_bound|]. apply bpow_le. lia.
Qed.

Lemma rnd_representable (x : R) :
  representable x -> Rabs x <= bpow 1023 -> rnd x = Num x.
Proof. intros Hr Hx. rewrite rnd_finite by assumption. by rewrite round64_id. Qed.

Lemma rnd_overflow_pos (x : R) : bpow 1024 <= x -> rnd x = Inf false.
Proof.
  intros Hx. unfold rnd. pose proof (bpow_pos 1024).
  pose proof (round64_ge_bpow x 1024 ltac:(lia) Hx).
  destruct (decide (Rabs (round64 x) < bpow 1024)) as [Hlt|_].
  - rewrite Rabs_right in Hlt by lra. lra.
  - rewrite bool_decide_eq_false_2 by lra. reflexivity.
Qed.

Lemma rnd_overflow_neg (x : R) : x <= - bpow 1024 -> rnd x = Inf true.
Proof.
  intros Hx. unfold rnd. pose proof (bpow_pos 1024).
  pose proof (round64_le_opp_bpow x 1024 ltac:(lia) Hx).
  destruct (decide (Rabs (round64 x) < bpow 1024)) as [Hlt|_].
  - rewrite Rabs_left in Hlt by lra. lra.
  - rewrite bool_decide_eq_true_2 by lra. reflexivity.
Qed.

(** An operation on finite floats returns a finite float or an infinity,
    never NaN. *)
Lemma rnd_cases (x : R) : rnd x = Num (round64 x) \/ exists s, rnd x = Inf s.
Proof. unfold rnd. destruct (decide _); [left|right; eexists]; reflexivity. Qed.

Lemma representable_Rmax (a b : R) :
  representable a -> representable b -> representable (Rmax a b).
Proof. intros Ha Hb. unfold Rmax. by destruct (Rle_dec a b). Qed.

Lemma representable_2_5 : representable 2.5.
Proof.
  exists 5%Z, (-1)%Z. split; [|split; [reflexivity|lia]].
  change (-1)%Z with (- (1))%Z. rewrite bpow_opp, bpow_1. lra.
Qed.

End Rnd.

(** ** Float operations on finite numbers *)

Section FloatOps.

Lemma clamp_num (d : R) : clamp (Num d) = Num (Rmax d 2.5).
Proof.
  unfold clamp, flt, Rmax.
  destruct (Rle_dec d 2.5); case_bool_decide; try reflexivity; try lra.
  f_equal. lra.
Qed.

Lemma clamp_cases (d : float) :
  d <> NaN -> (exists x, clamp d = Num x /\ 2.5 <= x) \/ clamp d = Inf false.
Proof.
  intros Hd. destruct d as [x|[]|]; [| | |contradiction].
  - left. rewrite clamp_num. eexists. split; [reflexivity|apply Rmax_r].
  - left. exists 2.5. split; [reflexivity|lra].
  - right. reflexivity.
Qed.

Lemma fdiv_num (x y : R) : y <> 0 -> fdiv (Num x) (Num y) = Ok (rnd (x / y)).
Proof. intros Hy. unfold fdiv. destruct (decide (y = 0)); [contradiction|reflexivity]. Qed.

Lemma fdiv_zero (a : float) :
  fdiv a (Num 0) = Raise (ZeroDivisionError "float division by zero").
Proof. unfold fdiv. destruct (decide (0 = 0)); [reflexivity|contradiction]. Qed.

(** An extent is a finite number, at least 2.5, or plus infinity. *)
Lemma extent_cases (lo hi k : R) :
  k <> 0 ->
  (exists x, clamp (fmul (fsub (Num hi) (Num lo)) (Num k)) = Num x /\ 2.5 <= x) \/
  clamp (fmul (fsub (Num hi) (Num lo)) (Num k)) = Inf false.
Proof.
  intros Hk. apply clamp_cases. unfold fsub.
  destruct (rnd_cases (hi - lo)) as [->|[s ->]]; unfold fmul.
  - destruct (rnd_cases (round64 (hi - lo) * k)) as [->|[s ->]]; discriminate.
  - destruct (decide (k = 0)); [contradiction|discriminate].
Qed.

(** Its quotient by a non-zero cell size is a finite number or an
    infinity. *)
Lemma quotient_cases (d : float) (cell : R) :
  cell <> 0 -> ((exists x, d = Num x) \/ d = Inf false) ->
  (exists q, fdiv d (Num cell) = Ok (Num q)) \/ (exists s, fdiv d (Num cell) = Ok (Inf s)).
Proof.
  intros Hc [[x ->]| ->].
  - rewrite fdiv_num by assumption.
    destruct (rnd_cases (x / cell)) as [->|[s ->]]; [left|right]; eexists; reflexivity.
  - right. unfold fdiv. destruct (decide (cell = 0)); [contradiction|]. eexists. reflexivity.
Qed.

Lemma extent_quotient_cases (lo hi k cell : R) :
  k <> 0 -> cell <> 0 ->
  (exists q, fdiv (clamp (fmul (fsub (Num hi) (Num lo)) (Num k))) (Num cell) = Ok (Num q)) \/
  (exists s, fdiv (clamp (fmul (fsub (Num hi) (Num lo)) (Num k))) (Num cell) = Ok (Inf s)).
Proof.
  intros Hk Hc. apply quotient_cases; [assumption|].
  destruct (extent_cases lo hi k Hk) as [(x & -> & _)| ->]; [left; by eexists|by right].
Qed.

Lemma float32_range_sub (lo hi : R) :
  float32_range lo -> float32_range hi -> Rabs (hi - lo) <= bpow 129.
Proof.
  unfold float32_range. intros Hlo Hhi.
  replace 129%Z with (1 + 128)%Z by lia. rewrite bpow_add, bpow_1.
  apply Rabs_bounds in Hlo, Hhi. apply Rabs_le. lra.
Qed.

Lemma bpow_4 : bpow 4 = 16.
Proof. rewrite bpow_IZR by lia. reflexivity. Qed.

(** Within the single-precision range nothing overflows: the length of
    the box along an axis, and its product with a factor up to 16. *)
Lemma length_in_range (lo hi : R) :
  float32_range lo -> float32_range hi ->
  fsub (Num hi) (Num lo) = Num (round64 (hi - lo)) /\
  Rabs (round64 (hi - lo)) <= bpow 129.
Proof.
  intros Hlo Hhi. pose proof (float32_range_sub lo hi Hlo Hhi) as HL. split.
  - unfold fsub. apply rnd_finite. eapply Rle_trans; [exact HL|apply bpow_le; lia].
  - apply round64_le_bpow; [lia|exact HL].
Qed.

Lemma scaled_in_range (lo hi k : R) :
  float32_range lo -> float32_range hi -> Rabs k <= 16 ->
  fmul (fsub (Num hi) (Num lo)) (Num k) = Num (round64 (round64 (hi - lo) * k)) /\
  Rabs (round64 (round64 (hi - lo) * k)) <= bpow 133.
Proof.
  intros Hlo Hhi Hk. destruct (length_in_range lo hi Hlo Hhi) as [-> HL].
  assert (HA : Rabs (round64 (hi - lo) * k) <= bpow 133).
  { replace 133%Z with (129 + 4)%Z by lia. rewrite bpow_add, bpow_4, Rabs_mult.
    pose proof (Rabs_pos (round64 (hi - lo))). pose proof (Rabs_pos k). nra. }
  split.
  - unfold fmul. apply rnd_finite. eapply Rle_trans; [exact HA|apply bpow_le; lia].
  - apply round64_le_bpow; [lia|exact HA].
Qed.

Lemma extent_in_range (lo hi k : R) :
  float32_range lo -> float32_range hi -> Rabs k <= 16 ->
  clamp (fmul (fsub (Num hi) (Num lo)) (Num k)) =
    Num (Rmax (round64 (round64 (hi - lo) * k)) 2.5) /\
  0 < Rmax (round64 (round64 (hi - lo) * k)) 2.5 <= bpow 133.
Proof.
  intros Hlo Hhi Hk. destruct (scaled_in_range lo hi k Hlo Hhi Hk) as [-> HA].
  split; [apply clamp_num|]. split.
  - pose proof (Rmax_r (round64 (round64 (hi - lo) * k)) 2.5). lra.
  - apply Rabs_bounds in HA. apply Rmax_lub; [lra|].
    eapply Rle_trans; [|apply (bpow_le 4); lia]. rewrite bpow_4. lra.
Qed.

Lemma quotient_in_range (d cell : R) :
  Rabs d <= bpow 133 -> bpow (-126) <= Rabs cell ->
  fdiv (Num d) (Num cell) = Ok (Num (round64 (d / cell))).
Proof.
  intros Hd Hc. pose proof (bpow_pos (-126)).
  assert (Hne : cell <> 0) by (intros ->; rewrite Rabs_R0 in Hc; lra).
  rewrite fdiv_num by assumption. f_equal. apply rnd_finite.
  unfold Rdiv. rewrite Rabs_mult, Rabs_inv.
  apply Rle_trans with (bpow 133 * bpow 126); [|rewrite <- bpow_add; apply bpow_le; lia].
  assert (Hi : / Rabs cell <= bpow 126).
  { change 126%Z with (- (-126))%Z. rewrite bpow_opp. apply Rinv_le_contravar; assumption. }
  assert (0 < / Rabs cell) by (apply Rinv_0_lt_compat; lra).
  pose proof (Rabs_pos d). pose proof (bpow_pos 133). nra.
Qed.

End FloatOps.

(** ** blockMeshDomain *)

Section BlockMesh.

(** The first loop: the three coordinate lists of the template. *)
Lemma template_rows (vs : list Value) (tmpl : list Point) :
  Forall2 vec_of vs tmpl ->
  exists rows,
    mapM_result (fun i => a <-- index i 0 ;; b <-- index i 1 ;; c <-- index i 2 ;;
                          Ok (a, b, c)) vs = Ok rows /\
    np_array (map (fun r => fst (fst r)) rows) = Ok (map (fun p => Num (px p)) tmpl) /\
    np_array (map (fun r => snd (fst r)) rows) = Ok (map (fun p => Num (py p)) tmpl) /\
    np_array (map (fun r => snd r) rows) = Ok (map (fun p => Num (pz p)) tmpl).
Proof.
  induction 1 as [|v p vs tmpl (a & b & c & -> & Ha & Hb & Hc) _ (rows & Hr & Hx & Hy & Hz)].
  - exists []. repeat split; reflexivity.
  - exists ((a, b, c) :: rows). cbn [mapM_result index list_index lookup list_lookup rbind].
    rewrite Hr. cbn [rbind]. unfold np_array in *.
    cbn [map fst snd mapM_result]. rewrite Ha, Hb, Hc, Hx, Hy, Hz. cbn [rbind]. tauto.
Qed.

(** The last loop pairs the three coordinate lists index by index. *)
Lemma format_verts_from (fx fy fz : Point -> float) (todo done : list Point) :
  format_verts (length done) (map fx todo)
               (map fx (done ++ todo)) (map fy (done ++ todo)) (map fz (done ++ todo)) =
  Ok (map (fun p => VFmt3 (fx p) (fy p) (fz p)) todo).
Proof.
  revert done; induction todo as [|p todo IH]; intros done; [reflexivity|].
  cbn [map format_verts]. unfold list_index.
  rewrite !list_lookup_fmap, !list_lookup_middle by reflexivity. cbn [fmap option_fmap option_map rbind].
  replace (done ++ p :: todo) with ((done ++ [p]) ++ todo)
    by (rewrite <- app_assoc; reflexivity).
  replace (Datatypes.S (length done)) with (length (done ++ [p]))
    by (rewrite length_app; simpl; lia).
  rewrite IH. reflexivity.
Qed.

Lemma format_verts_all (fx fy fz : Point -> float) (tmpl : list Point) :
  format_verts 0 (map fx tmpl) (map fx tmpl) (map fy tmpl) (map fz tmpl) =
  Ok (map (fun p => VFmt3 (fx p) (fy p) (fz p)) tmpl).
Proof. exact (format_verts_from fx fy fz tmpl []). Qed.

(** Reading slot 2 of [blocks] after the two assignments. *)
Lemma blocks_slot_read (g : gmap string Value) (bl : list Value) (v w : Value) :
  (2 < length bl)%nat ->
  (x <-- item (VDict (<["vertices" := w]> (<["blocks" := VList (<[2%nat := v]> bl)]> g)))
              "blocks" ;; index x 2) = Ok v.
Proof.
  intros Hl. cbn [item]. rewrite lookup_insert_ne by discriminate.
  rewrite lookup_insert_eq. cbn [rbind index]. unfold list_index.
  rewrite list_lookup_insert_eq by assumption. reflexivity.
Qed.

End BlockMesh.

Section BlockMeshRun.

Variables (solid : solidSTL) (cell : R) (snappy : Value).
Variables (g : gmap string Value) (vs : list Value) (tmpl : list Point).

Hypothesis Hvertices : g !! "vertices" = Some (VList vs).
Hypothesis Htemplate : Forall2 vec_of vs tmpl.

(** The part of [blockMeshDomain] before the first assignment: when the
    three quotients are finite, their ceilings are about to be stored. *)
Lemma blockMeshDomain_prefix (qx qy qz : R) :
  let b := bb solid in
  fdiv (clamp (fmul (fsub (Num (xmax b)) (Num (xmin b))) (Num 12))) (Num cell) = Ok (Num qx) ->
  fdiv (clamp (fmul (fsub (Num (ymax b)) (Num (ymin b))) (Num 4))) (Num cell) = Ok (Num qy) ->
  fdiv (clamp (fmul (fsub (Num (zmax b)) (Num (zmin b))) (Num 4))) (Num cell) = Ok (Num qz) ->
  exists k : unit -> M mesher unit,
    blockMeshDomain (mkMesher solid cell (VDict g) snappy) =
    bind (in_blockMeshDict
            (at_key "blocks" (setidx 2 (VList [VInt (Zceil qx); VInt (Zceil qy);
                                               VInt (Zceil qz)]))))
         k (mkMesher solid cell (VDict g) snappy).
Proof.
  intros b Hx Hy Hz. set (self := mkMesher solid cell (VDict g) snappy).
  destruct (template_rows vs tmpl Htemplate) as (rows & Hrows & _).
  unfold blockMeshDomain.
  rewrite (bind_ok _ _ self self self) by reflexivity.
  rewrite (bind_ok _ _ self self vs).
  2:{ unfold in_blockMeshDict, zoom, peek, self. cbn. rewrite Hvertices. reflexivity. }
  rewrite (bind_ok _ _ self self rows) by (unfold lift; rewrite Hrows; reflexivity).
  cbn zeta. change (stlSolid self) with solid. change (baseCellSize self) with cell.
  fold b. unfold clamp in Hx, Hy, Hz.
  rewrite (bind_ok _ _ self self (Num qx)) by (unfold lift; rewrite Hx; reflexivity).
  rewrite (bind_ok _ _ self self (Zceil qx)) by reflexivity.
  rewrite (bind_ok _ _ self self (Num qy)) by (unfold lift; rewrite Hy; reflexivity).
  rewrite (bind_ok _ _ self self (Zceil qy)) by reflexivity.
  rewrite (bind_ok _ _ self self (Num qz)) by (unfold lift; rewrite Hz; reflexivity).
  rewrite (bind_ok _ _ self self (Zceil qz)) by reflexivity.
  eexists. reflexivity.
Qed.

(** With finite quotients and a slot 2 in [blocks] the call returns, and
    the dictionary holds the block counts and the scaled and shifted
    vertices. *)
Lemma blockMeshDomain_run (bl : list Value) (qx qy qz : R) :
  g !! "blocks" = Some (VList bl) ->
  (2 < length bl)%nat ->
  let b := bb solid in
  let Lx := fsub (Num (xmax b)) (Num (xmin b)) in
  let dx := clamp (fmul Lx (Num 12)) in
  let dy := clamp (fmul (fsub (Num (ymax b)) (Num (ymin b))) (Num 4)) in
  let dz := clamp (fmul (fsub (Num (zmax b)) (Num (zmin b))) (Num 4)) in
  fdiv dx (Num cell) = Ok (Num qx) ->
  fdiv dy (Num cell) = Ok (Num qy) ->
  fdiv dz (Num cell) = Ok (Num qz) ->
  blockMeshDomain (mkMesher solid cell (VDict g) snappy) =
  (Ok tt,
   mkMesher solid cell
     (VDict (<["vertices" :=
                 VList (map (fun p => VFmt3 (fadd (fmul (Num (px p)) dx) (fmul Lx (Num 6)))
                                            (fmul (Num (py p)) dy)
                                            (fmul (Num (pz p)) dz)) tmpl)]>
               (<["blocks" :=
                    VList (<[2%nat := VList [VInt (Zceil qx); VInt (Zceil qy);
                                             VInt (Zceil qz)]]> bl)]> g)))
     snappy).
Proof.
  intros Hblocks Hslot b Lx dx dy dz Hx Hy Hz.
  set (self := mkMesher solid cell (VDict g) snappy).
  destruct (template_rows vs tmpl Htemplate) as (rows & Hrows & Ex & Ey & Ez).
  unfold blockMeshDomain.
  rewrite (bind_ok _ _ self self self) by reflexivity.
  rewrite (bind_ok _ _ self self vs).
  2:{ unfold in_blockMeshDict, zoom, peek, self. cbn. rewrite Hvertices. reflexivity. }
  rewrite (bind_ok _ _ self self rows) by (unfold lift; rewrite Hrows; reflexivity).
  cbn zeta. change (stlSolid self) with solid. change (baseCellSize self) with cell.
  fold b. fold Lx.
  change (if flt (fmul Lx (Num 12)) (Num 2.5) then Num 2.5 else fmul Lx (Num 12)) with dx.
  change (if flt (fmul (fsub (Num (ymax b)) (Num (ymin b))) (Num 4)) (Num 2.5)
          then Num 2.5 else fmul (fsub (Num (ymax b)) (Num (ymin b))) (Num 4)) with dy.
  change (if flt (fmul (fsub (Num (zmax b)) (Num (zmin b))) (Num 4)) (Num 2.5)
          then Num 2.5 else fmul (fsub (Num (zmax b)) (Num (zmin b))) (Num 4)) with dz.
  rewrite (bind_ok _ _ self self (Num qx)) by (unfold lift; rewrite Hx; reflexivity).
  rewrite (bind_ok _ _ self self (Zceil qx)) by reflexivity.
  rewrite (bind_ok _ _ self self (Num qy)) by (unfold lift; rewrite Hy; reflexivity).
  rewrite (bind_ok _ _ self self (Zceil qy)) by reflexivity.
  rewrite (bind_ok _ _ self self (Num qz)) by (unfold lift; rewrite Hz; reflexivity).
  rewrite (bind_ok _ _ self self (Zceil qz)) by reflexivity.
  erewrite bind_ok.
  2:{ unfold in_blockMeshDict, zoom, at_key, setidx, self. cbn.
      rewrite Hblocks. destruct (decide (2 < length bl)%nat); [|contradiction].
      reflexivity. }
  rewrite (bind_ok _ _ _ _ (map (fun p => Num (px p)) tmpl))
    by (unfold lift; rewrite Ex; reflexivity).
  rewrite (bind_ok _ _ _ _ (map (fun p => Num (py p)) tmpl))
    by (unfold lift; rewrite Ey; reflexivity).
  rewrite (bind_ok _ _ _ _ (map (fun p => Num (pz p)) tmpl))
    by (unfold lift; rewrite Ez; reflexivity).
  rewrite !map_map.
  erewrite bind_ok
    by (unfold lift; rewrite format_verts_all; reflexivity).
  reflexivity.
Qed.

(** With cell size zero the first division raises, before anything is
    stored. *)
Lemma blockMeshDomain_zero :
  cell = 0 ->
  blockMeshDomain (mkMesher solid cell (VDict g) snappy) =
  (Raise (ZeroDivisionError "float division by zero"),
   mkMesher solid cell (VDict g) snappy).
Proof.
  intros ->. set (self := mkMesher solid 0 (VDict g) snappy).
  destruct (template_rows vs tmpl Htemplate) as (rows & Hrows & _).
  unfold blockMeshDomain.
  rewrite (bind_ok _ _ self self self) by reflexivity.
  rewrite (bind_ok _ _ self self vs).
  2:{ unfold in_blockMeshDict, zoom, peek, self. cbn. rewrite Hvertices. reflexivity. }
  rewrite (bind_ok _ _ self self rows) by (unfold lift; rewrite Hrows; reflexivity).
  cbn zeta. change (baseCellSize self) with 0.
  erewrite bind_raise by (unfold lift; rewrite fdiv_zero; reflexivity).
  reflexivity.
Qed.

(** With a non-zero cell size, an infinite quotient makes [math.ceil]
    raise, before anything is stored. *)
Lemma blockMeshDomain_overflow :
  cell <> 0 ->
  let b := bb solid in
  ((exists s, fdiv (clamp (fmul (fsub (Num (xmax b)) (Num (xmin b))) (Num 12))) (Num cell)
              = Ok (Inf s)) \/
   (exists s, fdiv (clamp (fmul (fsub (Num (ymax b)) (Num (ymin b))) (Num 4))) (Num cell)
              = Ok (Inf s)) \/
   (exists s, fdiv (clamp (fmul (fsub (Num (zmax b)) (Num (zmin b))) (Num 4))) (Num cell)
              = Ok (Inf s))) ->
  blockMeshDomain (mkMesher solid cell (VDict g) snappy) =
  (Raise (OverflowError "cannot convert float infinity to integer"),
   mkMesher solid cell (VDict g) snappy).
Proof.
  intros Hc b Hinf. set (self := mkMesher solid cell (VDict g) snappy).
  destruct (template_rows vs tmpl Htemplate) as (rows & Hrows & _).
  unfold blockMeshDomain.
  rewrite (bind_ok _ _ self self self) by reflexivity.
  rewrite (bind_ok _ _ self self vs).
  2:{ unfold in_blockMeshDict, zoom, peek, self. cbn. rewrite Hvertices. reflexivity. }
  rewrite (bind_ok _ _ self self rows) by (unfold lift; rewrite Hrows; reflexivity).
  cbn zeta. change (stlSolid self) with solid. change (baseCellSize self) with cell.
  fold b. unfold clamp in Hinf.
  destruct (extent_quotient_cases (xmin b) (xmax b) 12 cell ltac:(lra) Hc)
    as [[qx Hx]|[s Hx]]; unfold clamp in Hx.
  2:{ rewrite (bind_ok _ _ self self (Inf s)) by (unfold lift; rewrite Hx; reflexivity).
      erewrite bind_raise by reflexivity. reflexivity. }
  rewrite (bind_ok _ _ self self (Num qx)) by (unfold lift; rewrite Hx; reflexivity).
  rewrite (bind_ok _ _ self self (Zceil qx)) by reflexivity.
  destruct (extent_quotient_cases (ymin b) (ymax b) 4 cell ltac:(lra) Hc)
    as [[qy Hy]|[s Hy]]; unfold clamp in Hy.
  2:{ rewrite (bind_ok _ _ self self (Inf s)) by (unfold lift; rewrite Hy; reflexivity).
      erewrite bind_raise by reflexivity. reflexivity. }
  rewrite (bind_ok _ _ self self (Num qy)) by (unfold lift; rewrite Hy; reflexivity).
  rewrite (bind_ok _ _ self self (Zceil qy)) by reflexivity.
  destruct (extent_quotient_cases (zmin b) (zmax b) 4 cell ltac:(lra) Hc)
    as [[qz Hz]|[s Hz]]; unfold clamp in Hz.
  2:{ rewrite (bind_ok _ _ self self (Inf s)) by (unfold lift; rewrite Hz; reflexivity).
      erewrite bind_raise by reflexivity. reflexivity. }
  exfalso. destruct Hinf as [[s H]|[[s H]|[s H]]]; congruence.
Qed.

End BlockMeshRun.

(** ** snappyHexMesh *)

Section DictSteps.

Lemma setitem_run (k : string) (x : Value) (g : gmap string Value) :
  setitem k x (VDict g) = (Ok tt, VDict (<[k := x]> g)).
Proof. reflexivity. Qed.

Lemma at_key_run {A} (k : string) (c : M Value A) (g : gmap string Value)
      (v v' : Value) (r : result A) :
  g !! k = Some v -> c v = (r, v') ->
  at_key k c (VDict g) = (r, VDict (<[k := v']> g)).
Proof. intros Hk Hc. unfold at_key. rewrite Hk, Hc. reflexivity. Qed.

Lemma at_key_run_top {A} (k : string) (c : M Value A) (g : gmap string Value)
      (v v' : Value) (r : result A) :
  c v = (r, v') ->
  at_key k c (VDict (<[k := v]> g)) = (r, VDict (<[k := v']> g)).
Proof.
  intros Hc. rewrite (at_key_run k c _ v v' r); [|apply lookup_insert_eq|assumption].
  rewrite insert_insert_eq. reflexivity.
Qed.

Lemma at_key_run_second {A} (k k' : string) (c : M Value A) (g : gmap string Value)
      (v v' w : Value) (r : result A) :
  k' <> k -> c v = (r, v') ->
  at_key k c (VDict (<[k' := w]> (<[k := v]> g))) =
  (r, VDict (<[k' := w]> (<[k := v']> g))).
Proof.
  intros Hne Hc. rewrite (at_key_run k c _ v v' r); [| |assumption].
  - rewrite (insert_insert_ne _ k k') by congruence.
    rewrite insert_insert_eq. reflexivity.
  - rewrite lookup_insert_ne by assumption. apply lookup_insert_eq.
Qed.

Lemma setidx_run (i : nat) (x : Value) (l : list Value) :
  (i < length l)%nat -> setidx i x (VList l) = (Ok tt, VList (<[i := x]> l)).
Proof.
  intros Hi. unfold setidx. destruct (decide (i < length l)%nat); [reflexivity|contradiction].
Qed.

Lemma zoom_run {S T A} (proj : S -> T) (upd : T -> S -> S) (c : M T A)
      (s : S) (r : result A) (t' : T) :
  c (proj s) = (r, t') -> zoom proj upd c s = (r, upd t' s).
Proof. unfold zoom. intros ->. reflexivity. Qed.

Lemma peek_run {A} (f : Value -> result A) (v : Value) : peek f v = (f v, v).
Proof. reflexivity. Qed.

End DictSteps.

(** One step on a dictionary: find the entry through the inserts made so
    far, run the nested step, put the result back. *)
Ltac dict_step :=
  lazymatch goal with
  | |- setitem _ _ (VDict _) = _ => apply setitem_run
  | |- setidx _ _ (VList _) = _ => apply setidx_run; rewrite ?length_insert; assumption
  | |- peek _ _ = _ =>
      rewrite peek_run; unfold item;
      repeat first [ rewrite lookup_insert_eq
                   | rewrite lookup_insert_ne; [|discriminate] ];
      reflexivity
  | |- at_key ?k _ (VDict (<[?k := _]> _)) = _ => eapply at_key_run_top; dict_step
  | |- at_key ?k _ (VDict (<[_ := _]> (<[?k := _]> _))) = _ =>
      eapply at_key_run_second; [discriminate | dict_step]
  | |- at_key _ _ (VDict _) = _ =>
      eapply at_key_run;
      [ repeat (rewrite lookup_insert_ne; [|discriminate]); eassumption
      | dict_step ]
  end.

Ltac mesher_step :=
  unfold dwBox_min, dwBox, wt1Box, wt2Box, refinementRegions, castellatedMeshControls,
         geometry, in_snappyHexMeshDict;
  eapply zoom_run;
  cbn [snappyHexMeshDict set_snappyHexMeshDict stlSolid baseCellSize blockMeshDict];
  dict_step.

Section SnappyRun.

Variables (solid : solidSTL) (cell : R) (bmd : Value).
Variables (d geo cmc rr : gmap string Value) (loc : list Value).

Hypothesis Hgeo : d !! "geometry" = Some (VDict geo).
Hypothesis Hcmc : d !! "castellatedMeshControls" = Some (VDict cmc).
Hypothesis Hrr : cmc !! "refinementRegions" = Some (VDict rr).
Hypothesis Hloc : cmc !! "locationInMesh" = Some (VList loc).
Hypothesis Hlen : (2 < length loc)%nat.

Lemma snappyHexMesh_run :
  let b := bb solid in
  let box :=
    VDict (<["max" := VList [VNum (2.5 * xmax b + 4 * (xmax b - xmin b));
                             VNum (2.5 * ymax b); VNum (2.5 * zmax b)]]>
          (<["min" := VList [VNum (2.5 * xmin b); VNum (2.5 * ymin b);
                             VNum (2.5 * zmin b)]]>
          (<["type" := VStr "searchableBox"]> ∅))) in
  let cylinder (p : Point) :=
    VDict (<["radius" := VNum 0.2]>
          (<["point2" := downwind6 p]>
          (<["point1" := tolist p]>
          (<["type" := VStr "searchableCylinder"]> ∅)))) in
  let region (fine : Z) :=
    VDict (<["levels" := VList [VList [VInt 1; VInt fine]]]>
          (<["mode" := VStr "inside"]> ∅)) in
  snappyHexMesh (mkMesher solid cell bmd (VDict d)) =
  (Ok tt,
   mkMesher solid cell bmd
     (VDict
        (<["castellatedMeshControls" :=
             VDict (<["locationInMesh" :=
                        VList (<[2%nat := VNum (2.5 * zmin b)]>
                              (<[1%nat := VNum (2.5 * ymin b)]>
                              (<[0%nat := VNum (2.5 * xmin b)]> loc)))]>
                   (<["refinementRegions" :=
                        VDict (<["wingtip2" := region 5%Z]>
                              (<["wingtip1" := region 5%Z]>
                              (<["downwindbox" := region 4%Z]> rr)))]> cmc))]>
        (<["geometry" :=
             VDict (<["wingtip2" := cylinder (ymaxPoint solid)]>
                   (<["wingtip1" := cylinder (yminPoint solid)]>
                   (<["downwindbox" := box]> geo)))]> d)))).
Proof.
  assert (H0 : (0 < length loc)%nat) by lia.
  assert (H1 : (1 < length loc)%nat) by lia.
  intros b box cylinder region. unfold snappyHexMesh.
  rewrite (bind_ok get _ _ _ _ eq_refl). cbn zeta.
  repeat (erewrite bind_ok by mesher_step;
          unfold set_snappyHexMeshDict;
          cbn [stlSolid baseCellSize blockMeshDict snappyHexMeshDict]).
  etransitivity; [mesher_step|]. reflexivity.
Qed.

End SnappyRun.

(** ** Evaluation on the one-facet solid *)

Lemma boundingBox_facet_5 (s : solidSTL) :
  mesh s = [facet_5] -> boundingBox s = (Ok tt, solid_5).
Proof.
  intros Hm. unfold boundingBox.
  rewrite (bind_ok get _ s s s eq_refl). rewrite Hm.
  unfold axis, facet_5; cbn [map concat vertices v0 v1 v2 px py pz app amin amax foldl].
  Rminmax.
  unfold lift, bind, modify, extreme_point, np_where_eq.
  cbn [where_from]. unfold where_triangle, where_point.
  cbn [px py pz v0 v1 v2]. decide_R.
  destruct s as [m b0 p q]; simpl in Hm; subst m. reflexivity.
Qed.

Lemma add_offset_0 (v : Point) : add_offset 0 0 0 v = v.
Proof. destruct v. unfold add_offset; simpl. apply point_eq; ring. Qed.

Lemma translate_0_facet_5 (s : solidSTL) :
  mesh s = [facet_5] -> translate 0 0 0 s = (Ok tt, solid_5).
Proof.
  intros Hm. unfold translate.
  rewrite (bind_ok get _ s s s eq_refl).
  erewrite bind_ok by reflexivity.
  apply boundingBox_facet_5. simpl.
  rewrite map_vertices_id by apply add_offset_0. exact Hm.
Qed.

Lemma centerGeometry_facet_5 (s : solidSTL) :
  mesh s = [facet_5] -> centerGeometry s = (Ok tt, solid_5).
Proof.
  intros Hm. unfold centerGeometry.
  rewrite (bind_ok _ _ _ _ _ (boundingBox_facet_5 s Hm)).
  rewrite (bind_ok get _ _ _ _ eq_refl). cbn [bb solid_5 xmin xmax ymin ymax zmin zmax].
  replace (-1 * ((5 - -5) / 2 + -5)) with 0 by lra.
  replace (-1 * ((0 - 0) / 2 + 0)) with 0 by lra.
  apply translate_0_facet_5. reflexivity.
Qed.

Lemma init_facet_5 (fp : string) : __init__ fp (Facets [facet_5]) = Ok solid_5.
Proof.
  unfold __init__.
  rewrite (bind_ok _ _ _ _ _ (boundingBox_facet_5 (blank [facet_5]) eq_refl)).
  rewrite centerGeometry_facet_5 by reflexivity. reflexivity.
Qed.

(** * The claims *)

(** ** Triangulated solid *)

(** C1 (evaluation of the code at the failing input).  A surface file
    with the single facet (5,0,0), (-5,5,0), (0,-5,0) is loaded and then
    centred and translated by zero.  After each of these calls the
    bounding box has ymax = 5 and ymin = -5, but the stored [ymaxPoint] is
    (5,0,0) and the stored [yminPoint] is (-5,5,0): [np.where] compares
    ymax and ymin with all nine entries of a facet, and here an x
    coordinate matches first in scan order.  So the y coordinate of the
    stored point (0, resp. 5) differs from the bound (5, resp. -5). *)
Theorem extremal_point_x_match (fp : string) :
  __init__ fp (Facets [facet_5]) = Ok solid_5 /\
  centerGeometry solid_5 = (Ok tt, solid_5) /\
  translate 0 0 0 solid_5 = (Ok tt, solid_5) /\
  np_where_eq (mesh solid_5) (ymax (bb solid_5)) = [(0, 0, 0); (0, 1, 1)]%nat /\
  ymaxPoint solid_5 = mkPoint 5 0 0 /\
  py (ymaxPoint solid_5) <> ymax (bb solid_5) /\
  yminPoint solid_5 = mkPoint (-5) 5 0 /\
  py (yminPoint solid_5) <> ymin (bb solid_5).
Proof.
  split; [apply init_facet_5|].
  split; [apply centerGeometry_facet_5; reflexivity|].
  split; [apply translate_0_facet_5; reflexivity|].
  split.
  { unfold np_where_eq, solid_5, facet_5. cbn [mesh bb ymax where_from].
    unfold where_triangle, where_point. cbn [px py pz v0 v1 v2].
    decide_R. reflexivity. }
  simpl. repeat split; try reflexivity; lra.
Qed.

(** C2 (counterexample).  For yaw = roll = pi/2 and pitch = 0 the matrix
    of [euler2mat] is not Rz * Ry * Rx, and the rotated vertices are not
    Rz (Ry (Rx v)): the vertex (1,0,0) goes to (0,0,1), not to (0,1,0). *)
Lemma rotate_order_counterexample :
  let s := mkSolid [mkTriangle (mkPoint 1 0 0) (mkPoint 0 1 0) (mkPoint 0 0 1)]
                   (mkBB 0 1 0 1 0 1) (mkPoint 0 1 0) (mkPoint 1 0 0) in
  euler2mat (PI / 2) 0 (PI / 2) <>
    dot (rot_z (PI / 2)) (dot (rot_y 0) (rot_x (PI / 2))) /\
  mesh (snd (rotate (PI / 2) 0 (PI / 2) "radians" s)) <>
    map_vertices (fun v => mat_vec (rot_z (PI / 2))
                             (mat_vec (rot_y 0) (mat_vec (rot_x (PI / 2)) v)))
                 (mesh s).
Proof.
  cbn zeta. split.
  - rewrite euler2mat_product. intros H. apply (f_equal m01) in H.
    unfold dot, rot_x, rot_y, rot_z in H. cbn in H.
    rewrite cos_PI2, sin_PI2, cos_0, sin_0 in H. lra.
  - rewrite rotate_radians_mesh, euler2mat_product. cbn [mesh map_vertices map v0].
    intros H. apply (f_equal (fun m => match m with t :: _ => py (v0 t) | [] => 0 end)) in H.
    rewrite !mat_vec_dot in H.
    unfold mat_vec, rot_x, rot_y, rot_z in H. cbn in H.
    rewrite cos_PI2, sin_PI2, cos_0, sin_0 in H. lra.
Qed.

(** C2 (amended).  For all angles z, y, x, [euler2mat] returns the product
    Rx * Ry * Rz (the matrices are collected in the order z, y, x and
    multiplied in the reverse order), and [rotate] replaces every vertex v
    by Rx (Ry (Rz v)): yaw is applied first to the vertex, then pitch, then
    roll.  With units "degrees" the same holds for the angles converted to
    radians. *)
Theorem rotate_yaw_pitch_roll (z y x : R) (s : solidSTL) :
  euler2mat z y x = dot (dot (rot_x x) (rot_y y)) (rot_z z) /\
  mesh (snd (rotate z y x "radians" s)) =
    map_vertices (fun v => mat_vec (rot_x x) (mat_vec (rot_y y) (mat_vec (rot_z z) v)))
                 (mesh s) /\
  mesh (snd (rotate z y x "degrees" s)) =
    map_vertices (fun v => mat_vec (rot_x (radians x))
                             (mat_vec (rot_y (radians y)) (mat_vec (rot_z (radians z)) v)))
                 (mesh s).
Proof.
  split; [apply euler2mat_product|]. split.
  - rewrite rotate_radians_mesh, euler2mat_product.
    unfold map_vertices. apply map_ext. intros t. rewrite !mat_vec_dot. reflexivity.
  - rewrite rotate_degrees_mesh, euler2mat_product.
    unfold map_vertices. apply map_ext. intros t. rewrite !mat_vec_dot. reflexivity.
Qed.

(** C7.  For every solid with at least one facet, [centerGeometry]
    returns, the cached bounding box is the bounding box of the moved
    vertices, and on each axis max + min = 0 (exactly, in real
    arithmetic). *)
Theorem centerGeometry_symmetric (s : solidSTL) :
  mesh s <> [] ->
  exists s',
    centerGeometry s = (Ok tt, s') /\
    is_bbox (mesh s') (bb s') /\
    xmax (bb s') + xmin (bb s') = 0 /\
    ymax (bb s') + ymin (bb s') = 0 /\
    zmax (bb s') + zmin (bb s') = 0.
Proof.
  intros Hne.
  destruct (centerGeometry_ok s Hne) as (b & s' & _ & Hrun & _ & Hbb & Hc).
  exists s'. split; [exact Hrun|]. split; [apply Hc|].
  rewrite Hbb; simpl. repeat split; lra.
Qed.

Lemma centerGeometry_symmetric_witness :
  exists s',
    centerGeometry (blank [facet_off]) = (Ok tt, s') /\
    is_bbox (mesh s') (bb s') /\
    xmax (bb s') + xmin (bb s') = 0 /\
    ymax (bb s') + ymin (bb s') = 0 /\
    zmax (bb s') + zmin (bb s') = 0.
Proof.
  apply (centerGeometry_symmetric (blank [facet_off])). simpl. discriminate.
Defined.

(** C8.  [scale] with a factor <= 0 and [rotate] with units other than
    "degrees" and "radians" raise ValueError (the code's exception for
    both failures) and leave the whole object, vertices, bounding box and
    extremal points, as it was. *)
Theorem invalid_transform_keeps_solid (s : solidSTL) (x y z : R) (units : string) :
  (x <= 0 \/ y <= 0 \/ z <= 0 ->
   scale x y z s = (Raise (ValueError "Scale factors must be positive"), s)) /\
  (units <> "degrees" -> units <> "radians" ->
   rotate z y x units s =
   (Raise (ValueError ("Invalid units: " +:+ units +:+
                       ". Must be 'degrees' or 'radians'")), s)).
Proof.
  split.
  - intros H. unfold scale.
    destruct (decide (x <= 0 \/ y <= 0 \/ z <= 0)); [reflexivity|contradiction].
  - intros Hd Hr. unfold rotate.
    destruct (decide (units = "degrees")); [contradiction|].
    destruct (decide (units = "radians")); [contradiction|].
    reflexivity.
Qed.

Lemma invalid_transform_keeps_solid_witness :
  scale 0 1 1 solid_5 = (Raise (ValueError "Scale factors must be positive"), solid_5) /\
  scale (-1) 1 1 solid_5 = (Raise (ValueError "Scale factors must be positive"), solid_5) /\
  rotate 1 1 0 "gradians" solid_5 =
  (Raise (ValueError "Invalid units: gradians. Must be 'degrees' or 'radians'"), solid_5).
Proof.
  split; [|split].
  - apply (invalid_transform_keeps_solid solid_5 0 1 1 "gradians"). left. lra.
  - apply (invalid_transform_keeps_solid solid_5 (-1) 1 1 "gradians"). left. lra.
  - apply (invalid_transform_keeps_solid solid_5 0 1 1 "gradians"); discriminate.
Defined.

(** C9.  With units "degrees" or "radians", [rotate(0, 0, 0, units)]
    builds no matrix ([Ms] is empty, [euler2mat] returns the identity) and
    leaves every vertex of every facet unchanged; on a solid with at least
    one facet the call returns. *)
Theorem rotate_zero_identity (s : solidSTL) (units : string) :
  units = "degrees" \/ units = "radians" ->
  euler_Ms 0 0 0 = [] /\
  euler_Ms (radians 0) (radians 0) (radians 0) = [] /\
  mesh (snd (rotate 0 0 0 units s)) = mesh s /\
  (mesh s <> [] -> fst (rotate 0 0 0 units s) = Ok tt).
Proof.
  intros Hu.
  assert (Hr : radians 0 = 0) by (unfold radians; lra).
  assert (HMs : euler_Ms 0 0 0 = []).
  { unfold euler_Ms. destruct (decide (0 = 0)); [reflexivity|contradiction]. }
  assert (He : euler2mat 0 0 0 = eye) by (unfold euler2mat; rewrite HMs; reflexivity).
  assert (Hloop : rotate_loop eye (mesh s) = mesh s).
  { rewrite rotate_loop_map. apply map_vertices_id, mat_vec_eye. }
  assert (Hrun : rotate 0 0 0 units s = boundingBox s).
  { destruct Hu as [->| ->].
    - rewrite rotate_degrees_run, Hr, He, Hloop. destruct s; reflexivity.
    - rewrite rotate_radians_run, He, Hloop. destruct s; reflexivity. }
  split; [exact HMs|]. split; [rewrite Hr; exact HMs|].
  rewrite Hrun. split; [apply boundingBox_mesh|].
  intros Hne. destruct (boundingBox_ok s Hne) as (s' & -> & _). reflexivity.
Qed.

Lemma rotate_zero_identity_witness :
  mesh (snd (rotate 0 0 0 "degrees" solid_5)) = mesh solid_5 /\
  fst (rotate 0 0 0 "degrees" solid_5) = Ok tt.
Proof.
  destruct (rotate_zero_identity solid_5 "degrees") as (_ & _ & Hm & Hok).
  - left. reflexivity.
  - split; [exact Hm|]. apply Hok. simpl. discriminate.
Defined.

(** C10.  For every loaded surface with at least one facet the
    constructor returns a solid whose vertices are the loaded ones moved
    by minus the midpoint of their bounding box, whose cached attributes
    are those of the moved vertices, and whose bounding box satisfies
    max + min = 0 on each axis (exactly, in real arithmetic). *)
Theorem init_centers (fp : string) (m : Mesh) :
  m <> [] ->
  exists b s,
    is_bbox m b /\
    __init__ fp (Facets m) = Ok s /\
    mesh s = map_vertices (add_offset (-1 * ((xmax b - xmin b) / 2 + xmin b))
                                      (-1 * ((ymax b - ymin b) / 2 + ymin b))
                                      (-1 * ((zmax b - zmin b) / 2 + zmin b))) m /\
    cache_fresh s /\
    xmax (bb s) + xmin (bb s) = 0 /\
    ymax (bb s) + ymin (bb s) = 0 /\
    zmax (bb s) + zmin (bb s) = 0.
Proof.
  intros Hne.
  destruct (boundingBox_ok (blank m) Hne) as (s1 & Hrun1 & Hm1 & _).
  simpl in Hm1.
  destruct (centerGeometry_ok s1) as (b & s & Hb & Hrun & Hmesh & Hbb & Hc);
    [congruence|].
  cbn zeta in Hmesh, Hbb. rewrite Hm1 in Hb, Hmesh.
  exists b, s. split; [exact Hb|]. split.
  { unfold __init__. rewrite (bind_ok _ _ _ _ _ Hrun1), Hrun. reflexivity. }
  split; [exact Hmesh|]. split; [exact Hc|].
  rewrite Hbb; simpl. repeat split; lra.
Qed.

Lemma init_centers_witness :
  exists b s,
    is_bbox [facet_off] b /\
    __init__ "wing.stl" (Facets [facet_off]) = Ok s /\
    mesh s = map_vertices (add_offset (-1 * ((xmax b - xmin b) / 2 + xmin b))
                                      (-1 * ((ymax b - ymin b) / 2 + ymin b))
                                      (-1 * ((zmax b - zmin b) / 2 + zmin b)))
                          [facet_off] /\
    cache_fresh s /\
    xmax (bb s) + xmin (bb s) = 0 /\
    ymax (bb s) + ymin (bb s) = 0 /\
    zmax (bb s) + zmin (bb s) = 0.
Proof.
  apply (init_centers "wing.stl" [facet_off]). discriminate.
Defined.

(** ** Domain sizing *)

Section Template.

Lemma template_vertices :
  template_blockMeshDict !! "vertices" = Some (VList unit_cube).
Proof.
  unfold template_blockMeshDict.
  rewrite lookup_insert_ne by discriminate. apply lookup_insert_eq.
Qed.

Lemma template_blocks_entry :
  template_blockMeshDict !! "blocks" = Some (VList template_blocks).
Proof. apply lookup_insert_eq. Qed.

(** An int of at most 53 bits is converted exactly. *)
Lemma as_float_int (n : Z) : (Z.abs n < 2 ^ 53)%Z -> as_float (VInt n) = Ok (Num (IZR n)).
Proof.
  intros Hn. unfold as_float. f_equal. apply (rnd_exact n 0); [|assumption|lia].
  rewrite bpow_0. lra.
Qed.

Lemma unit_cube_vec_of : Forall2 vec_of unit_cube unit_cube_points.
Proof.
  unfold unit_cube, unit_cube_points, corner.
  repeat constructor; eexists _, _, _; (split; [reflexivity|]);
    repeat split; first [apply (as_float_int 1) | apply (as_float_int (-1))]; reflexivity.
Qed.

Lemma bpow_m1 : bpow (-1) = / 2.
Proof. change (-1)%Z with (- (1))%Z. by rewrite bpow_opp, bpow_1. Qed.

Lemma bpow_m2 : bpow (-2) = / 4.
Proof.
  change (-2)%Z with (- (1 + 1))%Z. rewrite bpow_opp, bpow_add, bpow_1.
  f_equal; lra.
Qed.

(** An extent all of whose operations are exact. *)
Lemma extent_exact (lo hi k : R) (m1 e1 m2 e2 : Z) :
  hi - lo = IZR m1 * bpow e1 -> (Z.abs m1 < 2 ^ 53)%Z -> (-1074 <= e1 <= 970)%Z ->
  (hi - lo) * k = IZR m2 * bpow e2 -> (Z.abs m2 < 2 ^ 53)%Z -> (-1074 <= e2 <= 970)%Z ->
  clamp (fmul (fsub (Num hi) (Num lo)) (Num k)) = Num (Rmax ((hi - lo) * k) 2.5).
Proof.
  intros H1 M1 E1 H2 M2 E2. unfold fsub. rewrite (rnd_exact m1 e1) by assumption.
  unfold fmul. rewrite (rnd_exact m2 e2) by assumption. apply clamp_num.
Qed.

Lemma shift_exact (lo hi k : R) (m1 e1 m2 e2 : Z) :
  hi - lo = IZR m1 * bpow e1 -> (Z.abs m1 < 2 ^ 53)%Z -> (-1074 <= e1 <= 970)%Z ->
  (hi - lo) * k = IZR m2 * bpow e2 -> (Z.abs m2 < 2 ^ 53)%Z -> (-1074 <= e2 <= 970)%Z ->
  fmul (fsub (Num hi) (Num lo)) (Num k) = Num ((hi - lo) * k).
Proof.
  intros H1 M1 E1 H2 M2 E2. unfold fsub. rewrite (rnd_exact m1 e1) by assumption.
  unfold fmul. by rewrite (rnd_exact m2 e2).
Qed.

Lemma quotient_exact (d cell : R) (m e : Z) :
  cell <> 0 ->
  d / cell = IZR m * bpow e -> (Z.abs m < 2 ^ 53)%Z -> (-1074 <= e <= 970)%Z ->
  fdiv (Num d) (Num cell) = Ok (Num (d / cell)).
Proof.
  intros Hc H M E. rewrite fdiv_num by assumption. f_equal. by apply (rnd_exact m e).
Qed.

(** The ceiling of a quotient of two numbers of opposite signs. *)
Lemma quotient_nonpos (d cell q : R) :
  0 <= d -> cell < 0 -> fdiv (Num d) (Num cell) = Ok (Num q) -> (Zceil q <= 0)%Z.
Proof.
  intros Hd Hc Hq. rewrite fdiv_num in Hq by lra.
  assert (Hx : d / cell <= 0).
  { unfold Rdiv. pose proof (Rinv_lt_0_compat cell Hc). nra. }
  assert (Hr : q <= 0).
  { unfold rnd in Hq. destruct (decide _); [|discriminate Hq].
    injection Hq as <-. by apply round64_nonpos. }
  pose proof (Zceil_bound q) as [Hlo _].
  assert (Hlt : IZR (Zceil q) < IZR 1) by lra.
  apply lt_IZR in Hlt. lia.
Qed.

Lemma extent_quotient_nonpos (lo hi k cell q : R) :
  k <> 0 -> cell < 0 ->
  fdiv (clamp (fmul (fsub (Num hi) (Num lo)) (Num k))) (Num cell) = Ok (Num q) ->
  (Zceil q <= 0)%Z.
Proof.
  intros Hk Hc Hq.
  destruct (extent_cases lo hi k Hk) as [(x & E & Hx)|E]; rewrite E in Hq.
  - apply (quotient_nonpos x cell); [lra|assumption..].
  - unfold fdiv in Hq. destruct (decide (cell = 0)); discriminate Hq.
Qed.

End Template.

Section Evaluation.

(** The extents, the quotients and the shift for the one-facet solid
    (bounding box [-5, 5, -5, 5, 0, 0]) and cell size -0.25, and for the
    bounding box [0, 2, -3, 3, -1, 1] and cell size 0.25. *)
Lemma extent_120 : clamp (fmul (fsub (Num 5) (Num (-5))) (Num 12)) = Num 120.
Proof.
  rewrite (extent_exact (-5) 5 12 10 0 120 0);
    rewrite ?bpow_0; try lra; try lia; try reflexivity.
  f_equal. unfold Rmax. destruct (Rle_dec _ _); lra.
Qed.

Lemma extent_40 : clamp (fmul (fsub (Num 5) (Num (-5))) (Num 4)) = Num 40.
Proof.
  rewrite (extent_exact (-5) 5 4 10 0 40 0);
    rewrite ?bpow_0; try lra; try lia; try reflexivity.
  f_equal. unfold Rmax. destruct (Rle_dec _ _); lra.
Qed.

Lemma extent_flat : clamp (fmul (fsub (Num 0) (Num 0)) (Num 4)) = Num 2.5.
Proof.
  rewrite (extent_exact 0 0 4 0 0 0 0);
    rewrite ?bpow_0; try lra; try lia; try reflexivity.
  f_equal. unfold Rmax. destruct (Rle_dec _ _); lra.
Qed.

Lemma extent_24_x : clamp (fmul (fsub (Num 2) (Num 0)) (Num 12)) = Num 24.
Proof.
  rewrite (extent_exact 0 2 12 2 0 24 0);
    rewrite ?bpow_0; try lra; try lia; try reflexivity.
  f_equal. unfold Rmax. destruct (Rle_dec _ _); lra.
Qed.

Lemma extent_24_y : clamp (fmul (fsub (Num 3) (Num (-3))) (Num 4)) = Num 24.
Proof.
  rewrite (extent_exact (-3) 3 4 6 0 24 0);
    rewrite ?bpow_0; try lra; try lia; try reflexivity.
  f_equal. unfold Rmax. destruct (Rle_dec _ _); lra.
Qed.

Lemma extent_8 : clamp (fmul (fsub (Num 1) (Num (-1))) (Num 4)) = Num 8.
Proof.
  rewrite (extent_exact (-1) 1 4 2 0 8 0);
    rewrite ?bpow_0; try lra; try lia; try reflexivity.
  f_equal. unfold Rmax. destruct (Rle_dec _ _); lra.
Qed.

Lemma shift_12 : fmul (fsub (Num 2) (Num 0)) (Num 6) = Num 12.
Proof.
  rewrite (shift_exact 0 2 6 2 0 12 0);
    rewrite ?bpow_0; try lra; try lia; try reflexivity.
  f_equal. lra.
Qed.

Lemma quotient_num (d cell : R) (m : Z) :
  cell <> 0 -> d / cell = IZR m -> (Z.abs m < 2 ^ 53)%Z ->
  fdiv (Num d) (Num cell) = Ok (Num (IZR m)).
Proof.
  intros Hc H M. rewrite (quotient_exact d cell m 0); rewrite ?bpow_0; try lra; try lia.
  by rewrite H.
Qed.

Lemma cell_tiny_pos : 0 < cell_tiny.
Proof. apply bpow_pos. Qed.

Lemma over_tiny : bpow 1024 <= 24 / cell_tiny.
Proof.
  unfold cell_tiny. change (-1074)%Z with (- (1074))%Z.
  rewrite bpow_opp. unfold Rdiv. rewrite Rinv_inv.
  pose proof (bpow_le 1024 1074 ltac:(lia)). pose proof (bpow_pos 1024). lra.
Qed.

(** 24 / 2^-1074 is beyond the largest double. *)
Lemma quotient_24_tiny : fdiv (Num 24) (Num cell_tiny) = Ok (Inf false).
Proof.
  pose proof cell_tiny_pos as Hp. rewrite fdiv_num by lra. f_equal.
  apply rnd_overflow_pos, over_tiny.
Qed.

Lemma quotient_24_tiny_neg : fdiv (Num 24) (Num (- cell_tiny)) = Ok (Inf true).
Proof.
  pose proof cell_tiny_pos as Hp. rewrite fdiv_num by lra. f_equal.
  apply rnd_overflow_neg. pose proof over_tiny as H.
  replace (24 / - cell_tiny) with (- (24 / cell_tiny)) by (field; lra). lra.
Qed.

End Evaluation.

(** C3 (counterexample).  With the solid loaded from the one-facet file
    (bounding box [-5, 5, -5, 5, 0, 0]) and [baseCellSize = -0.25], which
    is <= 0, [blockMeshDomain] returns normally and stores the block
    counts (-480, -160, -10); with [baseCellSize = 0] it raises
    ZeroDivisionError.  No configuration error is raised in either case. *)
Lemma nonpositive_cell_counterexample :
  -0.25 <= 0 /\
  fst (blockMeshDomain (mesher_of solid_5 (-0.25))) = Ok tt /\
  (v <-- item (blockMeshDict (snd (blockMeshDomain (mesher_of solid_5 (-0.25))))) "blocks" ;;
   index v 2) = Ok (VList [VInt (-480); VInt (-160); VInt (-10)]) /\
  blockMeshDomain (mesher_of solid_5 0) =
  (Raise (ZeroDivisionError "float division by zero"), mesher_of solid_5 0).
Proof.
  split; [lra|].
  pose proof (blockMeshDomain_run solid_5 (-0.25) (VDict template_snappyHexMeshDict)
                _ _ _ template_vertices unit_cube_vec_of template_blocks
                (-480) (-160) (-10) template_blocks_entry) as Hrun.
  cbn zeta in Hrun. cbn [bb solid_5 xmin xmax ymin ymax zmin zmax] in Hrun.
  rewrite extent_120, extent_40, extent_flat in Hrun.
  specialize (Hrun ltac:(simpl; lia)
                   (quotient_num 120 (-0.25) (-480) ltac:(lra) ltac:(lra) ltac:(reflexivity))
                   (quotient_num 40 (-0.25) (-160) ltac:(lra) ltac:(lra) ltac:(reflexivity))
                   (quotient_num 2.5 (-0.25) (-10) ltac:(lra) ltac:(lra) ltac:(reflexivity))).
  change (mkMesher solid_5 (-0.25) (VDict template_blockMeshDict)
                   (VDict template_snappyHexMeshDict))
    with (mesher_of solid_5 (-0.25)) in Hrun.
  split; [rewrite Hrun; reflexivity|]. split.
  - rewrite Hrun. cbn [fst snd blockMeshDict item].
    rewrite lookup_insert_ne by discriminate.
    rewrite lookup_insert_eq. cbn [rbind index list_index template_blocks].
    rewrite (Zceil_eq (-480)) by lra.
    rewrite (Zceil_eq (-160)) by lra.
    rewrite (Zceil_eq (-10)) by lra.
    reflexivity.
  - apply (blockMeshDomain_zero solid_5 0 _ _ _ _ template_vertices unit_cube_vec_of).
    reflexivity.
Qed.

(** C3 (amended).  On a template with numeric vertices and a slot 2 in
    [blocks] there is no check of [baseCellSize].  With [baseCellSize = 0]
    the first division raises ZeroDivisionError and the mesher is
    unchanged.  With [baseCellSize < 0] each quotient
    extent / baseCellSize, computed in binary64, is a finite number or an
    infinity: when the three are finite the call returns and stores their
    ceilings, each of them <= 0, and the scaled and shifted vertices; when
    one is infinite [math.ceil] raises OverflowError and the mesher is
    unchanged. *)
Theorem nonpositive_cell_size
    (solid : solidSTL) (cell : R) (snappy : Value)
    (g : gmap string Value) (vs bl : list Value) (tmpl : list Point) :
  g !! "vertices" = Some (VList vs) ->
  Forall2 vec_of vs tmpl ->
  g !! "blocks" = Some (VList bl) ->
  (2 < length bl)%nat ->
  let b := bb solid in
  let Lx := fsub (Num (xmax b)) (Num (xmin b)) in
  let dx := clamp (fmul Lx (Num 12)) in
  let dy := clamp (fmul (fsub (Num (ymax b)) (Num (ymin b))) (Num 4)) in
  let dz := clamp (fmul (fsub (Num (zmax b)) (Num (zmin b))) (Num 4)) in
  (cell = 0 ->
   blockMeshDomain (mkMesher solid cell (VDict g) snappy) =
   (Raise (ZeroDivisionError "float division by zero"),
    mkMesher solid cell (VDict g) snappy)) /\
  (cell < 0 ->
   (forall d, d = dx \/ d = dy \/ d = dz ->
      (exists q, fdiv d (Num cell) = Ok (Num q)) \/
      (exists s, fdiv d (Num cell) = Ok (Inf s))) /\
   (forall qx qy qz,
      fdiv dx (Num cell) = Ok (Num qx) ->
      fdiv dy (Num cell) = Ok (Num qy) ->
      fdiv dz (Num cell) = Ok (Num qz) ->
      blockMeshDomain (mkMesher solid cell (VDict g) snappy) =
      (Ok tt,
       mkMesher solid cell
         (VDict (<["vertices" :=
                     VList (map (fun p => VFmt3 (fadd (fmul (Num (px p)) dx) (fmul Lx (Num 6)))
                                                (fmul (Num (py p)) dy)
                                                (fmul (Num (pz p)) dz)) tmpl)]>
                   (<["blocks" :=
                        VList (<[2%nat := VList [VInt (Zceil qx); VInt (Zceil qy);
                                                 VInt (Zceil qz)]]> bl)]> g)))
         snappy) /\
      (Zceil qx <= 0)%Z /\ (Zceil qy <= 0)%Z /\ (Zceil qz <= 0)%Z) /\
   ((exists s, fdiv dx (Num cell) = Ok (Inf s)) \/
    (exists s, fdiv dy (Num cell) = Ok (Inf s)) \/
    (exists s, fdiv dz (Num cell) = Ok (Inf s)) ->
    blockMeshDomain (mkMesher solid cell (VDict g) snappy) =
    (Raise (OverflowError "cannot convert float infinity to integer"),
     mkMesher solid cell (VDict g) snappy))).
Proof.
  intros Hv Ht Hb Hs b Lx dx dy dz. split.
  - intros Hc. by apply (blockMeshDomain_zero solid cell snappy g vs tmpl).
  - intros Hc. split; [|split].
    + intros d [-> |[-> | ->]]; apply extent_quotient_cases; lra.
    + intros qx qy qz Hx Hy Hz. split.
      * by apply (blockMeshDomain_run solid cell snappy g vs tmpl Hv Ht bl qx qy qz).
      * split; [|split].
        -- apply (extent_quotient_nonpos (xmin b) (xmax b) 12 cell qx); [lra|assumption..].
        -- apply (extent_quotient_nonpos (ymin b) (ymax b) 4 cell qy); [lra|assumption..].
        -- apply (extent_quotient_nonpos (zmin b) (zmax b) 4 cell qz); [lra|assumption..].
    + intros Hinf.
      apply (blockMeshDomain_overflow solid cell snappy g vs tmpl Hv Ht); [lra|exact Hinf].
Qed.

Lemma nonpositive_cell_size_witness :
  blockMeshDomain (mesher_of solid_box 0) =
  (Raise (ZeroDivisionError "float division by zero"), mesher_of solid_box 0) /\
  fst (blockMeshDomain (mesher_of solid_box (-0.25))) = Ok tt /\
  blockMeshDomain (mesher_of solid_box (- cell_tiny)) =
  (Raise (OverflowError "cannot convert float infinity to integer"),
   mesher_of solid_box (- cell_tiny)).
Proof.
  split; [|split].
  - apply (nonpositive_cell_size solid_box 0 _ _ _ _ _
             template_vertices unit_cube_vec_of template_blocks_entry).
    + simpl. lia.
    + reflexivity.
  - destruct (nonpositive_cell_size solid_box (-0.25) (VDict template_snappyHexMeshDict)
                _ _ _ _ template_vertices unit_cube_vec_of template_blocks_entry) as [_ H].
    + simpl. lia.
    + destruct H as (_ & H & _); [lra|].
      cbn [bb solid_box xmin xmax ymin ymax zmin zmax] in H.
      rewrite extent_24_x, extent_24_y, extent_8 in H.
      destruct (H (-96) (-96) (-32)) as [Hrun _].
      * apply quotient_num; [lra|lra|reflexivity].
      * apply quotient_num; [lra|lra|reflexivity].
      * apply quotient_num; [lra|lra|reflexivity].
      * unfold mesher_of. rewrite Hrun. reflexivity.
  - pose proof cell_tiny_pos as Hp.
    destruct (nonpositive_cell_size solid_box (- cell_tiny) (VDict template_snappyHexMeshDict)
                _ _ _ _ template_vertices unit_cube_vec_of template_blocks_entry) as [_ H].
    + simpl. lia.
    + destruct H as (_ & _ & H); [lra|]. apply H.
      left. exists true. cbn [bb solid_box xmin xmax]. rewrite extent_24_x.
      apply quotient_24_tiny_neg.
Defined.

Section Nearest.

(** A positive quotient between 2^(52-k) and 2^(53-k) is rounded to the
    nearest multiple of 2^-k. *)
Lemma quotient_nearest (d cell : R) (n k p : Z) :
  cell <> 0 -> (0 <= k <= 1074)%Z -> p = (2 ^ k)%Z ->
  4503599627370496 <= d / cell * IZR p < 9007199254740992 ->
  - / 2 < d / cell * IZR p - IZR n < / 2 ->
  fdiv (Num d) (Num cell) = Ok (Num (IZR n / IZR p)).
Proof.
  intros Hc Hk -> Hx Hn. rewrite fdiv_num by assumption. f_equal.
  rewrite <- bpow_IZR in * by lia. pose proof (bpow_pos k) as Hp.
  assert (Ek : bpow (- k) = / bpow k) by apply bpow_opp.
  assert (Hq : 0 < d / cell) by nra.
  assert (E52 : bpow (- k + 52) = 4503599627370496 * / bpow k).
  { rewrite bpow_add, Ek, (bpow_IZR 52) by lia. rewrite Rmult_comm. reflexivity. }
  assert (E53 : bpow (- k + 53) = 9007199254740992 * / bpow k).
  { rewrite bpow_add, Ek, (bpow_IZR 53) by lia. rewrite Rmult_comm. reflexivity. }
  assert (Hi : 0 < / bpow k) by (by apply Rinv_0_lt_compat).
  assert (Hs : d / cell = d / cell * bpow k * / bpow k) by (field; lra).
  assert (Hb : bpow (- k + 52) <= Rabs (d / cell) < bpow (- k + 53)).
  { rewrite Rabs_right, E52, E53 by lra. rewrite Hs. split.
    - apply Rmult_le_compat_r; lra.
    - apply Rmult_lt_compat_r; lra. }
  rewrite rnd_finite.
  - f_equal. rewrite (round64_nearest _ n (- k)); [by rewrite Ek| lia | exact Hb |].
    rewrite Ek. unfold Rdiv at 1. rewrite Rinv_inv. apply Rabs_def1; lra.
  - left. eapply Rlt_le_trans; [apply Hb|]. apply bpow_le. lia.
Qed.

Lemma cell_03_pos : 0 < cell_03.
Proof. unfold cell_03. lra. Qed.

(** 3.0 / 0.3 in binary64 is 10.0, though the exact quotient of the two
    doubles is above 10. *)
Lemma quotient_3_03 : fdiv (Num 3) (Num cell_03) = Ok (Num 10).
Proof.
  rewrite (quotient_nearest 3 cell_03 5629499534213120 49 562949953421312);
    unfold cell_03; try lra; try lia; try reflexivity.
  do 2 f_equal. lra.
Qed.

Lemma quotient_25_03 :
  fdiv (Num 2.5) (Num cell_03) = Ok (Num (4691249611844267 / 562949953421312)).
Proof.
  rewrite (quotient_nearest 2.5 cell_03 4691249611844267 49 562949953421312);
    unfold cell_03; try lra; try lia; reflexivity.
Qed.

Lemma extent_3 : clamp (fmul (fsub (Num 0.25) (Num 0)) (Num 12)) = Num 3.
Proof.
  rewrite (extent_exact 0 0.25 12 1 (-2) 3 0);
    rewrite ?bpow_0, ?bpow_m2; try lra; try lia; try reflexivity.
  f_equal. unfold Rmax. destruct (Rle_dec _ _); lra.
Qed.

End Nearest.

(** C4 (counterexample).  Two positive cell sizes for which the stored
    counts are not the ceilings of extent / baseCellSize.  With the
    smallest positive double and the bounding box [0, 2, -3, 3, -1, 1]
    the quotient 24 / baseCellSize overflows: [blockMeshDomain] raises
    OverflowError and stores nothing.  With the bounding box
    [0, 0.25, 0, 0, 0, 0], whose extent downwind is 3, and the double
    nearest to 0.3, the quotient is rounded to 10.0 and the stored count
    is 10, though the ceiling of the quotient of the two numbers is 11. *)
Lemma blockMeshDomain_sizing_counterexample :
  0 < cell_tiny /\
  blockMeshDomain (mesher_of solid_box cell_tiny) =
  (Raise (OverflowError "cannot convert float infinity to integer"),
   mesher_of solid_box cell_tiny) /\
  0 < cell_03 /\
  fst (blockMeshDomain (mesher_of solid_quarter cell_03)) = Ok tt /\
  (v <-- item (blockMeshDict (snd (blockMeshDomain (mesher_of solid_quarter cell_03))))
              "blocks" ;;
   index v 2) = Ok (VList [VInt 10; VInt 9; VInt 9]) /\
  Zceil (Rmax ((0.25 - 0) * 12) 2.5 / cell_03) = 11%Z.
Proof.
  split; [apply cell_tiny_pos|]. split.
  { pose proof cell_tiny_pos.
    apply (blockMeshDomain_overflow solid_box cell_tiny _ _ _ _
             template_vertices unit_cube_vec_of); [lra|].
    left. exists false. cbn [bb solid_box xmin xmax]. rewrite extent_24_x.
    apply quotient_24_tiny. }
  split; [apply cell_03_pos|].
  pose proof (blockMeshDomain_run solid_quarter cell_03 (VDict template_snappyHexMeshDict)
                _ _ _ template_vertices unit_cube_vec_of template_blocks
                10 (4691249611844267 / 562949953421312) (4691249611844267 / 562949953421312)
                template_blocks_entry) as Hrun.
  cbn zeta in Hrun. cbn [bb solid_quarter xmin xmax ymin ymax zmin zmax] in Hrun.
  rewrite extent_3, extent_flat in Hrun.
  specialize (Hrun ltac:(simpl; lia) quotient_3_03 quotient_25_03 quotient_25_03).
  change (mkMesher solid_quarter cell_03 (VDict template_blockMeshDict)
                   (VDict template_snappyHexMeshDict))
    with (mesher_of solid_quarter cell_03) in Hrun.
  split; [rewrite Hrun; reflexivity|]. split.
  - rewrite Hrun. cbn [fst snd blockMeshDict item].
    rewrite lookup_insert_ne by discriminate.
    rewrite lookup_insert_eq. cbn [rbind index list_index template_blocks].
    rewrite (Zceil_eq 10) by lra.
    rewrite (Zceil_eq 9) by lra.
    reflexivity.
  - replace (Rmax ((0.25 - 0) * 12) 2.5) with 3
      by (unfold Rmax; destruct (Rle_dec _ _); lra).
    apply Zceil_eq. unfold cell_03. lra.
Qed.

(** C4 (amended).  For every bounding box and every [baseCellSize > 0],
    on a template with numeric vertices and a slot 2 in [blocks],
    [blockMeshDomain] computes in binary64, every operation rounded: the
    extents dx = (xmax-xmin)*12, dy = (ymax-ymin)*4, dz = (zmax-zmin)*4,
    each raised to 2.5 if below, and the quotients extent / baseCellSize,
    each a finite number or an infinity.  When the three quotients are
    finite it returns and stores their ceilings in slot 2 of [blocks] and
    every template vertex scaled component-wise by (dx, dy, dz) with its
    x coordinate shifted by 6*(xmax-xmin); when one is infinite it raises
    OverflowError and the mesher is unchanged.  For the bounding box
    [0, 2, -3, 3, -1, 1] and cell size 0.25 every operation is exact:
    dx = 24, dy = 24, dz = 8, the quotients are 96, 96, 32, the shift is
    12, and the call returns with the counts (96, 96, 32) stored. *)
Theorem blockMeshDomain_sizing
    (solid : solidSTL) (cell : R) (snappy : Value)
    (g : gmap string Value) (vs bl : list Value) (tmpl : list Point) :
  g !! "vertices" = Some (VList vs) ->
  Forall2 vec_of vs tmpl ->
  g !! "blocks" = Some (VList bl) ->
  (2 < length bl)%nat ->
  0 < cell ->
  let b := bb solid in
  let Lx := fsub (Num (xmax b)) (Num (xmin b)) in
  let dx := clamp (fmul Lx (Num 12)) in
  let dy := clamp (fmul (fsub (Num (ymax b)) (Num (ymin b))) (Num 4)) in
  let dz := clamp (fmul (fsub (Num (zmax b)) (Num (zmin b))) (Num 4)) in
  (forall d, d = dx \/ d = dy \/ d = dz ->
     (exists q, fdiv d (Num cell) = Ok (Num q)) \/
     (exists s, fdiv d (Num cell) = Ok (Inf s))) /\
  (forall qx qy qz,
     fdiv dx (Num cell) = Ok (Num qx) ->
     fdiv dy (Num cell) = Ok (Num qy) ->
     fdiv dz (Num cell) = Ok (Num qz) ->
     blockMeshDomain (mkMesher solid cell (VDict g) snappy) =
     (Ok tt,
      mkMesher solid cell
        (VDict (<["vertices" :=
                    VList (map (fun p => VFmt3 (fadd (fmul (Num (px p)) dx) (fmul Lx (Num 6)))
                                               (fmul (Num (py p)) dy)
                                               (fmul (Num (pz p)) dz)) tmpl)]>
                  (<["blocks" :=
                       VList (<[2%nat := VList [VInt (Zceil qx); VInt (Zceil qy);
                                                VInt (Zceil qz)]]> bl)]> g)))
        snappy)) /\
  ((exists s, fdiv dx (Num cell) = Ok (Inf s)) \/
   (exists s, fdiv dy (Num cell) = Ok (Inf s)) \/
   (exists s, fdiv dz (Num cell) = Ok (Inf s)) ->
   blockMeshDomain (mkMesher solid cell (VDict g) snappy) =
   (Raise (OverflowError "cannot convert float infinity to integer"),
    mkMesher solid cell (VDict g) snappy)) /\
  (b = mkBB 0 2 (-3) 3 (-1) 1 -> cell = 0.25 ->
   dx = Num 24 /\ dy = Num 24 /\ dz = Num 8 /\
   fdiv dx (Num cell) = Ok (Num 96) /\ fdiv dy (Num cell) = Ok (Num 96) /\
   fdiv dz (Num cell) = Ok (Num 32) /\
   fmul Lx (Num 6) = Num 12 /\
   exists self',
     blockMeshDomain (mkMesher solid cell (VDict g) snappy) = (Ok tt, self') /\
     (v <-- item (blockMeshDict self') "blocks" ;; index v 2) =
       Ok (VList [VInt 96; VInt 96; VInt 32])).
Proof.
  intros Hv Ht Hb Hs Hc b Lx dx dy dz. split; [|split; [|split]].
  - intros d [-> |[-> | ->]]; apply extent_quotient_cases; lra.
  - intros qx qy qz Hx Hy Hz.
    by apply (blockMeshDomain_run solid cell snappy g vs tmpl Hv Ht bl qx qy qz).
  - intros Hinf.
    apply (blockMeshDomain_overflow solid cell snappy g vs tmpl Hv Ht); [lra|exact Hinf].
  - intros Eb Ec.
    pose proof (blockMeshDomain_run solid cell snappy g vs tmpl Hv Ht bl 96 96 32 Hb Hs)
      as Hrun.
    cbn zeta in Hrun. fold b in Hrun. subst dx dy dz Lx. rewrite Eb, Ec in *.
    cbn [xmin xmax ymin ymax zmin zmax] in *.
    rewrite extent_24_x, extent_24_y, extent_8, shift_12 in *.
    assert (Q96 : fdiv (Num 24) (Num 0.25) = Ok (Num 96))
      by (apply quotient_num; [lra|lra|reflexivity]).
    assert (Q32 : fdiv (Num 8) (Num 0.25) = Ok (Num 32))
      by (apply quotient_num; [lra|lra|reflexivity]).
    specialize (Hrun Q96 Q96 Q32).
    rewrite (Zceil_eq 96 96), (Zceil_eq 32 32) in Hrun by lra.
    repeat (split; [first [reflexivity | assumption]|]).
    eexists. split; [exact Hrun|]. cbn [blockMeshDict]. by apply blocks_slot_read.
Qed.

Lemma blockMeshDomain_sizing_witness :
  exists self',
    blockMeshDomain (mesher_of solid_box 0.25) = (Ok tt, self') /\
    (v <-- item (blockMeshDict self') "blocks" ;; index v 2) =
      Ok (VList [VInt 96; VInt 96; VInt 32]).
Proof.
  destruct (blockMeshDomain_sizing solid_box 0.25 (VDict template_snappyHexMeshDict) _ _ _ _
              template_vertices unit_cube_vec_of template_blocks_entry)
    as (_ & _ & _ & Hex).
  - simpl. lia.
  - lra.
  - destruct Hex as (_ & _ & _ & _ & _ & _ & _ & Hrun); [reflexivity..|].
    exact Hrun.
Defined.

(** ** Refinement regions *)

Section Regions.

Lemma downwind6_coords (p : Point) :
  downwind6 p = VList [VNum (px p + 6); VNum (py p); VNum (pz p)].
Proof.
  unfold downwind6, py_sum. cbn.
  f_equal. repeat (f_equal; try lra).
Qed.

Lemma take3_inserts (a b c : Value) (loc : list Value) :
  (2 < length loc)%nat ->
  take 3 (<[2%nat := c]> (<[1%nat := b]> (<[0%nat := a]> loc))) = [a; b; c].
Proof.
  destruct loc as [|x [|y [|z loc]]]; simpl; try lia. reflexivity.
Qed.

End Regions.

(** C5.  For every bounding box, on a dictionary that has [geometry],
    [castellatedMeshControls.refinementRegions] and a
    [castellatedMeshControls.locationInMesh] of at least three entries,
    [snappyHexMesh] stores the box [downwindbox] with
    min = 2.5 * (xmin, ymin, zmin) and
    max = (2.5 * xmax + 4 * (xmax - xmin), 2.5 * ymax, 2.5 * zmax), its
    refinement region with mode "inside" and levels [[1, 4]], and the
    three coordinates of that min corner in [locationInMesh]. *)
Theorem wake_box_and_location
    (solid : solidSTL) (cell : R) (bmd : Value)
    (d geo cmc rr : gmap string Value) (loc : list Value) :
  d !! "geometry" = Some (VDict geo) ->
  d !! "castellatedMeshControls" = Some (VDict cmc) ->
  cmc !! "refinementRegions" = Some (VDict rr) ->
  cmc !! "locationInMesh" = Some (VList loc) ->
  (2 < length loc)%nat ->
  exists self' loc',
    snappyHexMesh (mkMesher solid cell bmd (VDict d)) = (Ok tt, self') /\
    let b := bb solid in
    path (snappyHexMeshDict self') ["geometry"; "downwindbox"] =
      Ok (VDict (<["max" := VList [VNum (2.5 * xmax b + 4 * (xmax b - xmin b));
                                   VNum (2.5 * ymax b); VNum (2.5 * zmax b)]]>
                (<["min" := VList [VNum (2.5 * xmin b); VNum (2.5 * ymin b);
                                   VNum (2.5 * zmin b)]]>
                (<["type" := VStr "searchableBox"]> ∅)))) /\
    path (snappyHexMeshDict self')
         ["castellatedMeshControls"; "refinementRegions"; "downwindbox"] =
      Ok (VDict (<["levels" := VList [VList [VInt 1; VInt 4]]]>
                (<["mode" := VStr "inside"]> ∅))) /\
    path (snappyHexMeshDict self') ["castellatedMeshControls"; "locationInMesh"] =
      Ok (VList loc') /\
    take 3 loc' = [VNum (2.5 * xmin b); VNum (2.5 * ymin b); VNum (2.5 * zmin b)] /\
    drop 3 loc' = drop 3 loc.
Proof.
  intros Hgeo Hcmc Hrr Hloc Hlen.
  pose proof (snappyHexMesh_run solid cell bmd d geo cmc rr loc
                Hgeo Hcmc Hrr Hloc Hlen) as Hrun.
  cbn zeta in Hrun. eexists _, _. split; [exact Hrun|].
  cbn [snappyHexMeshDict path item rbind].
  repeat first [ rewrite lookup_insert_eq
               | rewrite lookup_insert_ne; [|discriminate] ].
  cbn [rbind item].
  repeat first [ rewrite lookup_insert_eq
               | rewrite lookup_insert_ne; [|discriminate] ].
  split; [reflexivity|].
  cbn [rbind item].
  repeat first [ rewrite lookup_insert_eq
               | rewrite lookup_insert_ne; [|discriminate] ].
  split; [reflexivity|]. split; [reflexivity|]. split.
  - by apply take3_inserts.
  - destruct loc as [|x [|y [|z loc]]]; simpl in *; try lia. reflexivity.
Qed.

Lemma wake_box_and_location_witness :
  exists self' loc',
    snappyHexMesh (mesher_of solid_box 0.25) = (Ok tt, self') /\
    path (snappyHexMeshDict self') ["castellatedMeshControls"; "locationInMesh"] =
      Ok (VList loc') /\
    take 3 loc' = [VNum (2.5 * 0); VNum (2.5 * -3); VNum (2.5 * -1)].
Proof.
  destruct (wake_box_and_location solid_box 0.25 (VDict template_blockMeshDict)
              template_snappyHexMeshDict ∅
              (<["locationInMesh" := VList [VNum 0; VNum 0; VNum 0]]>
                 (<["refinementRegions" := VDict ∅]> ∅))
              ∅ [VNum 0; VNum 0; VNum 0])
    as (self' & loc' & Hrun & _ & _ & Hloc & Htake & _).
  - unfold template_snappyHexMeshDict.
    rewrite lookup_insert_ne by discriminate. apply lookup_insert_eq.
  - apply lookup_insert_eq.
  - rewrite lookup_insert_ne by discriminate. apply lookup_insert_eq.
  - apply lookup_insert_eq.
  - simpl. lia.
  - exists self', loc'. auto.
Defined.

(** C6.  Under the same conditions, for every pair of extremal points
    [snappyHexMesh] stores the cylinders [wingtip1] (from [yminPoint]) and
    [wingtip2] (from [ymaxPoint]), each with point1 = the extremal point,
    point2 = point1 + (6, 0, 0) and radius 0.2, and for each a refinement
    region with mode "inside" and levels [[1, 5]].  For
    [ymaxPoint] = (3, 5, 0): point1 = (3, 5, 0), point2 = (9, 5, 0),
    radius 0.2. *)
Theorem wingtip_cylinders
    (solid : solidSTL) (cell : R) (bmd : Value)
    (d geo cmc rr : gmap string Value) (loc : list Value) :
  d !! "geometry" = Some (VDict geo) ->
  d !! "castellatedMeshControls" = Some (VDict cmc) ->
  cmc !! "refinementRegions" = Some (VDict rr) ->
  cmc !! "locationInMesh" = Some (VList loc) ->
  (2 < length loc)%nat ->
  exists self',
    snappyHexMesh (mkMesher solid cell bmd (VDict d)) = (Ok tt, self') /\
    let cylinder (p : Point) :=
      VDict (<["radius" := VNum 0.2]>
            (<["point2" := VList [VNum (px p + 6); VNum (py p); VNum (pz p)]]>
            (<["point1" := VList [VNum (px p); VNum (py p); VNum (pz p)]]>
            (<["type" := VStr "searchableCylinder"]> ∅)))) in
    let region :=
      VDict (<["levels" := VList [VList [VInt 1; VInt 5]]]>
            (<["mode" := VStr "inside"]> ∅)) in
    path (snappyHexMeshDict self') ["geometry"; "wingtip1"] =
      Ok (cylinder (yminPoint solid)) /\
    path (snappyHexMeshDict self') ["geometry"; "wingtip2"] =
      Ok (cylinder (ymaxPoint solid)) /\
    path (snappyHexMeshDict self')
         ["castellatedMeshControls"; "refinementRegions"; "wingtip1"] = Ok region /\
    path (snappyHexMeshDict self')
         ["castellatedMeshControls"; "refinementRegions"; "wingtip2"] = Ok region /\
    (ymaxPoint solid = mkPoint 3 5 0 ->
     path (snappyHexMeshDict self') ["geometry"; "wingtip2"] =
       Ok (VDict (<["radius" := VNum 0.2]>
                 (<["point2" := VList [VNum 9; VNum 5; VNum 0]]>
                 (<["point1" := VList [VNum 3; VNum 5; VNum 0]]>
                 (<["type" := VStr "searchableCylinder"]> ∅)))))).
Proof.
  intros Hgeo Hcmc Hrr Hloc Hlen.
  pose proof (snappyHexMesh_run solid cell bmd d geo cmc rr loc
                Hgeo Hcmc Hrr Hloc Hlen) as Hrun.
  cbn beta zeta in Hrun. rewrite !downwind6_coords in Hrun. unfold tolist, coords in Hrun.
  cbn [map] in Hrun.
  eexists. split; [exact Hrun|].
  cbn [snappyHexMeshDict path item rbind].
  repeat first [ rewrite lookup_insert_eq
               | rewrite lookup_insert_ne; [|discriminate] ].
  cbn [rbind item].
  repeat first [ rewrite lookup_insert_eq
               | rewrite lookup_insert_ne; [|discriminate] ].
  cbn [rbind item].
  repeat first [ rewrite lookup_insert_eq
               | rewrite lookup_insert_ne; [|discriminate] ].
  repeat (split; [reflexivity|]).
  intros ->. cbn [px py pz]. replace (3 + 6) with 9 by lra. reflexivity.
Qed.

Lemma wingtip_cylinders_witness :
  exists self',
    snappyHexMesh (mesher_of solid_tip 0.25) = (Ok tt, self') /\
    path (snappyHexMeshDict self') ["geometry"; "wingtip2"] =
      Ok (VDict (<["radius" := VNum 0.2]>
                (<["point2" := VList [VNum 9; VNum 5; VNum 0]]>
                (<["point1" := VList [VNum 3; VNum 5; VNum 0]]>
                (<["type" := VStr "searchableCylinder"]> ∅))))).
Proof.
  destruct (wingtip_cylinders solid_tip 0.25 (VDict template_blockMeshDict)
              template_snappyHexMeshDict ∅
              (<["locationInMesh" := VList [VNum 0; VNum 0; VNum 0]]>
                 (<["refinementRegions" := VDict ∅]> ∅))
              ∅ [VNum 0; VNum 0; VNum 0])
    as (self' & Hrun & _ & _ & _ & _ & Hex).
  - unfold template_snappyHexMeshDict.
    rewrite lookup_insert_ne by discriminate. apply lookup_insert_eq.
  - apply lookup_insert_eq.
  - rewrite lookup_insert_ne by discriminate. apply lookup_insert_eq.
  - apply lookup_insert_eq.
  - simpl. lia.
  - exists self'. split; [exact Hrun|]. apply Hex. reflexivity.
Defined.

(** * Further properties of the modelled code *)

(** ** Bounds of an array *)

Section Bounds.

Lemma foldl_Rmin_lower (l : list R) (a : R) :
  foldl Rmin a l <= a /\ forall x, In x l -> foldl Rmin a l <= x.
Proof.
  revert a; induction l as [|b l IH]; intros a; simpl.
  - split; [lra|tauto].
  - destruct (IH (Rmin a b)) as [H1 H2].
    pose proof (Rmin_l a b). pose proof (Rmin_r a b).
    split; [lra|]. intros x [<-|Hx]; [lra|auto].
Qed.

Lemma foldl_Rmax_upper (l : list R) (a : R) :
  a <= foldl Rmax a l /\ forall x, In x l -> x <= foldl Rmax a l.
Proof.
  revert a; induction l as [|b l IH]; intros a; simpl.
  - split; [lra|tauto].
  - destruct (IH (Rmax a b)) as [H1 H2].
    pose proof (Rmax_l a b). pose proof (Rmax_r a b).
    split; [lra|]. intros x [<-|Hx]; [lra|auto].
Qed.

Lemma foldl_Rmin_In (l : list R) (a : R) : In (foldl Rmin a l) (a :: l).
Proof.
  revert a; induction l as [|b l IH]; intros a; simpl; [auto|].
  destruct (IH (Rmin a b)) as [H|H]; [|auto].
  rewrite <- H. unfold Rmin. destruct (Rle_dec a b); auto.
Qed.

Lemma foldl_Rmax_In (l : list R) (a : R) : In (foldl Rmax a l) (a :: l).
Proof.
  revert a; induction l as [|b l IH]; intros a; simpl; [auto|].
  destruct (IH (Rmax a b)) as [H|H]; [|auto].
  rewrite <- H. unfold Rmax. destruct (Rle_dec a b); auto.
Qed.

Lemma amin_spec (l : list R) (lo : R) :
  amin l = Ok lo -> In lo l /\ forall x, In x l -> lo <= x.
Proof.
  destruct l as [|a l]; simpl; [discriminate|]. intros [= <-].
  split; [apply foldl_Rmin_In|].
  destruct (foldl_Rmin_lower l a) as [H1 H2]. intros x [<-|Hx]; auto.
Qed.

Lemma amax_spec (l : list R) (hi : R) :
  amax l = Ok hi -> In hi l /\ forall x, In x l -> x <= hi.
Proof.
  destruct l as [|a l]; simpl; [discriminate|]. intros [= <-].
  split; [apply foldl_Rmax_In|].
  destruct (foldl_Rmax_upper l a) as [H1 H2]. intros x [<-|Hx]; auto.
Qed.

Lemma axis_mesh_vertices (k : Point -> R) (m : Mesh) :
  axis k m = map k (mesh_vertices m).
Proof.
  unfold axis, mesh_vertices. induction m as [|t m IH]; [reflexivity|].
  cbn [map concat]. rewrite map_app, IH. reflexivity.
Qed.

Lemma In_axis (k : Point -> R) (m : Mesh) (x : R) :
  In x (axis k m) <-> exists v, In v (mesh_vertices m) /\ k v = x.
Proof.
  rewrite axis_mesh_vertices, in_map_iff. split; intros (v & H1 & H2); eauto.
Qed.

Lemma is_bbox_encloses (m : Mesh) (b : BoundingBox) (v : Point) :
  is_bbox m b -> In v (mesh_vertices m) ->
  xmin b <= px v <= xmax b /\ ymin b <= py v <= ymax b /\ zmin b <= pz v <= zmax b.
Proof.
  intros (H1 & H2 & H3 & H4 & H5 & H6) Hv.
  apply amin_spec in H1 as [_ H1]. apply amax_spec in H2 as [_ H2].
  apply amin_spec in H3 as [_ H3]. apply amax_spec in H4 as [_ H4].
  apply amin_spec in H5 as [_ H5]. apply amax_spec in H6 as [_ H6].
  repeat split;
    first [apply H1 | apply H2 | apply H3 | apply H4 | apply H5 | apply H6];
    apply In_axis; eauto.
Qed.

Lemma is_bbox_attained (m : Mesh) (b : BoundingBox) :
  is_bbox m b ->
  (exists v, In v (mesh_vertices m) /\ px v = xmin b) /\
  (exists v, In v (mesh_vertices m) /\ px v = xmax b) /\
  (exists v, In v (mesh_vertices m) /\ py v = ymin b) /\
  (exists v, In v (mesh_vertices m) /\ py v = ymax b) /\
  (exists v, In v (mesh_vertices m) /\ pz v = zmin b) /\
  (exists v, In v (mesh_vertices m) /\ pz v = zmax b).
Proof.
  intros (H1 & H2 & H3 & H4 & H5 & H6).
  apply amin_spec in H1 as [H1 _]. apply amax_spec in H2 as [H2 _].
  apply amin_spec in H3 as [H3 _]. apply amax_spec in H4 as [H4 _].
  apply amin_spec in H5 as [H5 _]. apply amax_spec in H6 as [H6 _].
  repeat split; by apply In_axis.
Qed.

Lemma is_bbox_ordered (m : Mesh) (b : BoundingBox) :
  is_bbox m b -> xmin b <= xmax b /\ ymin b <= ymax b /\ zmin b <= zmax b.
Proof.
  intros Hb. destruct (is_bbox_attained m b Hb) as ((v & Hv & _) & _).
  pose proof (is_bbox_encloses m b v Hb Hv). lra.
Qed.

End Bounds.

(** X1.  On a solid with at least one facet [boundingBox] returns, keeps
    the vertices, and stores bounds that enclose every vertex of every
    facet, with min <= max on each axis. *)
Theorem boundingBox_encloses (s : solidSTL) :
  mesh s <> [] ->
  exists s',
    boundingBox s = (Ok tt, s') /\ mesh s' = mesh s /\
    (forall v, In v (mesh_vertices (mesh s)) ->
       xmin (bb s') <= px v <= xmax (bb s') /\
       ymin (bb s') <= py v <= ymax (bb s') /\
       zmin (bb s') <= pz v <= zmax (bb s')) /\
    xmin (bb s') <= xmax (bb s') /\ ymin (bb s') <= ymax (bb s') /\
    zmin (bb s') <= zmax (bb s').
Proof.
  intros Hne. destruct (boundingBox_ok s Hne) as (s' & Hrun & Hm & Hb & _).
  exists s'. rewrite Hm in Hb.
  split; [assumption|]. split; [assumption|]. split.
  - intros v Hv. by apply (is_bbox_encloses (mesh s)).
  - by apply (is_bbox_ordered (mesh s)).
Qed.

Lemma boundingBox_encloses_witness :
  exists s',
    boundingBox (blank [facet_off]) = (Ok tt, s') /\
    xmin (bb s') <= xmax (bb s') /\ ymin (bb s') <= ymax (bb s') /\
    zmin (bb s') <= zmax (bb s').
Proof.
  destruct (boundingBox_encloses (blank [facet_off])) as (s' & H1 & _ & _ & H2).
  - simpl. discriminate.
  - exists s'. split; assumption.
Defined.

(** X2.  The stored bounds are tight: each of the six is the coordinate of
    some vertex of the solid. *)
Theorem boundingBox_tight (s : solidSTL) :
  mesh s <> [] ->
  exists s',
    boundingBox s = (Ok tt, s') /\
    (exists v, In v (mesh_vertices (mesh s)) /\ px v = xmin (bb s')) /\
    (exists v, In v (mesh_vertices (mesh s)) /\ px v = xmax (bb s')) /\
    (exists v, In v (mesh_vertices (mesh s)) /\ py v = ymin (bb s')) /\
    (exists v, In v (mesh_vertices (mesh s)) /\ py v = ymax (bb s')) /\
    (exists v, In v (mesh_vertices (mesh s)) /\ pz v = zmin (bb s')) /\
    (exists v, In v (mesh_vertices (mesh s)) /\ pz v = zmax (bb s')).
Proof.
  intros Hne. destruct (boundingBox_ok s Hne) as (s' & Hrun & Hm & Hb & _).
  exists s'. rewrite Hm in Hb. split; [assumption|].
  by apply is_bbox_attained.
Qed.

Lemma boundingBox_tight_witness :
  exists s',
    boundingBox (blank [facet_off]) = (Ok tt, s') /\
    (exists v, In v (mesh_vertices [facet_off]) /\ py v = ymax (bb s')).
Proof.
  destruct (boundingBox_tight (blank [facet_off]))
    as (s' & H1 & _ & _ & _ & H2 & _).
  - simpl. discriminate.
  - exists s'. split; assumption.
Defined.

(** ** The stored extremal points *)

Section Extremal.

Lemma where_point_head (i j : nat) (c : R) (p : Point) :
  if has_coord c p
  then exists k rest, where_point i j c p = (i, j, k) :: rest
  else where_point i j c p = [].
Proof.
  unfold where_point, has_coord.
  destruct (decide (px p = c)) as [Hx|Hx], (decide (py p = c)) as [Hy|Hy],
           (decide (pz p = c)) as [Hz|Hz];
    try (rewrite bool_decide_true by tauto; cbn; eauto; fail).
  rewrite bool_decide_false by tauto. reflexivity.
Qed.

(** The first index pair found by the scan is the first vertex, in scan
    order, that has a coordinate equal to [c]. *)
Lemma where_from_find (c : R) (m : Mesh) (i : nat) :
  match where_from i c m with
  | [] => find (has_coord c) (mesh_vertices m) = None
  | (i', j', _) :: _ =>
      (i <= i')%nat /\
      exists p, vertex_at m (i' - i) j' = Ok p /\
                find (has_coord c) (mesh_vertices m) = Some p
  end.
Proof.
  revert i; induction m as [|t m IH]; intros i; [reflexivity|].
  cbn [where_from]. unfold where_triangle.
  change (mesh_vertices (t :: m)) with (v0 t :: v1 t :: v2 t :: mesh_vertices m).
  cbn [find].
  pose proof (where_point_head i 0 c (v0 t)) as H0.
  pose proof (where_point_head i 1 c (v1 t)) as H1.
  pose proof (where_point_head i 2 c (v2 t)) as H2.
  destruct (has_coord c (v0 t)).
  { destruct H0 as (k & rest & ->). cbn. split; [lia|].
    replace (i - i)%nat with 0%nat by lia. eauto. }
  rewrite H0. cbn [app]. destruct (has_coord c (v1 t)).
  { destruct H1 as (k & rest & ->). cbn. split; [lia|].
    replace (i - i)%nat with 0%nat by lia. eauto. }
  rewrite H1. cbn [app]. destruct (has_coord c (v2 t)).
  { destruct H2 as (k & rest & ->). cbn. split; [lia|].
    replace (i - i)%nat with 0%nat by lia. eauto. }
  rewrite H2. cbn [app]. specialize (IH (S i)).
  destruct (where_from (S i) c m) as [|[[i' j'] k'] w]; [exact IH|].
  destruct IH as (Hi & p & Hp & Hf). split; [lia|].
  exists p. split; [|exact Hf].
  replace (i' - i)%nat with (S (i' - S i)) by lia. exact Hp.
Qed.

Lemma extreme_point_find (m : Mesh) (c : R) :
  extreme_point m c =
  Ok (match find (has_coord c) (mesh_vertices m) with
      | Some p => p
      | None => mkPoint 0 c 0
      end).
Proof.
  unfold extreme_point, np_where_eq.
  pose proof (where_from_find c m 0) as H.
  destruct (where_from 0 c m) as [|[[i j] k] w].
  - rewrite H. reflexivity.
  - destruct H as (_ & p & Hp & ->).
    replace (i - 0)%nat with i in Hp by lia. exact Hp.
Qed.

Lemma has_coord_true (c : R) (p : Point) :
  has_coord c p = true <-> px p = c \/ py p = c \/ pz p = c.
Proof. unfold has_coord. apply bool_decide_eq_true. Qed.

Lemma find_has_coord_attained (m : Mesh) (c : R) (k : Point -> R) :
  (k = px \/ k = py \/ k = pz) ->
  (exists v, In v (mesh_vertices m) /\ k v = c) ->
  exists p, find (has_coord c) (mesh_vertices m) = Some p.
Proof.
  intros Hk (v & Hv & Hc).
  destruct (find (has_coord c) (mesh_vertices m)) as [p|] eqn:Hf; [eauto|].
  pose proof (find_none _ _ Hf v Hv) as Hn.
  assert (Ht : has_coord c v = true).
  { apply has_coord_true. destruct Hk as [->|[->| ->]]; tauto. }
  congruence.
Qed.

End Extremal.

(** X3.  What [boundingBox] stores as extremal points on a solid with at
    least one facet: [ymaxPoint] is the first vertex, in facet/vertex scan
    order, that has some coordinate (x, y or z) equal to ymax, and
    [yminPoint] the first one that has some coordinate equal to ymin.  So
    each is a vertex of the solid, and the fallback point (0, bound, 0) is
    never stored. *)
Theorem extremal_points_first_match (s : solidSTL) :
  mesh s <> [] ->
  exists s',
    boundingBox s = (Ok tt, s') /\
    find (has_coord (ymax (bb s'))) (mesh_vertices (mesh s)) = Some (ymaxPoint s') /\
    find (has_coord (ymin (bb s'))) (mesh_vertices (mesh s)) = Some (yminPoint s') /\
    In (ymaxPoint s') (mesh_vertices (mesh s)) /\
    In (yminPoint s') (mesh_vertices (mesh s)) /\
    (px (ymaxPoint s') = ymax (bb s') \/ py (ymaxPoint s') = ymax (bb s') \/
     pz (ymaxPoint s') = ymax (bb s')) /\
    (px (yminPoint s') = ymin (bb s') \/ py (yminPoint s') = ymin (bb s') \/
     pz (yminPoint s') = ymin (bb s')).
Proof.
  intros Hne. destruct (boundingBox_ok s Hne) as (s' & Hrun & Hm & Hb & Hmax & Hmin).
  rewrite Hm in Hb, Hmax, Hmin.
  destruct (is_bbox_attained _ _ Hb) as (_ & _ & Hlo & Hhi & _).
  destruct (find_has_coord_attained (mesh s) (ymax (bb s')) py) as [p1 Hp1]; [tauto|exact Hhi|].
  destruct (find_has_coord_attained (mesh s) (ymin (bb s')) py) as [p0 Hp0]; [tauto|exact Hlo|].
  rewrite extreme_point_find, Hp1 in Hmax. rewrite extreme_point_find, Hp0 in Hmin.
  injection Hmax as Hmax. injection Hmin as Hmin. subst p1 p0.
  exists s'. split; [exact Hrun|]. split; [exact Hp1|]. split; [exact Hp0|].
  apply find_some in Hp1 as [Hi1 Hc1]. apply find_some in Hp0 as [Hi0 Hc0].
  apply has_coord_true in Hc1. apply has_coord_true in Hc0. tauto.
Qed.

Lemma extremal_points_first_match_witness :
  exists s',
    boundingBox (blank [facet_5]) = (Ok tt, s') /\
    find (has_coord (ymax (bb s'))) (mesh_vertices [facet_5]) = Some (ymaxPoint s').
Proof.
  destruct (extremal_points_first_match (blank [facet_5])) as (s' & H1 & H2 & _).
  - simpl. discriminate.
  - exists s'. split; assumption.
Defined.

(** X4.  A surface without facets cannot be built: numpy's [min] of an
    empty array raises ValueError in the first [boundingBox()].  On a
    solid whose mesh is empty, [boundingBox], [translate],
    [centerGeometry], [scale] with positive factors and [rotate] with
    accepted units all raise that error and leave the solid as it was. *)
Theorem empty_mesh_raises (fp : string) (s : solidSTL) (a b c : R) (units : string) :
  let e := ValueError "zero-size array to reduction operation minimum which has no identity" in
  __init__ fp (Facets []) = Raise e /\
  (mesh s = [] ->
   boundingBox s = (Raise e, s) /\
   translate a b c s = (Raise e, s) /\
   centerGeometry s = (Raise e, s) /\
   (0 < a -> 0 < b -> 0 < c -> scale a b c s = (Raise e, s)) /\
   (units = "degrees" \/ units = "radians" -> rotate a b c units s = (Raise e, s))).
Proof.
  intros e. split; [reflexivity|]. intros Hm.
  assert (Hbb : forall s0, mesh s0 = [] -> boundingBox s0 = (Raise e, s0)).
  { intros s0 H0. unfold boundingBox. run_monad. rewrite H0. reflexivity. }
  assert (Hset : set_mesh [] s = s).
  { clear Hbb. destruct s as [m b0 p q]. simpl in Hm. subst m. reflexivity. }
  split; [by apply Hbb|]. split; [|split; [|split]].
  - unfold translate. run_monad. rewrite Hm. cbn [map_vertices map].
    rewrite Hset. by rewrite Hbb.
  - unfold centerGeometry. run_monad. by rewrite Hbb.
  - intros Ha Hb Hc. unfold scale.
    destruct (decide (a <= 0 \/ b <= 0 \/ c <= 0)) as [H|_]; [lra|].
    run_monad. rewrite Hm. cbn [map_vertices map]. rewrite Hset. by rewrite Hbb.
  - intros [->| ->].
    + rewrite rotate_degrees_run, Hm. cbn [rotate_loop length seq foldl].
      rewrite Hset. by apply Hbb.
    + rewrite rotate_radians_run, Hm. cbn [rotate_loop length seq foldl].
      rewrite Hset. by apply Hbb.
Qed.

Lemma empty_mesh_raises_witness :
  translate 1 2 3 (blank []) =
    (Raise (ValueError "zero-size array to reduction operation minimum which has no identity"),
     blank []) /\
  rotate 10 20 30 "degrees" (blank []) =
    (Raise (ValueError "zero-size array to reduction operation minimum which has no identity"),
     blank []).
Proof.
  destruct (empty_mesh_raises "none.stl" (blank []) 1 2 3 "degrees") as [_ H].
  destruct (H eq_refl) as (_ & Ht & _ & _ & _). split; [exact Ht|].
  destruct (empty_mesh_raises "none.stl" (blank []) 10 20 30 "degrees") as [_ H'].
  destruct (H' eq_refl) as (_ & _ & _ & _ & Hr). apply Hr. left. reflexivity.
Defined.

(** ** Transforms and the cached attributes *)

Section Transforms.

Lemma cache_fresh_unique (s s' : solidSTL) :
  cache_fresh s -> cache_fresh s' -> mesh s = mesh s' -> s = s'.
Proof.
  destruct s as [m b pmax pmin], s' as [m' b' pmax' pmin'].
  unfold cache_fresh; simpl. intros (Hb & H1 & H0) (Hb' & H1' & H0') <-.
  assert (b = b') by (by apply (is_bbox_unique m)). subst b'.
  congruence.
Qed.

(** When the cache is fresh, recomputing it changes nothing. *)
Lemma boundingBox_fresh (s : solidSTL) :
  mesh s <> [] -> cache_fresh s -> boundingBox s = (Ok tt, s).
Proof.
  intros Hne Hc. destruct (boundingBox_ok s Hne) as (s' & Hrun & Hm & Hc').
  rewrite Hrun. f_equal. by apply cache_fresh_unique.
Qed.

Lemma map_vertices_nonempty (f : Point -> Point) (m : Mesh) :
  m <> [] -> map_vertices f m <> [].
Proof. destruct m; [congruence|discriminate]. Qed.

Lemma map_vertices_compose (f g : Point -> Point) (m : Mesh) :
  map_vertices g (map_vertices f m) = map_vertices (fun v => g (f v)) m.
Proof. unfold map_vertices. rewrite map_map. reflexivity. Qed.

Lemma map_vertices_ext (f g : Point -> Point) (m : Mesh) :
  (forall v, f v = g v) -> map_vertices f m = map_vertices g m.
Proof.
  intros H. unfold map_vertices. apply map_ext. intros t. by rewrite !H.
Qed.

Lemma Rmin_scale (a b d : R) : 0 < d -> Rmin (a * d) (b * d) = Rmin a b * d.
Proof. intros Hd. unfold Rmin. repeat destruct (Rle_dec _ _); nra. Qed.

Lemma Rmax_scale (a b d : R) : 0 < d -> Rmax (a * d) (b * d) = Rmax a b * d.
Proof. intros Hd. unfold Rmax. repeat destruct (Rle_dec _ _); nra. Qed.

Lemma amin_scale (d : R) (l : list R) (lo : R) :
  0 < d -> amin l = Ok lo -> amin (map (fun b => b * d) l) = Ok (lo * d).
Proof.
  intros Hd. destruct l as [|a l]; simpl; [discriminate|]. intros [= <-]. f_equal.
  revert a; induction l as [|b l IH]; intros a; simpl; [reflexivity|].
  rewrite Rmin_scale by assumption. apply IH.
Qed.

Lemma amax_scale (d : R) (l : list R) (hi : R) :
  0 < d -> amax l = Ok hi -> amax (map (fun b => b * d) l) = Ok (hi * d).
Proof.
  intros Hd. destruct l as [|a l]; simpl; [discriminate|]. intros [= <-]. f_equal.
  revert a; induction l as [|b l IH]; intros a; simpl; [reflexivity|].
  rewrite Rmax_scale by assumption. apply IH.
Qed.

Lemma is_bbox_scale (x y z : R) (m : Mesh) (b : BoundingBox) :
  0 < x -> 0 < y -> 0 < z -> is_bbox m b ->
  is_bbox (map_vertices (mul_factors x y z) m)
          (mkBB (xmin b * x) (xmax b * x) (ymin b * y) (ymax b * y)
                (zmin b * z) (zmax b * z)).
Proof.
  unfold is_bbox; simpl. intros Hx Hy Hz (H1 & H2 & H3 & H4 & H5 & H6).
  rewrite (axis_map_vertices px _ (fun a => a * x)) by reflexivity.
  rewrite (axis_map_vertices py _ (fun a => a * y)) by reflexivity.
  rewrite (axis_map_vertices pz _ (fun a => a * z)) by reflexivity.
  repeat split; auto using amin_scale, amax_scale.
Qed.

Lemma scale_ok (x y z : R) (s : solidSTL) :
  0 < x -> 0 < y -> 0 < z -> mesh s <> [] ->
  exists s', scale x y z s = (Ok tt, s') /\
             mesh s' = map_vertices (mul_factors x y z) (mesh s) /\
             cache_fresh s'.
Proof.
  intros Hx Hy Hz Hne. unfold scale.
  destruct (decide (x <= 0 \/ y <= 0 \/ z <= 0)) as [H|_]; [lra|].
  run_monad. set (s1 := set_mesh _ s).
  destruct (boundingBox_ok s1) as (s' & Hrun & Hm & Hc).
  { subst s1; simpl. by apply map_vertices_nonempty. }
  exists s'. rewrite Hrun. auto.
Qed.

Lemma rotate_ok (z y x : R) (units : string) (s : solidSTL) :
  units = "degrees" \/ units = "radians" -> mesh s <> [] ->
  exists s', rotate z y x units s = (Ok tt, s') /\
             mesh s' = mesh (snd (rotate z y x units s)) /\
             cache_fresh s'.
Proof.
  intros Hu Hne.
  assert (Hrun : exists rm, rotate z y x units s =
                            boundingBox (set_mesh (rotate_loop rm (mesh s)) s)).
  { destruct Hu as [->| ->]; eexists;
      [apply rotate_degrees_run | apply rotate_radians_run]. }
  destruct Hrun as [rm Hrun]. rewrite Hrun.
  destruct (boundingBox_ok (set_mesh (rotate_loop rm (mesh s)) s)) as (s' & Hb & Hm & Hc).
  { simpl. rewrite rotate_loop_map. by apply map_vertices_nonempty. }
  exists s'. rewrite Hb. auto.
Qed.

Lemma add_offset_add (a b c a' b' c' : R) (v : Point) :
  add_offset a' b' c' (add_offset a b c v) = add_offset (a + a') (b + b') (c + c') v.
Proof. unfold add_offset; simpl. apply point_eq; ring. Qed.

Lemma mul_factors_1 (v : Point) : mul_factors 1 1 1 v = v.
Proof. destruct v. unfold mul_factors; simpl. apply point_eq; ring. Qed.

End Transforms.

(** X5.  On a solid with at least one facet whose cached bounding box is
    that of its vertices, [translate(dx, dy, dz)] returns, adds the offset
    to every vertex, and the new bounding box is the old one moved by the
    same offset; the new cache is that of the moved vertices. *)
Theorem translate_moves_bounding_box (dx dy dz : R) (s : solidSTL) :
  mesh s <> [] ->
  is_bbox (mesh s) (bb s) ->
  exists s',
    translate dx dy dz s = (Ok tt, s') /\
    mesh s' = map_vertices (add_offset dx dy dz) (mesh s) /\
    bb s' = mkBB (xmin (bb s) + dx) (xmax (bb s) + dx)
                 (ymin (bb s) + dy) (ymax (bb s) + dy)
                 (zmin (bb s) + dz) (zmax (bb s) + dz) /\
    cache_fresh s'.
Proof.
  intros Hne Hb. destruct (translate_ok dx dy dz s Hne) as (s' & Hrun & Hm & Hc).
  exists s'. repeat split; try assumption; try apply Hc.
  apply (is_bbox_unique (mesh s')); [apply Hc|].
  rewrite Hm. by apply is_bbox_translate.
Qed.

Lemma translate_moves_bounding_box_witness :
  exists s',
    translate 1 2 3 solid_5 = (Ok tt, s') /\
    bb s' = mkBB (-5 + 1) (5 + 1) (-5 + 2) (5 + 2) (0 + 3) (0 + 3).
Proof.
  destruct (translate_moves_bounding_box 1 2 3 solid_5) as (s' & H1 & _ & H2 & _).
  - simpl. discriminate.
  - pose proof (boundingBox_facet_5 solid_5 eq_refl) as Hrun.
    destruct (boundingBox_ok solid_5) as (s1 & Hrun1 & _ & Hc & _);
      [simpl; discriminate|].
    rewrite Hrun in Hrun1. injection Hrun1 as <-. exact Hc.
  - exists s'. split; assumption.
Defined.

(** X6.  Two translations in a row are the translation by the sum of the
    offsets: on a solid with at least one facet both ways return the same
    solid (vertices and cache; real arithmetic). *)
Theorem translate_compose (a b c a' b' c' : R) (s : solidSTL) :
  mesh s <> [] ->
  exists s1 s2,
    translate a b c s = (Ok tt, s1) /\
    translate a' b' c' s1 = (Ok tt, s2) /\
    translate (a + a') (b + b') (c + c') s = (Ok tt, s2).
Proof.
  intros Hne.
  destruct (translate_ok a b c s Hne) as (s1 & Hrun1 & Hm1 & Hc1).
  assert (Hne1 : mesh s1 <> []) by (rewrite Hm1; by apply map_vertices_nonempty).
  destruct (translate_ok a' b' c' s1 Hne1) as (s2 & Hrun2 & Hm2 & Hc2).
  destruct (translate_ok (a + a') (b + b') (c + c') s Hne) as (s3 & Hrun3 & Hm3 & Hc3).
  exists s1, s2. split; [exact Hrun1|]. split; [exact Hrun2|].
  rewrite Hrun3. f_equal. apply cache_fresh_unique; try assumption.
  rewrite Hm3, Hm2, Hm1, map_vertices_compose.
  apply map_vertices_ext. intros v. symmetry. apply add_offset_add.
Qed.

Lemma translate_compose_witness :
  exists s1 s2,
    translate 1 0 0 solid_5 = (Ok tt, s1) /\
    translate 0 2 0 s1 = (Ok tt, s2) /\
    translate (1 + 0) (0 + 2) (0 + 0) solid_5 = (Ok tt, s2).
Proof. apply (translate_compose 1 0 0 0 2 0 solid_5). simpl. discriminate. Defined.

(** X7.  On a solid with at least one facet whose cached bounding box is
    that of its vertices, [scale(x, y, z)] with three positive factors
    returns, multiplies every vertex component-wise, and the new bounding
    box is the old one multiplied by the factors. *)
Theorem scale_scales_bounding_box (x y z : R) (s : solidSTL) :
  0 < x -> 0 < y -> 0 < z ->
  mesh s <> [] ->
  is_bbox (mesh s) (bb s) ->
  exists s',
    scale x y z s = (Ok tt, s') /\
    mesh s' = map_vertices (mul_factors x y z) (mesh s) /\
    bb s' = mkBB (xmin (bb s) * x) (xmax (bb s) * x)
                 (ymin (bb s) * y) (ymax (bb s) * y)
                 (zmin (bb s) * z) (zmax (bb s) * z) /\
    cache_fresh s'.
Proof.
  intros Hx Hy Hz Hne Hb.
  destruct (scale_ok x y z s Hx Hy Hz Hne) as (s' & Hrun & Hm & Hc).
  exists s'. repeat split; try assumption; try apply Hc.
  apply (is_bbox_unique (mesh s')); [apply Hc|].
  rewrite Hm. by apply is_bbox_scale.
Qed.

Lemma solid_5_fresh : cache_fresh solid_5.
Proof.
  pose proof (boundingBox_facet_5 solid_5 eq_refl) as Hrun.
  destruct (boundingBox_ok solid_5) as (s1 & Hrun1 & _ & Hc); [simpl; discriminate|].
  rewrite Hrun in Hrun1. injection Hrun1 as <-. exact Hc.
Qed.

Lemma scale_scales_bounding_box_witness :
  exists s',
    scale 2 3 4 solid_5 = (Ok tt, s') /\
    bb s' = mkBB (-5 * 2) (5 * 2) (-5 * 3) (5 * 3) (0 * 4) (0 * 4).
Proof.
  destruct (scale_scales_bounding_box 2 3 4 solid_5) as (s' & H1 & _ & H2 & _);
    try lra.
  - simpl. discriminate.
  - apply solid_5_fresh.
  - exists s'. split; assumption.
Defined.

(** X8.  The neutral transforms leave a solid exactly as it was, cache
    included, when it has at least one facet and its cache is fresh:
    [translate(0, 0, 0)], [scale(1, 1, 1)] and [rotate(0, 0, 0)] in either
    unit. *)
Theorem neutral_transforms (s : solidSTL) :
  mesh s <> [] ->
  cache_fresh s ->
  translate 0 0 0 s = (Ok tt, s) /\
  scale 1 1 1 s = (Ok tt, s) /\
  rotate 0 0 0 "degrees" s = (Ok tt, s) /\
  rotate 0 0 0 "radians" s = (Ok tt, s).
Proof.
  intros Hne Hc.
  destruct (translate_ok 0 0 0 s Hne) as (s1 & Hrun1 & Hm1 & Hc1).
  destruct (scale_ok 1 1 1 s) as (s2 & Hrun2 & Hm2 & Hc2); try lra; [assumption|].
  destruct (rotate_ok 0 0 0 "degrees" s) as (s3 & Hrun3 & Hm3 & Hc3); [tauto|assumption|].
  destruct (rotate_ok 0 0 0 "radians" s) as (s4 & Hrun4 & Hm4 & Hc4); [tauto|assumption|].
  rewrite Hrun1, Hrun2, Hrun3, Hrun4.
  assert (Hr : radians 0 = 0) by (unfold radians; lra).
  assert (He : euler2mat 0 0 0 = eye).
  { unfold euler2mat, euler_Ms. destruct (decide (0 = 0)); [reflexivity|contradiction]. }
  repeat split; f_equal; symmetry; apply cache_fresh_unique; try assumption.
  - rewrite Hm1. symmetry. apply map_vertices_id, add_offset_0.
  - rewrite Hm2. symmetry. apply map_vertices_id, mul_factors_1.
  - rewrite Hm3, rotate_degrees_mesh, Hr, He. symmetry. apply map_vertices_id, mat_vec_eye.
  - rewrite Hm4, rotate_radians_mesh, He. symmetry. apply map_vertices_id, mat_vec_eye.
Qed.

Lemma neutral_transforms_witness :
  scale 1 1 1 solid_5 = (Ok tt, solid_5) /\
  rotate 0 0 0 "degrees" solid_5 = (Ok tt, solid_5).
Proof.
  destruct (neutral_transforms solid_5) as (_ & H1 & H2 & _).
  - simpl. discriminate.
  - apply solid_5_fresh.
  - split; assumption.
Defined.

(** X9.  [centerGeometry] is idempotent: on a solid with at least one
    facet, centring the centred solid returns it unchanged. *)
Theorem centerGeometry_idempotent (s : solidSTL) :
  mesh s <> [] ->
  exists s1,
    centerGeometry s = (Ok tt, s1) /\
    centerGeometry s1 = (Ok tt, s1).
Proof.
  intros Hne.
  destruct (centerGeometry_ok s Hne) as (b & s1 & Hb & Hrun & Hm & Hbb & Hc).
  cbn zeta in Hm, Hbb.
  assert (Hne1 : mesh s1 <> []) by (rewrite Hm; by apply map_vertices_nonempty).
  exists s1. split; [exact Hrun|].
  unfold centerGeometry.
  rewrite (bind_ok _ _ _ _ _ (boundingBox_fresh s1 Hne1 Hc)).
  rewrite (bind_ok get _ _ _ _ eq_refl). cbn zeta.
  rewrite Hbb; cbn [xmin xmax ymin ymax zmin zmax].
  match goal with
  | |- translate ?ox ?oy ?oz s1 = _ =>
      replace ox with 0 by lra; replace oy with 0 by lra; replace oz with 0 by lra
  end.
  destruct (translate_ok 0 0 0 s1 Hne1) as (s2 & Hrun2 & Hm2 & Hc2).
  rewrite Hrun2. f_equal. apply cache_fresh_unique; try assumption.
  rewrite Hm2. apply map_vertices_id, add_offset_0.
Qed.

Lemma centerGeometry_idempotent_witness :
  exists s1,
    centerGeometry (blank [facet_off]) = (Ok tt, s1) /\
    centerGeometry s1 = (Ok tt, s1).
Proof. apply (centerGeometry_idempotent (blank [facet_off])). simpl. discriminate. Defined.

(** X10.  No transform leaves a stale cache: on a solid with at least one
    facet, [translate], [centerGeometry], [scale] with positive factors
    and [rotate] with accepted units return, keep the number of facets,
    and leave the bounding box and the extremal points that
    [boundingBox] computes from the new vertices. *)
Theorem transforms_refresh_cache
    (s : solidSTL) (a b c : R) (units : string) :
  mesh s <> [] ->
  (exists s', translate a b c s = (Ok tt, s') /\
              length (mesh s') = length (mesh s) /\ cache_fresh s') /\
  (exists s', centerGeometry s = (Ok tt, s') /\
              length (mesh s') = length (mesh s) /\ cache_fresh s') /\
  (0 < a -> 0 < b -> 0 < c ->
   exists s', scale a b c s = (Ok tt, s') /\
              length (mesh s') = length (mesh s) /\ cache_fresh s') /\
  (units = "degrees" \/ units = "radians" ->
   exists s', rotate a b c units s = (Ok tt, s') /\
              length (mesh s') = length (mesh s) /\ cache_fresh s').
Proof.
  intros Hne.
  assert (Hlen : forall f, length (map_vertices f (mesh s)) = length (mesh s))
    by (intros f; unfold map_vertices; apply length_map).
  split; [|split; [|split]].
  - destruct (translate_ok a b c s Hne) as (s' & Hrun & Hm & Hc).
    exists s'. rewrite Hm. auto.
  - destruct (centerGeometry_ok s Hne) as (b0 & s' & _ & Hrun & Hm & _ & Hc).
    exists s'. cbn zeta in Hm. rewrite Hm. auto.
  - intros Ha Hb Hc0. destruct (scale_ok a b c s Ha Hb Hc0 Hne) as (s' & Hrun & Hm & Hc).
    exists s'. rewrite Hm. auto.
  - intros Hu. destruct (rotate_ok a b c units s Hu Hne) as (s' & Hrun & Hm & Hc).
    exists s'. split; [exact Hrun|]. split; [|exact Hc].
    rewrite Hm. destruct Hu as [->| ->].
    + rewrite rotate_degrees_mesh. apply Hlen.
    + rewrite rotate_radians_mesh. apply Hlen.
Qed.

Lemma transforms_refresh_cache_witness :
  exists s', rotate 10 20 30 "degrees" solid_5 = (Ok tt, s') /\
             length (mesh s') = length (mesh solid_5) /\ cache_fresh s'.
Proof.
  destruct (transforms_refresh_cache solid_5 10 20 30 "degrees") as (_ & _ & _ & H).
  - simpl. discriminate.
  - apply H. left. reflexivity.
Defined.

(** ** Rotations *)

Section Rigid.

Lemma sin_cos_1 (a : R) : sin a * sin a + cos a * cos a = 1.
Proof. pose proof (sin2_cos2 a) as H. unfold Rsqr in H. exact H. Qed.

Lemma rot_z_dist2 (a : R) (v w : Point) :
  dist2 (mat_vec (rot_z a) v) (mat_vec (rot_z a) w) = dist2 v w.
Proof.
  unfold dist2, mat_vec, rot_z; cbn.
  transitivity ((sin a * sin a + cos a * cos a) *
                ((px v - px w) * (px v - px w) + (py v - py w) * (py v - py w)) +
                (pz v - pz w) * (pz v - pz w)); [ring|].
  rewrite sin_cos_1. ring.
Qed.

Lemma rot_y_dist2 (a : R) (v w : Point) :
  dist2 (mat_vec (rot_y a) v) (mat_vec (rot_y a) w) = dist2 v w.
Proof.
  unfold dist2, mat_vec, rot_y; cbn.
  transitivity ((sin a * sin a + cos a * cos a) *
                ((px v - px w) * (px v - px w) + (pz v - pz w) * (pz v - pz w)) +
                (py v - py w) * (py v - py w)); [ring|].
  rewrite sin_cos_1. ring.
Qed.

Lemma rot_x_dist2 (a : R) (v w : Point) :
  dist2 (mat_vec (rot_x a) v) (mat_vec (rot_x a) w) = dist2 v w.
Proof.
  unfold dist2, mat_vec, rot_x; cbn.
  transitivity ((sin a * sin a + cos a * cos a) *
                ((py v - py w) * (py v - py w) + (pz v - pz w) * (pz v - pz w)) +
                (px v - px w) * (px v - px w)); [ring|].
  rewrite sin_cos_1. ring.
Qed.

Lemma euler2mat_dist2 (z y x : R) (v w : Point) :
  dist2 (mat_vec (euler2mat z y x) v) (mat_vec (euler2mat z y x) w) = dist2 v w.
Proof.
  rewrite euler2mat_product, !mat_vec_dot.
  rewrite rot_x_dist2, rot_y_dist2, rot_z_dist2. reflexivity.
Qed.

(** The matrix of a rotation about y only. *)
Lemma euler2mat_pitch (a : R) : euler2mat 0 a 0 = rot_y a.
Proof.
  rewrite euler2mat_product, rot_x_0, rot_z_0, dot_eye_l, dot_eye_r. reflexivity.
Qed.

Lemma rot_y_add (a b : R) : dot (rot_y b) (rot_y a) = rot_y (a + b).
Proof.
  unfold dot, rot_y; cbn. rewrite cos_plus, sin_plus. apply mat3_eq; ring.
Qed.

Lemma radians_add (a b : R) : radians (a + b) = radians a + radians b.
Proof. unfold radians. lra. Qed.

Lemma setaoa_mesh (a : R) (units : string) (s : solidSTL) :
  units = "degrees" \/ units = "radians" ->
  mesh (snd (setaoa a units s)) =
  map_vertices (mat_vec (rot_y (if decide (units = "degrees") then radians a else a)))
               (mesh s).
Proof.
  unfold setaoa. intros [->| ->].
  - rewrite rotate_degrees_mesh. assert (Hr : radians 0 = 0) by (unfold radians; lra).
    rewrite Hr, euler2mat_pitch.
    destruct (decide ("degrees" = "degrees")); [reflexivity|contradiction].
  - rewrite rotate_radians_mesh, euler2mat_pitch.
    destruct (decide ("radians" = "degrees")) as [H|_]; [discriminate H|reflexivity].
Qed.

End Rigid.

(** X11.  [rotate] is a rigid motion: with accepted units and any angles,
    the new vertices are the images of the old ones under one map that
    preserves the distance between any two points (real arithmetic,
    sin^2 + cos^2 = 1). *)
Theorem rotate_preserves_distances (z y x : R) (units : string) (s : solidSTL) :
  units = "degrees" \/ units = "radians" ->
  exists f : Point -> Point,
    mesh (snd (rotate z y x units s)) = map_vertices f (mesh s) /\
    forall v w, dist2 (f v) (f w) = dist2 v w.
Proof.
  intros [->| ->].
  - exists (mat_vec (euler2mat (radians z) (radians y) (radians x))).
    split; [apply rotate_degrees_mesh|]. intros v w. apply euler2mat_dist2.
  - exists (mat_vec (euler2mat z y x)).
    split; [apply rotate_radians_mesh|]. intros v w. apply euler2mat_dist2.
Qed.

Lemma rotate_preserves_distances_witness :
  exists f : Point -> Point,
    mesh (snd (rotate 10 20 30 "degrees" solid_5)) = map_vertices f (mesh solid_5) /\
    forall v w, dist2 (f v) (f w) = dist2 v w.
Proof. apply (rotate_preserves_distances 10 20 30 "degrees" solid_5). left. reflexivity. Defined.

(** X12.  [setaoa(aoa, units)] rotates about the y axis only: with the
    angle a in radians every vertex (x, y, z) becomes
    (cos a * x + sin a * z, y, - sin a * x + cos a * z).  So no y
    coordinate changes, and on a solid with at least one facet whose
    cached bounding box is that of its vertices the call returns with
    ymin and ymax as before. *)
Theorem setaoa_keeps_y (aoa : R) (units : string) (s : solidSTL) :
  units = "degrees" \/ units = "radians" ->
  let a := if decide (units = "degrees") then radians aoa else aoa in
  mesh (snd (setaoa aoa units s)) =
    map_vertices (fun v => mkPoint (cos a * px v + sin a * pz v) (py v)
                                   (- sin a * px v + cos a * pz v)) (mesh s) /\
  (mesh s <> [] -> is_bbox (mesh s) (bb s) ->
   exists s', setaoa aoa units s = (Ok tt, s') /\
              ymin (bb s') = ymin (bb s) /\ ymax (bb s') = ymax (bb s)).
Proof.
  intros Hu a.
  assert (Hmesh : mesh (snd (setaoa aoa units s)) =
    map_vertices (fun v => mkPoint (cos a * px v + sin a * pz v) (py v)
                                   (- sin a * px v + cos a * pz v)) (mesh s)).
  { rewrite setaoa_mesh by assumption. fold a. apply map_vertices_ext. intros v.
    unfold mat_vec, rot_y; cbn. apply point_eq; ring. }
  split; [exact Hmesh|]. intros Hne Hb.
  destruct (rotate_ok 0 aoa 0 units s Hu Hne) as (s' & Hrun & Hm & Hc).
  exists s'. split; [exact Hrun|].
  change (rotate 0 aoa 0 units s) with (setaoa aoa units s) in Hm.
  rewrite Hmesh in Hm. destruct Hc as [Hb' _]. rewrite Hm in Hb'.
  destruct Hb as (_ & _ & H3 & H4 & _). destruct Hb' as (_ & _ & H3' & H4' & _).
  rewrite (axis_map_vertices py _ (fun y => y)) in H3', H4' by reflexivity.
  rewrite map_id in H3', H4'. split; congruence.
Qed.

Lemma setaoa_keeps_y_witness :
  exists s', setaoa 5 "degrees" solid_5 = (Ok tt, s') /\
             ymin (bb s') = -5 /\ ymax (bb s') = 5.
Proof.
  destruct (setaoa_keeps_y 5 "degrees" solid_5) as [_ H].
  - left. reflexivity.
  - apply H; [simpl; discriminate | apply solid_5_fresh].
Defined.

(** X13.  Angles of attack add up: setting a and then b leaves the
    vertices that setting a + b leaves, in either unit; in particular
    [setaoa(-a)] after [setaoa(a)] restores every vertex (real
    arithmetic). *)
Theorem setaoa_adds (a b : R) (units : string) (s : solidSTL) :
  units = "degrees" \/ units = "radians" ->
  mesh (snd (setaoa b units (snd (setaoa a units s)))) =
    mesh (snd (setaoa (a + b) units s)) /\
  mesh (snd (setaoa (- a) units (snd (setaoa a units s)))) = mesh s.
Proof.
  intros Hu.
  assert (Hadd : forall a b,
             mesh (snd (setaoa b units (snd (setaoa a units s)))) =
             mesh (snd (setaoa (a + b) units s))).
  { intros a0 b0. rewrite !setaoa_mesh by assumption. rewrite map_vertices_compose.
    apply map_vertices_ext. intros v. rewrite <- mat_vec_dot, rot_y_add.
    destruct (decide (units = "degrees")); [rewrite radians_add|]; reflexivity. }
  split; [apply Hadd|].
  rewrite Hadd, setaoa_mesh by assumption.
  replace (a + - a) with 0 by lra.
  assert (Hr : radians 0 = 0) by (unfold radians; lra).
  destruct (decide (units = "degrees")); rewrite ?Hr, rot_y_0;
    apply map_vertices_id, mat_vec_eye.
Qed.

Lemma setaoa_adds_witness :
  mesh (snd (setaoa 3 "degrees" (snd (setaoa 2 "degrees" solid_5)))) =
    mesh (snd (setaoa (2 + 3) "degrees" solid_5)) /\
  mesh (snd (setaoa (- 2) "degrees" (snd (setaoa 2 "degrees" solid_5)))) = mesh solid_5.
Proof. apply (setaoa_adds 2 3 "degrees" solid_5). left. reflexivity. Defined.

(** ** Domain sizing: counts and failures *)

Section Counts.

Lemma Zceil_pos (q : R) : 0 < q -> (1 <= Zceil q)%Z.
Proof.
  intros Hq. pose proof (Zceil_bound q) as [_ Hhi].
  assert (H : IZR 0 < IZR (Zceil q)) by lra. apply lt_IZR in H. lia.
Qed.

Lemma Zceil_one (q : R) : 0 < q <= 1 -> Zceil q = 1%Z.
Proof. intros Hq. apply Zceil_eq. lra. Qed.

(** The quotient of an extent of at least 2.5 by a positive double is a
    positive double, and at most 1 when the extent does not exceed the
    cell size. *)
Lemma quotient_pos (x cell q : R) :
  2.5 <= x -> 0 < cell < bpow 1024 -> fdiv (Num x) (Num cell) = Ok (Num q) ->
  0 < q /\ (x <= cell -> q <= 1).
Proof.
  intros Hx [Hc0 Hc1] Hq. rewrite fdiv_num in Hq by lra.
  unfold rnd in Hq. destruct (decide _); [|discriminate Hq]. injection Hq as <-.
  assert (Hi : 0 < / cell) by (by apply Rinv_0_lt_compat).
  split.
  - assert (Hlow : bpow (-1074) <= x / cell).
    { apply Rle_trans with (1 * / bpow 1024).
      - rewrite Rmult_1_l, <- bpow_opp. apply bpow_le. lia.
      - unfold Rdiv. apply Rmult_le_compat; try lra.
        + left. apply Rinv_0_lt_compat, bpow_pos.
        + apply Rinv_le_contravar; lra. }
    pose proof (round64_ge_bpow _ (-1074) ltac:(lia) Hlow).
    pose proof (bpow_pos (-1074)). lra.
  - intros Hle.
    assert (H1 : Rabs (x / cell) <= bpow 0).
    { rewrite bpow_0, Rabs_right.
      - apply Rmult_le_reg_r with cell; [assumption|].
        unfold Rdiv. rewrite Rmult_assoc, Rinv_l by lra. lra.
      - apply Rle_ge. unfold Rdiv. nra. }
    pose proof (round64_le_bpow _ 0 ltac:(lia) H1) as H. rewrite bpow_0 in H.
    apply Rabs_bounds in H. lra.
Qed.

Lemma extent_quotient_pos (lo hi k cell q : R) :
  k <> 0 -> 0 < cell < bpow 1024 ->
  fdiv (clamp (fmul (fsub (Num hi) (Num lo)) (Num k))) (Num cell) = Ok (Num q) ->
  (1 <= Zceil q)%Z /\
  (forall x, clamp (fmul (fsub (Num hi) (Num lo)) (Num k)) = Num x -> x <= cell ->
             Zceil q = 1%Z).
Proof.
  intros Hk Hc Hq.
  destruct (extent_cases lo hi k Hk) as [(x & E & Hx)|E]; rewrite E in *.
  - destruct (quotient_pos x cell q Hx Hc Hq) as [Hpos Hone]. split.
    + by apply Zceil_pos.
    + intros x' [= <-] Hle. apply Zceil_one. auto.
  - unfold fdiv in Hq. destruct (decide (cell = 0)); discriminate Hq.
Qed.

(** Within the single-precision range and with a cell size of at least
    2^-126 in size the three quotients are finite. *)
Lemma quotients_in_range (b : BoundingBox) (cell : R) :
  bb_float32 b -> bpow (-126) <= Rabs cell ->
  fdiv (clamp (fmul (fsub (Num (xmax b)) (Num (xmin b))) (Num 12))) (Num cell) =
    Ok (Num (round64 (Rmax (round64 (round64 (xmax b - xmin b) * 12)) 2.5 / cell))) /\
  fdiv (clamp (fmul (fsub (Num (ymax b)) (Num (ymin b))) (Num 4))) (Num cell) =
    Ok (Num (round64 (Rmax (round64 (round64 (ymax b - ymin b) * 4)) 2.5 / cell))) /\
  fdiv (clamp (fmul (fsub (Num (zmax b)) (Num (zmin b))) (Num 4))) (Num cell) =
    Ok (Num (round64 (Rmax (round64 (round64 (zmax b - zmin b) * 4)) 2.5 / cell))).
Proof.
  intros (X0 & X1 & Y0 & Y1 & Z0 & Z1) Hc.
  assert (H12 : Rabs 12 <= 16) by (rewrite Rabs_right; lra).
  assert (H4 : Rabs 4 <= 16) by (rewrite Rabs_right; lra).
  destruct (extent_in_range _ _ 12 X0 X1 H12) as [-> [Hx0 Hx1]].
  destruct (extent_in_range _ _ 4 Y0 Y1 H4) as [-> [Hy0 Hy1]].
  destruct (extent_in_range _ _ 4 Z0 Z1 H4) as [-> [Hz0 Hz1]].
  repeat split; apply quotient_in_range; try assumption; rewrite Rabs_right; lra.
Qed.

Lemma float32_range_1024 (x : R) : -1024 <= x <= 1024 -> float32_range x.
Proof.
  intros Hx. unfold float32_range.
  apply Rle_trans with (bpow 10); [rewrite bpow_10; apply Rabs_le; lra|apply bpow_le; lia].
Qed.

Lemma bpow_m126_small : bpow (-126) <= / 1024.
Proof.
  apply Rle_trans with (bpow (-10)); [apply bpow_le; lia|].
  change (-10)%Z with (- (10))%Z. rewrite bpow_opp, bpow_10. lra.
Qed.

Lemma solid_5_float32 : bb_float32 (bb solid_5).
Proof. repeat split; apply float32_range_1024; simpl; lra. Qed.

End Counts.

(** X14.  With a positive cell size (a finite double, so below 2^1024)
    every block count that [blockMeshDomain] stores is at least 1, and it
    is exactly 1 on an axis whose (clamped) extent does not exceed the
    cell size; the call returns whenever the three quotients are
    finite. *)
Theorem block_counts_at_least_one
    (solid : solidSTL) (cell : R) (snappy : Value)
    (g : gmap string Value) (vs bl : list Value) (tmpl : list Point) :
  g !! "vertices" = Some (VList vs) ->
  Forall2 vec_of vs tmpl ->
  g !! "blocks" = Some (VList bl) ->
  (2 < length bl)%nat ->
  0 < cell < bpow 1024 ->
  let b := bb solid in
  let dx := clamp (fmul (fsub (Num (xmax b)) (Num (xmin b))) (Num 12)) in
  let dy := clamp (fmul (fsub (Num (ymax b)) (Num (ymin b))) (Num 4)) in
  let dz := clamp (fmul (fsub (Num (zmax b)) (Num (zmin b))) (Num 4)) in
  (forall self',
     blockMeshDomain (mkMesher solid cell (VDict g) snappy) = (Ok tt, self') ->
     exists nx ny nz,
       (v <-- item (blockMeshDict self') "blocks" ;; index v 2) =
         Ok (VList [VInt nx; VInt ny; VInt nz]) /\
       (1 <= nx)%Z /\ (1 <= ny)%Z /\ (1 <= nz)%Z /\
       (forall x, dx = Num x -> x <= cell -> nx = 1%Z) /\
       (forall y, dy = Num y -> y <= cell -> ny = 1%Z) /\
       (forall z, dz = Num z -> z <= cell -> nz = 1%Z)) /\
  (forall qx qy qz,
     fdiv dx (Num cell) = Ok (Num qx) ->
     fdiv dy (Num cell) = Ok (Num qy) ->
     fdiv dz (Num cell) = Ok (Num qz) ->
     exists self', blockMeshDomain (mkMesher solid cell (VDict g) snappy) = (Ok tt, self')).
Proof.
  intros Hv Ht Hb Hs Hc b dx dy dz. split.
  - intros self' Hrun.
    assert (Hne : cell <> 0) by lra.
    destruct (extent_quotient_cases (xmin b) (xmax b) 12 cell ltac:(lra) Hne)
      as [[qx Hx]|Hx].
    2:{ rewrite (blockMeshDomain_overflow solid cell snappy g vs tmpl Hv Ht Hne) in Hrun
          by (left; exact Hx).
        discriminate Hrun. }
    destruct (extent_quotient_cases (ymin b) (ymax b) 4 cell ltac:(lra) Hne)
      as [[qy Hy]|Hy].
    2:{ rewrite (blockMeshDomain_overflow solid cell snappy g vs tmpl Hv Ht Hne) in Hrun
          by (right; left; exact Hy).
        discriminate Hrun. }
    destruct (extent_quotient_cases (zmin b) (zmax b) 4 cell ltac:(lra) Hne)
      as [[qz Hz]|Hz].
    2:{ rewrite (blockMeshDomain_overflow solid cell snappy g vs tmpl Hv Ht Hne) in Hrun
          by (right; right; exact Hz).
        discriminate Hrun. }
    rewrite (blockMeshDomain_run solid cell snappy g vs tmpl Hv Ht bl qx qy qz Hb Hs Hx Hy Hz)
      in Hrun.
    injection Hrun as <-. exists (Zceil qx), (Zceil qy), (Zceil qz).
    cbn [blockMeshDict]. split; [by apply blocks_slot_read|].
    destruct (extent_quotient_pos (xmin b) (xmax b) 12 cell qx ltac:(lra) Hc Hx) as [X1 X2].
    destruct (extent_quotient_pos (ymin b) (ymax b) 4 cell qy ltac:(lra) Hc Hy) as [Y1 Y2].
    destruct (extent_quotient_pos (zmin b) (zmax b) 4 cell qz ltac:(lra) Hc Hz) as [Z1 Z2].
    repeat split; assumption.
  - intros qx qy qz Hx Hy Hz. eexists.
    by apply (blockMeshDomain_run solid cell snappy g vs tmpl Hv Ht bl qx qy qz).
Qed.

Lemma block_counts_at_least_one_witness :
  exists self' nx ny nz,
    blockMeshDomain (mesher_of solid_5 128) = (Ok tt, self') /\
    (v <-- item (blockMeshDict self') "blocks" ;; index v 2) =
      Ok (VList [VInt nx; VInt ny; VInt nz]) /\
    (1 <= nx)%Z /\ (1 <= ny)%Z /\ (1 <= nz)%Z /\ nx = 1%Z.
Proof.
  destruct (block_counts_at_least_one solid_5 128 (VDict template_snappyHexMeshDict) _ _ _ _
              template_vertices unit_cube_vec_of template_blocks_entry)
    as [Hstored Hreturns].
  - simpl. lia.
  - split; [lra|]. apply Rlt_le_trans with (bpow 10); [rewrite bpow_10; lra|apply bpow_le; lia].
  - cbn [bb solid_5 xmin xmax ymin ymax zmin zmax] in Hstored, Hreturns.
    rewrite extent_120, extent_40, extent_flat in Hstored, Hreturns.
    assert (H128 : bpow (-126) <= Rabs 128).
    { rewrite Rabs_right by lra. pose proof bpow_m126_small. lra. }
    destruct (Hreturns (round64 (120 / 128)) (round64 (40 / 128)) (round64 (2.5 / 128)))
      as [self' Hrun].
    + apply quotient_in_range; [|exact H128].
      rewrite Rabs_right by lra.
      apply Rle_trans with (bpow 10); [rewrite bpow_10; lra|apply bpow_le; lia].
    + apply quotient_in_range; [|exact H128].
      rewrite Rabs_right by lra.
      apply Rle_trans with (bpow 10); [rewrite bpow_10; lra|apply bpow_le; lia].
    + apply quotient_in_range; [|exact H128].
      rewrite Rabs_right by lra.
      apply Rle_trans with (bpow 10); [rewrite bpow_10; lra|apply bpow_le; lia].
    + destruct (Hstored self' Hrun) as (nx & ny & nz & H1 & H2 & H3 & H4 & H5 & _).
      exists self', nx, ny, nz. unfold mesher_of.
      repeat split; try assumption. apply (H5 120); [reflexivity|lra].
Defined.

(** X15.  On a template with numeric vertices whose [blocks] entry, if
    present, is a list, a failing [blockMeshDomain] has stored nothing: the
    mesher is as before, and the failure is the zero cell size
    (ZeroDivisionError), a quotient extent / baseCellSize that overflows
    to an infinity (OverflowError from [math.ceil]), the missing [blocks]
    entry (KeyError) or a [blocks] list without slot 2 (IndexError). *)
Theorem blockMeshDomain_fails_before_storing
    (solid : solidSTL) (cell : R) (snappy : Value)
    (g : gmap string Value) (vs : list Value) (tmpl : list Point)
    (e : exn) (self' : mesher) :
  g !! "vertices" = Some (VList vs) ->
  Forall2 vec_of vs tmpl ->
  (forall v, g !! "blocks" = Some v -> exists bl, v = VList bl) ->
  blockMeshDomain (mkMesher solid cell (VDict g) snappy) = (Raise e, self') ->
  let b := bb solid in
  let dx := clamp (fmul (fsub (Num (xmax b)) (Num (xmin b))) (Num 12)) in
  let dy := clamp (fmul (fsub (Num (ymax b)) (Num (ymin b))) (Num 4)) in
  let dz := clamp (fmul (fsub (Num (zmax b)) (Num (zmin b))) (Num 4)) in
  self' = mkMesher solid cell (VDict g) snappy /\
  ((cell = 0 /\ e = ZeroDivisionError "float division by zero") \/
   (cell <> 0 /\ e = OverflowError "cannot convert float infinity to integer" /\
    ((exists s, fdiv dx (Num cell) = Ok (Inf s)) \/
     (exists s, fdiv dy (Num cell) = Ok (Inf s)) \/
     (exists s, fdiv dz (Num cell) = Ok (Inf s)))) \/
   (cell <> 0 /\ g !! "blocks" = None /\ e = KeyError "blocks") \/
   (cell <> 0 /\ e = IndexError "list assignment index out of range" /\
    exists bl, g !! "blocks" = Some (VList bl) /\ (length bl <= 2)%nat)).
Proof.
  intros Hv Ht Hlist Hrun b dx dy dz.
  destruct (decide (cell = 0)) as [Hc|Hc].
  { rewrite (blockMeshDomain_zero solid cell snappy g vs tmpl Hv Ht Hc) in Hrun.
    injection Hrun as <- <-. split; [reflexivity|]. left. auto. }
  assert (Hover : (exists s, fdiv dx (Num cell) = Ok (Inf s)) \/
                  (exists s, fdiv dy (Num cell) = Ok (Inf s)) \/
                  (exists s, fdiv dz (Num cell) = Ok (Inf s)) ->
                  self' = mkMesher solid cell (VDict g) snappy /\
                  e = OverflowError "cannot convert float infinity to integer").
  { intros Hinf.
    rewrite (blockMeshDomain_overflow solid cell snappy g vs tmpl Hv Ht Hc Hinf) in Hrun.
    injection Hrun as <- <-. auto. }
  destruct (extent_quotient_cases (xmin b) (xmax b) 12 cell ltac:(lra) Hc) as [[qx Hx]|Hx].
  2:{ destruct Hover as [-> ->]; [by left|]. split; [reflexivity|]. right; left. auto. }
  destruct (extent_quotient_cases (ymin b) (ymax b) 4 cell ltac:(lra) Hc) as [[qy Hy]|Hy].
  2:{ destruct Hover as [-> ->]; [by right; left|]. split; [reflexivity|].
      right; left. auto. }
  destruct (extent_quotient_cases (zmin b) (zmax b) 4 cell ltac:(lra) Hc) as [[qz Hz]|Hz].
  2:{ destruct Hover as [-> ->]; [by right; right|]. split; [reflexivity|].
      right; left. auto. }
  clear Hover.
  destruct (blockMeshDomain_prefix solid cell snappy g vs tmpl Hv Ht qx qy qz Hx Hy Hz)
    as (k & Hpre).
  destruct (g !! "blocks") as [v|] eqn:Hb.
  - destruct (Hlist v eq_refl) as [bl ->].
    destruct (decide (2 < length bl)%nat) as [Hl|Hl].
    + rewrite (blockMeshDomain_run solid cell snappy g vs tmpl Hv Ht bl qx qy qz Hb Hl
                 Hx Hy Hz) in Hrun.
      discriminate Hrun.
    + rewrite Hpre in Hrun. erewrite bind_raise in Hrun.
      2:{ unfold in_blockMeshDict, zoom, at_key, setidx. cbn [blockMeshDict].
          rewrite Hb. destruct (decide (2 < length bl)%nat); [contradiction|].
          reflexivity. }
      injection Hrun as <- <-. unfold set_blockMeshDict; cbn.
      rewrite (insert_id g "blocks" (VList bl)) by assumption.
      split; [reflexivity|]. right. right. right. split; [assumption|].
      split; [reflexivity|]. exists bl. split; [reflexivity|lia].
  - rewrite Hpre in Hrun. erewrite bind_raise in Hrun.
    2:{ unfold in_blockMeshDict, zoom, at_key. cbn [blockMeshDict].
        rewrite Hb. reflexivity. }
    injection Hrun as <- <-. split; [reflexivity|]. right. right. left. auto.
Qed.

Lemma blockMeshDomain_fails_before_storing_witness :
  blockMeshDomain (mkMesher solid_5 0.25 (VDict (<["vertices" := VList unit_cube]> ∅))
                            (VDict template_snappyHexMeshDict)) =
  (Raise (KeyError "blocks"),
   mkMesher solid_5 0.25 (VDict (<["vertices" := VList unit_cube]> ∅))
            (VDict template_snappyHexMeshDict)).
Proof.
  assert (Hx : fdiv (clamp (fmul (fsub (Num 5) (Num (-5))) (Num 12))) (Num 0.25)
               = Ok (Num 480)).
  { rewrite extent_120. apply quotient_num; [lra|lra|reflexivity]. }
  assert (Hy : fdiv (clamp (fmul (fsub (Num 5) (Num (-5))) (Num 4))) (Num 0.25)
               = Ok (Num 160)).
  { rewrite extent_40. apply quotient_num; [lra|lra|reflexivity]. }
  assert (Hz : fdiv (clamp (fmul (fsub (Num 0) (Num 0)) (Num 4))) (Num 0.25)
               = Ok (Num 10)).
  { rewrite extent_flat. apply quotient_num; [lra|lra|reflexivity]. }
  destruct (blockMeshDomain (mkMesher solid_5 0.25 (VDict (<["vertices" := VList unit_cube]> ∅))
                                      (VDict template_snappyHexMeshDict)))
    as [[[]|e] self'] eqn:Hrun.
  - exfalso.
    destruct (blockMeshDomain_prefix solid_5 0.25 (VDict template_snappyHexMeshDict)
                (<["vertices" := VList unit_cube]> ∅) unit_cube unit_cube_points
                ltac:(apply lookup_insert_eq) unit_cube_vec_of 480 160 10 Hx Hy Hz)
      as (k & Hpre).
    rewrite Hpre in Hrun. erewrite bind_raise in Hrun; [discriminate Hrun|].
    unfold in_blockMeshDict, zoom, at_key. cbn [blockMeshDict].
    rewrite lookup_insert_ne by str_ne. rewrite lookup_empty. reflexivity.
  - destruct (blockMeshDomain_fails_before_storing solid_5 0.25
                (VDict template_snappyHexMeshDict) (<["vertices" := VList unit_cube]> ∅)
                unit_cube unit_cube_points e self') as [-> Hcase].
    + apply lookup_insert_eq.
    + apply unit_cube_vec_of.
    + intros v Hv. rewrite lookup_insert_ne in Hv by str_ne.
      rewrite lookup_empty in Hv. discriminate Hv.
    + exact Hrun.
    + cbn [bb solid_5 xmin xmax ymin ymax zmin zmax] in Hcase.
      destruct Hcase as [[Hc _]|[(_ & _ & Hinf)|[(_ & _ & ->)|(_ & _ & bl & Hb & _)]]].
      * lra.
      * exfalso. destruct Hinf as [[s H]|[[s H]|[s H]]]; congruence.
      * reflexivity.
      * rewrite lookup_insert_ne in Hb by str_ne.
        rewrite lookup_empty in Hb. discriminate Hb.
Defined.

(** ** The block, the wake box and the location in mesh *)

Section Margins.

(** Downwind the block starts before 2.5 times the lower bound of the
    solid and ends after the wake box, whatever the rounding. *)
Lemma x_axis_margins (lo hi : R) :
  lo <= 0 <= hi ->
  let L := round64 (hi - lo) in
  let dx := Rmax (round64 (L * 12)) 2.5 in
  let s := round64 (L * 6) in
  round64 (- dx + s) < 2.5 * lo /\ 2.5 * hi + 4 * (hi - lo) < round64 (dx + s).
Proof.
  intros Hb L dx s.
  assert (HL0 : 0 <= hi - lo) by lra.
  pose proof (round64_close_pos (hi - lo) HL0) as HL. fold L in HL.
  assert (HLp : 0 <= L) by (by apply round64_nonneg).
  pose proof (round64_close_pos (L * 12) ltac:(lra)) as HA.
  pose proof (round64_close_pos (L * 6) ltac:(lra)) as HS. fold s in HS.
  pose proof (Rmax_l (round64 (L * 12)) 2.5) as Hd1.
  pose proof (Rmax_r (round64 (L * 12)) 2.5) as Hd2. fold dx in Hd1, Hd2.
  assert (Ht0 : - dx + s <= 0) by lra.
  pose proof (round64_close_neg (- dx + s) Ht0) as H0.
  pose proof (round64_close_pos (dx + s) ltac:(lra)) as H1.
  split; lra.
Qed.

(** Across the wind and vertically the block is symmetric and wider than
    2.5 times the solid. *)
Lemma yz_axis_margins (lo hi : R) :
  lo <= 0 <= hi ->
  let d := Rmax (round64 (round64 (hi - lo) * 4)) 2.5 in
  - d < 2.5 * lo /\ 2.5 * hi < d.
Proof.
  intros Hb d.
  assert (HL0 : 0 <= hi - lo) by lra.
  pose proof (round64_close_pos (hi - lo) HL0) as HL.
  assert (HLp : 0 <= round64 (hi - lo)) by (by apply round64_nonneg).
  pose proof (round64_close_pos (round64 (hi - lo) * 4) ltac:(lra)) as HA.
  pose proof (Rmax_l (round64 (round64 (hi - lo) * 4)) 2.5) as Hd1.
  pose proof (Rmax_r (round64 (round64 (hi - lo) * 4)) 2.5) as Hd2. fold d in Hd1, Hd2.
  split; lra.
Qed.

Lemma fmul_m1 (d : R) :
  representable d -> Rabs d <= bpow 1023 -> fmul (Num (-1)) (Num d) = Num (- d).
Proof.
  intros Hr Hd. unfold fmul. replace (-1 * d) with (- d) by lra.
  apply rnd_representable; [by apply representable_opp|by rewrite Rabs_Ropp].
Qed.

Lemma fmul_1 (d : R) :
  representable d -> Rabs d <= bpow 1023 -> fmul (Num 1) (Num d) = Num d.
Proof.
  intros Hr Hd. unfold fmul. rewrite Rmult_1_l. by apply rnd_representable.
Qed.

End Margins.

Section Block.

Variables (solid : solidSTL) (cell : R) (snappy : Value).
Variables (g : gmap string Value) (bl : list Value).

Hypothesis Hvertices : g !! "vertices" = Some (VList unit_cube).
Hypothesis Hblocks : g !! "blocks" = Some (VList bl).
Hypothesis Hslot : (2 < length bl)%nat.
Hypothesis Hrange : bb_float32 (bb solid).
Hypothesis Hcell : bpow (-126) <= cell.

(** [blockMeshDomain] on the unit-cube template, within the
    single-precision range. *)
Lemma blockMeshDomain_unit_cube :
  let b := bb solid in
  let L := round64 (xmax b - xmin b) in
  let dx := Rmax (round64 (L * 12)) 2.5 in
  let dy := Rmax (round64 (round64 (ymax b - ymin b) * 4)) 2.5 in
  let dz := Rmax (round64 (round64 (zmax b - zmin b) * 4)) 2.5 in
  let s := round64 (L * 6) in
  exists g',
    blockMeshDomain (mkMesher solid cell (VDict g) snappy) =
      (Ok tt, mkMesher solid cell (VDict g') snappy) /\
    g' !! "vertices" =
      Some (block_corners (round64 (- dx + s)) (round64 (dx + s))
                          (- dy) dy (- dz) dz).
Proof.
  intros b L dx dy dz s.
  assert (Hc : bpow (-126) <= Rabs cell).
  { pose proof (bpow_pos (-126)). rewrite Rabs_right; lra. }
  destruct (quotients_in_range b cell Hrange Hc) as (Hx & Hy & Hz).
  pose proof (blockMeshDomain_run solid cell snappy g unit_cube unit_cube_points
                Hvertices unit_cube_vec_of bl _ _ _ Hblocks Hslot Hx Hy Hz) as Hrun.
  destruct Hrange as (X0 & X1 & Y0 & Y1 & Z0 & Z1).
  assert (H12 : Rabs 12 <= 16) by (rewrite Rabs_right; lra).
  assert (H6 : Rabs 6 <= 16) by (rewrite Rabs_right; lra).
  assert (H4 : Rabs 4 <= 16) by (rewrite Rabs_right; lra).
  destruct (extent_in_range _ _ 12 X0 X1 H12) as [Ex [Hx0 Hx1]].
  destruct (extent_in_range _ _ 4 Y0 Y1 H4) as [Ey [Hy0 Hy1]].
  destruct (extent_in_range _ _ 4 Z0 Z1 H4) as [Ez [Hz0 Hz1]].
  destruct (scaled_in_range _ _ 6 X0 X1 H6) as [Es Hs].
  fold b in Ex, Ey, Ez, Es, Hx0, Hx1, Hy0, Hy1, Hz0, Hz1, Hs, Hrun.
  fold L in Ex, Es, Hx0, Hx1, Hs. fold dx in Ex, Hx0, Hx1. fold dy in Ey, Hy0, Hy1.
  fold dz in Ez, Hz0, Hz1. fold s in Es, Hs.
  rewrite Ex, Ey, Ez, Es in Hrun.
  eexists. split; [exact Hrun|]. rewrite lookup_insert_eq. f_equal.
  assert (Rx : representable dx)
    by (apply representable_Rmax; [apply round64_representable|apply representable_2_5]).
  assert (Ry : representable dy)
    by (apply representable_Rmax; [apply round64_representable|apply representable_2_5]).
  assert (Rz : representable dz)
    by (apply representable_Rmax; [apply round64_representable|apply representable_2_5]).
  pose proof (bpow_le 134 1023 ltac:(lia)) as Hbig.
  replace 134%Z with (1 + 133)%Z in Hbig by lia. rewrite bpow_add, bpow_1 in Hbig.
  pose proof (bpow_pos 133) as Hpos.
  assert (Bx : Rabs dx <= bpow 1023) by (rewrite Rabs_right; lra).
  assert (By : Rabs dy <= bpow 1023) by (rewrite Rabs_right; lra).
  assert (Bz : Rabs dz <= bpow 1023) by (rewrite Rabs_right; lra).
  assert (A0 : fadd (Num (- dx)) (Num s) = Num (round64 (- dx + s))).
  { unfold fadd. apply rnd_finite. apply Rabs_bounds in Hs. apply Rabs_le. lra. }
  assert (A1 : fadd (Num dx) (Num s) = Num (round64 (dx + s))).
  { unfold fadd. apply rnd_finite. apply Rabs_bounds in Hs. apply Rabs_le. lra. }
  unfold block_corners, unit_cube_points. cbn [map px py pz].
  rewrite !(fmul_m1 dx Rx Bx), !(fmul_1 dx Rx Bx), !(fmul_m1 dy Ry By), !(fmul_1 dy Ry By),
    !(fmul_m1 dz Rz Bz), !(fmul_1 dz Rz Bz), !A0, !A1.
  reflexivity.
Qed.

End Block.

(** X16.  With the unit-cube template, a bounding box within the
    single-precision range and a cell size of at least 2^-126, the block
    that [blockMeshDomain] stores is the box from
    (-dx + 6L, -dy, -dz) to (dx + 6L, dy, dz), with L = xmax - xmin,
    dx = max(12L, 2.5), dy = max(4(ymax - ymin), 2.5),
    dz = max(4(zmax - zmin), 2.5) and every operation rounded to
    binary64; whenever the bounding box of the solid contains the origin
    (as it does after centring) it lies strictly inside that block on all
    six sides. *)
Theorem block_contains_solid
    (solid : solidSTL) (cell : R) (snappy : Value)
    (g : gmap string Value) (bl : list Value) :
  g !! "vertices" = Some (VList unit_cube) ->
  g !! "blocks" = Some (VList bl) ->
  (2 < length bl)%nat ->
  bb_float32 (bb solid) ->
  bpow (-126) <= cell ->
  xmin (bb solid) <= 0 <= xmax (bb solid) ->
  ymin (bb solid) <= 0 <= ymax (bb solid) ->
  zmin (bb solid) <= 0 <= zmax (bb solid) ->
  let b := bb solid in
  let L := round64 (xmax b - xmin b) in
  let dx := Rmax (round64 (L * 12)) 2.5 in
  let dy := Rmax (round64 (round64 (ymax b - ymin b) * 4)) 2.5 in
  let dz := Rmax (round64 (round64 (zmax b - zmin b) * 4)) 2.5 in
  let s := round64 (L * 6) in
  exists self',
    blockMeshDomain (mkMesher solid cell (VDict g) snappy) = (Ok tt, self') /\
    item (blockMeshDict self') "vertices" =
      Ok (block_corners (round64 (- dx + s)) (round64 (dx + s)) (- dy) dy (- dz) dz) /\
    round64 (- dx + s) < xmin b /\ xmax b < round64 (dx + s) /\
    - dy < ymin b /\ ymax b < dy /\
    - dz < zmin b /\ zmax b < dz.
Proof.
  intros Hv Hb Hs Hr Hc Hx Hy Hz b L dx dy dz s.
  destruct (blockMeshDomain_unit_cube solid cell snappy g bl Hv Hb Hs Hr Hc)
    as (g' & Hrun & Hg').
  eexists. split; [exact Hrun|].
  cbn [blockMeshDict item]. rewrite Hg'. split; [reflexivity|].
  destruct (x_axis_margins (xmin b) (xmax b) Hx) as [X0 X1].
  destruct (yz_axis_margins (ymin b) (ymax b) Hy) as [Y0 Y1].
  destruct (yz_axis_margins (zmin b) (zmax b) Hz) as [Z0 Z1].
  fold L in X0, X1. fold dx in X0, X1. fold s in X0, X1. fold dy in Y0, Y1. fold dz in Z0, Z1.
  fold b in Hx, Hy, Hz.
  repeat split; lra.
Qed.

Lemma block_contains_solid_witness :
  exists self' x0 x1 y0 y1 z0 z1,
    blockMeshDomain (mesher_of solid_5 0.25) = (Ok tt, self') /\
    item (blockMeshDict self') "vertices" = Ok (block_corners x0 x1 y0 y1 z0 z1) /\
    x0 < -5 /\ 5 < x1 /\ y0 < -5 /\ 5 < y1 /\ z0 < 0 /\ 0 < z1.
Proof.
  destruct (block_contains_solid solid_5 0.25 (VDict template_snappyHexMeshDict)
              template_blockMeshDict template_blocks
              template_vertices template_blocks_entry)
    as (self' & H1 & H2 & H3);
    [simpl; lia|apply solid_5_float32|pose proof bpow_m126_small; lra|simpl; lra..|].
  eexists self', _, _, _, _, _, _. split; [exact H1|]. split; [exact H2|exact H3].
Defined.

(** X17.  [blockMeshDomain] followed by [snappyHexMesh], with the
    unit-cube template, a bounding box within the single-precision range
    that contains the origin and a cell size of at least 2^-126: the wake
    box [downwindbox] contains the bounding box of the solid and lies
    strictly inside the block, and [locationInMesh] is the min corner of
    the wake box, so strictly inside the block. *)
Theorem wake_box_inside_block
    (solid : solidSTL) (cell : R)
    (g : gmap string Value) (bl : list Value)
    (d geo cmc rr : gmap string Value) (l0 l1 l2 : Value) :
  g !! "vertices" = Some (VList unit_cube) ->
  g !! "blocks" = Some (VList bl) ->
  (2 < length bl)%nat ->
  d !! "geometry" = Some (VDict geo) ->
  d !! "castellatedMeshControls" = Some (VDict cmc) ->
  cmc !! "refinementRegions" = Some (VDict rr) ->
  cmc !! "locationInMesh" = Some (VList [l0; l1; l2]) ->
  bb_float32 (bb solid) ->
  bpow (-126) <= cell ->
  xmin (bb solid) <= 0 <= xmax (bb solid) ->
  ymin (bb solid) <= 0 <= ymax (bb solid) ->
  zmin (bb solid) <= 0 <= zmax (bb solid) ->
  exists self1 self2 x0 x1 y0 y1 z0 z1 lx ly lz ux uy uz,
    blockMeshDomain (mkMesher solid cell (VDict g) (VDict d)) = (Ok tt, self1) /\
    snappyHexMesh self1 = (Ok tt, self2) /\
    item (blockMeshDict self2) "vertices" = Ok (block_corners x0 x1 y0 y1 z0 z1) /\
    path (snappyHexMeshDict self2) ["geometry"; "downwindbox"; "min"] =
      Ok (VList [VNum lx; VNum ly; VNum lz]) /\
    path (snappyHexMeshDict self2) ["geometry"; "downwindbox"; "max"] =
      Ok (VList [VNum ux; VNum uy; VNum uz]) /\
    path (snappyHexMeshDict self2) ["castellatedMeshControls"; "locationInMesh"] =
      Ok (VList [VNum lx; VNum ly; VNum lz]) /\
    (x0 < lx /\ lx <= xmin (bb solid) /\ xmax (bb solid) <= ux /\ ux < x1) /\
    (y0 < ly /\ ly <= ymin (bb solid) /\ ymax (bb solid) <= uy /\ uy < y1) /\
    (z0 < lz /\ lz <= zmin (bb solid) /\ zmax (bb solid) <= uz /\ uz < z1).
Proof.
  intros Hv Hb Hs Hgeo Hcmc Hrr Hloc Hr Hc Hx Hy Hz.
  destruct (blockMeshDomain_unit_cube solid cell (VDict d) g bl Hv Hb Hs Hr Hc)
    as (g' & Hrun1 & Hg').
  pose proof (snappyHexMesh_run solid cell (VDict g') d geo cmc rr [l0; l1; l2]
                Hgeo Hcmc Hrr Hloc) as Hrun2.
  cbn zeta in Hrun2. specialize (Hrun2 ltac:(simpl; lia)).
  eexists _, _, _, _, _, _, _, _, _, _, _, _, _, _.
  split; [exact Hrun1|]. split; [exact Hrun2|].
  cbn [blockMeshDict snappyHexMeshDict item path rbind]. rewrite Hg'.
  split; [reflexivity|].
  repeat first [ rewrite lookup_insert_eq
               | rewrite lookup_insert_ne; [|str_ne] ].
  cbn [rbind item].
  repeat first [ rewrite lookup_insert_eq
               | rewrite lookup_insert_ne; [|str_ne] ].
  cbn [rbind item].
  repeat first [ rewrite lookup_insert_eq
               | rewrite lookup_insert_ne; [|str_ne] ].
  cbn [rbind item].
  repeat first [ rewrite lookup_insert_eq
               | rewrite lookup_insert_ne; [|str_ne] ].
  split; [reflexivity|]. split; [reflexivity|]. split; [reflexivity|].
  destruct (x_axis_margins (xmin (bb solid)) (xmax (bb solid)) Hx) as [X0 X1].
  destruct (yz_axis_margins (ymin (bb solid)) (ymax (bb solid)) Hy) as [Y0 Y1].
  destruct (yz_axis_margins (zmin (bb solid)) (zmax (bb solid)) Hz) as [Z0 Z1].
  cbn zeta in X0, X1, Y0, Y1, Z0, Z1.
  repeat split; lra.
Qed.

Lemma wake_box_inside_block_witness :
  exists self1 self2 x0 x1 y0 y1 z0 z1 lx ly lz,
    blockMeshDomain (mesher_of solid_5 0.25) = (Ok tt, self1) /\
    snappyHexMesh self1 = (Ok tt, self2) /\
    item (blockMeshDict self2) "vertices" = Ok (block_corners x0 x1 y0 y1 z0 z1) /\
    path (snappyHexMeshDict self2) ["castellatedMeshControls"; "locationInMesh"] =
      Ok (VList [VNum lx; VNum ly; VNum lz]) /\
    x0 < lx < x1 /\ y0 < ly < y1 /\ z0 < lz < z1.
Proof.
  destruct (wake_box_inside_block solid_5 0.25 template_blockMeshDict template_blocks
              template_snappyHexMeshDict ∅
              (<["locationInMesh" := VList [VNum 0; VNum 0; VNum 0]]>
                 (<["refinementRegions" := VDict ∅]> ∅))
              ∅ (VNum 0) (VNum 0) (VNum 0))
    as (self1 & self2 & x0 & x1 & y0 & y1 & z0 & z1 & lx & ly & lz & ux & uy & uz &
        H1 & H2 & H3 & _ & _ & H4 & Hx & Hy & Hz).
  - apply template_vertices.
  - apply template_blocks_entry.
  - simpl. lia.
  - unfold template_snappyHexMeshDict.
    rewrite lookup_insert_ne by str_ne. apply lookup_insert_eq.
  - apply lookup_insert_eq.
  - rewrite lookup_insert_ne by str_ne. apply lookup_insert_eq.
  - apply lookup_insert_eq.
  - apply solid_5_float32.
  - pose proof bpow_m126_small. lra.
  - simpl. lra.
  - simpl. lra.
  - simpl. lra.
  - exists self1, self2, x0, x1, y0, y1, z0, z1, lx, ly, lz.
    simpl in Hx, Hy, Hz. repeat split; try assumption; lra.
Defined.

(** ** snappyHexMesh: what it leaves alone, and running it twice *)

Section SnappyFrame.

Lemma insert3_again (k1 k2 k3 : string) (a b c : Value) (m : gmap string Value) :
  <[k3 := c]> (<[k2 := b]> (<[k1 := a]> (<[k3 := c]> (<[k2 := b]> (<[k1 := a]> m))))) =
  <[k3 := c]> (<[k2 := b]> (<[k1 := a]> m)).
Proof.
  apply map_eq. intros k.
  destruct (decide (k3 = k)) as [->|H3]; [by rewrite !lookup_insert_eq|].
  rewrite !(lookup_insert_ne _ k3) by assumption.
  destruct (decide (k2 = k)) as [->|H2]; [by rewrite !lookup_insert_eq|].
  rewrite !(lookup_insert_ne _ k2) by assumption.
  destruct (decide (k1 = k)) as [->|H1]; [by rewrite !lookup_insert_eq|].
  rewrite !(lookup_insert_ne _ k1) by assumption.
  rewrite !(lookup_insert_ne _ k3) by assumption.
  rewrite !(lookup_insert_ne _ k2) by assumption.
  by rewrite !(lookup_insert_ne _ k1) by assumption.
Qed.

Lemma insert2_again (k1 k2 : string) (a b : Value) (m : gmap string Value) :
  <[k2 := b]> (<[k1 := a]> (<[k2 := b]> (<[k1 := a]> m))) =
  <[k2 := b]> (<[k1 := a]> m).
Proof.
  apply map_eq. intros k.
  destruct (decide (k2 = k)) as [->|H2]; [by rewrite !lookup_insert_eq|].
  rewrite !(lookup_insert_ne _ k2) by assumption.
  destruct (decide (k1 = k)) as [->|H1]; [by rewrite !lookup_insert_eq|].
  rewrite !(lookup_insert_ne _ k1) by assumption.
  rewrite !(lookup_insert_ne _ k2) by assumption.
  by rewrite !(lookup_insert_ne _ k1) by assumption.
Qed.

Lemma list_insert3_again (a b c : Value) (l : list Value) :
  <[2%nat := c]> (<[1%nat := b]> (<[0%nat := a]>
    (<[2%nat := c]> (<[1%nat := b]> (<[0%nat := a]> l))))) =
  <[2%nat := c]> (<[1%nat := b]> (<[0%nat := a]> l)).
Proof. destruct l as [|x [|y [|z l]]]; reflexivity. Qed.

End SnappyFrame.

(** X18.  [snappyHexMesh] writes only its own entries: the solid, the
    cell size and the blockMeshDict are as before; in the
    snappyHexMeshDict every top-level entry other than [geometry] and
    [castellatedMeshControls], every geometry and every refinement region
    other than [downwindbox], [wingtip1], [wingtip2], and every entry of
    [castellatedMeshControls] other than [refinementRegions] and
    [locationInMesh] is as before. *)
Theorem snappyHexMesh_keeps_other_entries
    (solid : solidSTL) (cell : R) (bmd : Value)
    (d geo cmc rr : gmap string Value) (loc : list Value) :
  d !! "geometry" = Some (VDict geo) ->
  d !! "castellatedMeshControls" = Some (VDict cmc) ->
  cmc !! "refinementRegions" = Some (VDict rr) ->
  cmc !! "locationInMesh" = Some (VList loc) ->
  (2 < length loc)%nat ->
  exists d' geo' cmc' rr' : gmap string Value,
    snappyHexMesh (mkMesher solid cell bmd (VDict d)) =
      (Ok tt, mkMesher solid cell bmd (VDict d')) /\
    d' !! "geometry" = Some (VDict geo') /\
    d' !! "castellatedMeshControls" = Some (VDict cmc') /\
    cmc' !! "refinementRegions" = Some (VDict rr') /\
    (forall k, k <> "geometry" -> k <> "castellatedMeshControls" -> d' !! k = d !! k) /\
    (forall k, k <> "downwindbox" -> k <> "wingtip1" -> k <> "wingtip2" ->
               geo' !! k = geo !! k /\ rr' !! k = rr !! k) /\
    (forall k, k <> "refinementRegions" -> k <> "locationInMesh" ->
               cmc' !! k = cmc !! k).
Proof.
  intros Hgeo Hcmc Hrr Hloc Hlen.
  pose proof (snappyHexMesh_run solid cell bmd d geo cmc rr loc
                Hgeo Hcmc Hrr Hloc Hlen) as Hrun.
  cbn beta zeta in Hrun. eexists _, _, _, _. split; [exact Hrun|].
  split; [rewrite lookup_insert_ne by discriminate; apply lookup_insert_eq|].
  split; [apply lookup_insert_eq|].
  split; [rewrite lookup_insert_ne by discriminate; apply lookup_insert_eq|].
  split; [|split].
  - intros k H1 H2. by rewrite !lookup_insert_ne by congruence.
  - intros k H1 H2 H3. split; by rewrite !lookup_insert_ne by congruence.
  - intros k H1 H2. by rewrite !lookup_insert_ne by congruence.
Qed.

Section Aircraft.

Lemma aircraft_geometry :
  snappy_with_aircraft !! "geometry" =
  Some (VDict (<["Aircraft.stl" := VDict (<["type" := VStr "triSurfaceMesh"]> ∅)]> ∅)).
Proof.
  unfold snappy_with_aircraft. rewrite lookup_insert_ne by str_ne.
  apply lookup_insert_eq.
Qed.

Lemma aircraft_controls :
  snappy_with_aircraft !! "castellatedMeshControls" =
  Some (VDict (<["maxGlobalCells" := VInt 2000000]>
              (<["locationInMesh" := VList [VNum 0; VNum 0; VNum 0]]>
              (<["refinementRegions" := VDict ∅]> ∅)))).
Proof. apply lookup_insert_eq. Qed.

Lemma aircraft_addLayers : snappy_with_aircraft !! "addLayers" = Some (VStr "false").
Proof.
  unfold snappy_with_aircraft. do 2 (rewrite lookup_insert_ne by str_ne).
  apply lookup_insert_eq.
Qed.

End Aircraft.

Lemma snappyHexMesh_keeps_other_entries_witness :
  exists d' geo' : gmap string Value,
    snappyHexMesh (mkMesher solid_5 0.25 (VDict template_blockMeshDict)
                            (VDict snappy_with_aircraft)) =
      (Ok tt, mkMesher solid_5 0.25 (VDict template_blockMeshDict) (VDict d')) /\
    d' !! "geometry" = Some (VDict geo') /\
    d' !! "addLayers" = Some (VStr "false") /\
    geo' !! "Aircraft.stl" = Some (VDict (<["type" := VStr "triSurfaceMesh"]> ∅)).
Proof.
  destruct (snappyHexMesh_keeps_other_entries solid_5 0.25 (VDict template_blockMeshDict)
              snappy_with_aircraft _ _ ∅ [VNum 0; VNum 0; VNum 0]
              aircraft_geometry aircraft_controls)
    as (d' & geo' & cmc' & rr' & Hrun & Hg & _ & _ & Hd & Hgeo & _).
  - do 2 (rewrite lookup_insert_ne by str_ne). apply lookup_insert_eq.
  - rewrite lookup_insert_ne by str_ne. apply lookup_insert_eq.
  - simpl. lia.
  - exists d', geo'. split; [exact Hrun|]. split; [exact Hg|]. clear Hrun. split.
    + rewrite (Hd "addLayers" ltac:(str_ne) ltac:(str_ne)). apply aircraft_addLayers.
    + destruct (Hgeo "Aircraft.stl" ltac:(str_ne) ltac:(str_ne) ltac:(str_ne)) as [-> _].
      apply lookup_insert_eq.
Defined.

Section SnappyTwice.

Variables (box cyl1 cyl2 r4 r5 l0 l1 l2 : Value).
Variables (d geo cmc rr : gmap string Value) (loc : list Value).

Let geo' : gmap string Value :=
  <["wingtip2" := cyl2]> (<["wingtip1" := cyl1]> (<["downwindbox" := box]> geo)).
Let rr' : gmap string Value :=
  <["wingtip2" := r5]> (<["wingtip1" := r5]> (<["downwindbox" := r4]> rr)).
Let loc' : list Value :=
  <[2%nat := l2]> (<[1%nat := l1]> (<[0%nat := l0]> loc)).
Let cmc' : gmap string Value :=
  <["locationInMesh" := VList loc']> (<["refinementRegions" := VDict rr']> cmc).

Lemma snappy_written_again :
  snappy_written box cyl1 cyl2 r4 r5 l0 l1 l2
    (snappy_written box cyl1 cyl2 r4 r5 l0 l1 l2 d geo cmc rr loc) geo' cmc' rr' loc' =
  snappy_written box cyl1 cyl2 r4 r5 l0 l1 l2 d geo cmc rr loc.
Proof.
  unfold snappy_written, geo', rr', loc', cmc'.
  rewrite (insert3_again "downwindbox" "wingtip1" "wingtip2" box cyl1 cyl2 geo).
  rewrite (insert3_again "downwindbox" "wingtip1" "wingtip2" r4 r5 r5 rr).
  rewrite (list_insert3_again l0 l1 l2 loc).
  rewrite (insert2_again "refinementRegions" "locationInMesh").
  rewrite (insert2_again "geometry" "castellatedMeshControls").
  reflexivity.
Qed.

Lemma snappy_written_entries :
  let d' := snappy_written box cyl1 cyl2 r4 r5 l0 l1 l2 d geo cmc rr loc in
  d' !! "geometry" = Some (VDict geo') /\
  d' !! "castellatedMeshControls" = Some (VDict cmc') /\
  cmc' !! "refinementRegions" = Some (VDict rr') /\
  cmc' !! "locationInMesh" = Some (VList loc') /\
  length loc' = length loc.
Proof.
  unfold snappy_written, cmc', loc'. repeat split.
  - rewrite lookup_insert_ne by str_ne. apply lookup_insert_eq.
  - apply lookup_insert_eq.
  - rewrite lookup_insert_ne by str_ne. apply lookup_insert_eq.
  - apply lookup_insert_eq.
  - by rewrite !length_insert.
Qed.

End SnappyTwice.

(** X19.  [snappyHexMesh] can be run again: the entries it writes are
    rebuilt from the solid, not accumulated, so a second run on the
    resulting mesher returns that same mesher. *)
Theorem snappyHexMesh_idempotent
    (solid : solidSTL) (cell : R) (bmd : Value)
    (d geo cmc rr : gmap string Value) (loc : list Value) :
  d !! "geometry" = Some (VDict geo) ->
  d !! "castellatedMeshControls" = Some (VDict cmc) ->
  cmc !! "refinementRegions" = Some (VDict rr) ->
  cmc !! "locationInMesh" = Some (VList loc) ->
  (2 < length loc)%nat ->
  exists self',
    snappyHexMesh (mkMesher solid cell bmd (VDict d)) = (Ok tt, self') /\
    snappyHexMesh self' = (Ok tt, self').
Proof.
  intros Hgeo Hcmc Hrr Hloc Hlen.
  assert (Hfold : exists box cyl1 cyl2 r4 r5 l0 l1 l2,
             forall (d1 geo1 cmc1 rr1 : gmap string Value) (loc1 : list Value),
               d1 !! "geometry" = Some (VDict geo1) ->
               d1 !! "castellatedMeshControls" = Some (VDict cmc1) ->
               cmc1 !! "refinementRegions" = Some (VDict rr1) ->
               cmc1 !! "locationInMesh" = Some (VList loc1) ->
               (2 < length loc1)%nat ->
               snappyHexMesh (mkMesher solid cell bmd (VDict d1)) =
               (Ok tt, mkMesher solid cell bmd
                         (VDict (snappy_written box cyl1 cyl2 r4 r5 l0 l1 l2
                                                d1 geo1 cmc1 rr1 loc1)))).
  { eexists _, _, _, _, _, _, _, _.
    intros d1 geo1 cmc1 rr1 loc1 H1 H2 H3 H4 H5.
    exact (snappyHexMesh_run solid cell bmd d1 geo1 cmc1 rr1 loc1 H1 H2 H3 H4 H5). }
  destruct Hfold as (box & cyl1 & cyl2 & r4 & r5 & l0 & l1 & l2 & Hrun).
  destruct (snappy_written_entries box cyl1 cyl2 r4 r5 l0 l1 l2 d geo cmc rr loc)
    as (E1 & E2 & E3 & E4 & E5).
  eexists. split; [exact (Hrun d geo cmc rr loc Hgeo Hcmc Hrr Hloc Hlen)|].
  rewrite (Hrun _ _ _ _ _ E1 E2 E3 E4) by (rewrite E5; exact Hlen).
  rewrite snappy_written_again. reflexivity.
Qed.

Lemma snappyHexMesh_idempotent_witness :
  exists self',
    snappyHexMesh (mesher_of solid_5 0.25) = (Ok tt, self') /\
    snappyHexMesh self' = (Ok tt, self').
Proof.
  apply (snappyHexMesh_idempotent solid_5 0.25 (VDict template_blockMeshDict)
           template_snappyHexMeshDict ∅
           (<["locationInMesh" := VList [VNum 0; VNum 0; VNum 0]]>
              (<["refinementRegions" := VDict ∅]> ∅))
           ∅ [VNum 0; VNum 0; VNum 0]).
  - unfold template_snappyHexMeshDict.
    rewrite lookup_insert_ne by str_ne. apply lookup_insert_eq.
  - apply lookup_insert_eq.
  - rewrite lookup_insert_ne by str_ne. apply lookup_insert_eq.
  - apply lookup_insert_eq.
  - simpl. lia.
Defined.

(** ** The processor count *)

(** X20.  A requested processor count below 1 is rejected with
    ValueError.  A requested count above 1 is used as it is, whatever the
    machine has, and so is a detected count above 1: both run in
    parallel.  A requested count of 1 and a detected count of 1 or less
    run serially with [nprocs = 1].  So whenever the mesher (or the
    solver) is configured, [nprocs >= 1] and [parallel] is set exactly
    when [nprocs > 1]. *)
Theorem processors_at_least_one (requested : option Z) (cpu_count : Z) :
  (forall p, requested = Some p -> (p < 1)%Z ->
     Processors.configure requested cpu_count =
     Raise (ValueError "Number of processors must be at least 1")) /\
  (forall p, requested = Some p -> (1 < p)%Z ->
     Processors.configure requested cpu_count = Ok (Processors.mkProcessors true p)) /\
  (requested = Some 1%Z ->
     Processors.configure requested cpu_count = Ok (Processors.mkProcessors false 1)) /\
  (requested = None -> (1 < cpu_count)%Z ->
     Processors.configure requested cpu_count =
     Ok (Processors.mkProcessors true cpu_count)) /\
  (requested = None -> (cpu_count <= 1)%Z ->
     Processors.configure requested cpu_count = Ok (Processors.mkProcessors false 1)) /\
  (forall c, Processors.configure requested cpu_count = Ok c ->
     (1 <= Processors.nprocs c)%Z /\
     (Processors.parallel c = true <-> (1 < Processors.nprocs c)%Z)).
Proof.
  unfold Processors.configure, Utilities.parallelUtilities.
  split; [|split; [|split; [|split; [|split]]]].
  - intros p -> Hp. destruct (decide (p < 1)%Z); [reflexivity|contradiction].
  - intros p -> Hp. destruct (decide (p < 1)%Z); [lia|]. cbn [rbind].
    destruct (decide (p > 1)%Z); [reflexivity|lia].
  - intros ->. destruct (decide (1 < 1)%Z); [lia|]. cbn [rbind].
    destruct (decide (1 > 1)%Z); [lia|reflexivity].
  - intros -> Hc. cbn [rbind]. destruct (decide (cpu_count > 1)%Z); [reflexivity|lia].
  - intros -> Hc. cbn [rbind]. destruct (decide (cpu_count > 1)%Z); [lia|reflexivity].
  - intros c Hc. destruct requested as [p|].
    + destruct (decide (p < 1)%Z); [discriminate Hc|]. cbn [rbind] in Hc.
      destruct (decide (p > 1)%Z); injection Hc as <-; cbn;
        (split; [lia|]); split; intros E; first [lia | discriminate E | reflexivity].
    + cbn [rbind] in Hc.
      destruct (decide (cpu_count > 1)%Z); injection Hc as <-; cbn;
        (split; [lia|]); split; intros E; first [lia | discriminate E | reflexivity].
Qed.

Lemma processors_at_least_one_witness :
  Processors.configure (Some 0%Z) 8 =
    Raise (ValueError "Number of processors must be at least 1") /\
  Processors.configure (Some 16%Z) 8 = Ok (Processors.mkProcessors true 16) /\
  Processors.configure (Some 1%Z) 8 = Ok (Processors.mkProcessors false 1) /\
  Processors.configure None 8 = Ok (Processors.mkProcessors true 8) /\
  Processors.configure None 1 = Ok (Processors.mkProcessors false 1) /\
  (1 <= Processors.nprocs (Processors.mkProcessors true 16))%Z.
Proof.
  destruct (processors_at_least_one (Some 0%Z) 8) as (H1 & _).
  destruct (processors_at_least_one (Some 16%Z) 8) as (_ & H2 & _ & _ & _ & H6).
  destruct (processors_at_least_one (Some 1%Z) 8) as (_ & _ & H3 & _).
  destruct (processors_at_least_one None 8) as (_ & _ & _ & H4 & _).
  destruct (processors_at_least_one None 1) as (_ & _ & _ & _ & H5 & _).
  split; [apply (H1 0%Z); [reflexivity|lia]|].
  split; [apply (H2 16%Z); [reflexivity|lia]|].
  split; [apply H3; reflexivity|].
  split; [apply H4; [reflexivity|lia]|].
  split; [apply H5; [reflexivity|lia]|].
  apply (H6 (Processors.mkProcessors true 16)). apply (H2 16%Z); [reflexivity|lia].
Defined.

(** ** The sweep: load, set the angle of attack, size the domain, plan
       the refinement *)

Section Sweep.

Lemma mesh_vertices_map (f : Point -> Point) (m : Mesh) :
  mesh_vertices (map_vertices f m) = map f (mesh_vertices m).
Proof.
  unfold mesh_vertices, map_vertices. induction m as [|t m IH]; [reflexivity|].
  cbn [map concat]. rewrite map_app, IH. reflexivity.
Qed.

Lemma coords_within_map (f : Point -> Point) (B B' : R) (m : Mesh) :
  (forall v, Rabs (px v) <= B /\ Rabs (py v) <= B /\ Rabs (pz v) <= B ->
             Rabs (px (f v)) <= B' /\ Rabs (py (f v)) <= B' /\ Rabs (pz (f v)) <= B') ->
  coords_within B m -> coords_within B' (map_vertices f m).
Proof.
  intros Hf Hm v' Hv'. rewrite mesh_vertices_map in Hv'.
  apply in_map_iff in Hv' as (v & <- & Hv). by apply Hf, Hm.
Qed.

(** The bounds of a mesh are coordinates of its vertices. *)
Lemma bbox_within (B : R) (m : Mesh) (b : BoundingBox) :
  is_bbox m b -> coords_within B m ->
  Rabs (xmin b) <= B /\ Rabs (xmax b) <= B /\ Rabs (ymin b) <= B /\
  Rabs (ymax b) <= B /\ Rabs (zmin b) <= B /\ Rabs (zmax b) <= B.
Proof.
  intros Hb Hm.
  destruct (is_bbox_attained m b Hb)
    as ((v1 & I1 & <-) & (v2 & I2 & <-) & (v3 & I3 & <-) &
        (v4 & I4 & <-) & (v5 & I5 & <-) & (v6 & I6 & <-)).
  repeat split; [apply (Hm v1 I1)|apply (Hm v2 I2)|apply (Hm v3 I3)|
                 apply (Hm v4 I4)|apply (Hm v5 I5)|apply (Hm v6 I6)].
Qed.

Lemma Rabs_scaled_le (c x : R) : -1 <= c <= 1 -> Rabs (c * x) <= Rabs x.
Proof.
  intros Hc. rewrite Rabs_mult. pose proof (Rabs_pos x).
  assert (Rabs c <= 1) by (apply Rabs_le; lra). nra.
Qed.

(** A rotation about the y axis at most doubles the size of a
    coordinate. *)
Lemma rot_y_within (a B : R) (v : Point) :
  Rabs (px v) <= B /\ Rabs (py v) <= B /\ Rabs (pz v) <= B ->
  Rabs (px (mat_vec (rot_y a) v)) <= 2 * B /\
  Rabs (py (mat_vec (rot_y a) v)) <= 2 * B /\
  Rabs (pz (mat_vec (rot_y a) v)) <= 2 * B.
Proof.
  intros (Hx & Hy & Hz). unfold mat_vec, rot_y; cbn.
  pose proof (COS_bound a) as Hc. pose proof (SIN_bound a) as Hs.
  pose proof (Rabs_pos (py v)).
  pose proof (Rabs_scaled_le (cos a) (px v) Hc).
  pose proof (Rabs_scaled_le (sin a) (pz v) Hs).
  pose proof (Rabs_scaled_le (- sin a) (px v) ltac:(lra)).
  pose proof (Rabs_scaled_le (cos a) (pz v) Hc).
  repeat split.
  - replace (cos a * px v + 0 * py v + sin a * pz v)
      with (cos a * px v + sin a * pz v) by lra.
    eapply Rle_trans; [apply Rabs_triang|]. lra.
  - replace (0 * px v + 1 * py v + 0 * pz v) with (py v) by lra. lra.
  - replace (- sin a * px v + 0 * py v + cos a * pz v)
      with (- sin a * px v + cos a * pz v) by lra.
    eapply Rle_trans; [apply Rabs_triang|]. lra.
Qed.

(** Centring moves every coordinate by at most the size of the largest. *)
Lemma center_within (B : R) (b : BoundingBox) (v : Point) :
  Rabs (xmin b) <= B /\ Rabs (xmax b) <= B /\ Rabs (ymin b) <= B /\
  Rabs (ymax b) <= B /\ Rabs (zmin b) <= B /\ Rabs (zmax b) <= B ->
  Rabs (px v) <= B /\ Rabs (py v) <= B /\ Rabs (pz v) <= B ->
  let w := add_offset (-1 * ((xmax b - xmin b) / 2 + xmin b))
                      (-1 * ((ymax b - ymin b) / 2 + ymin b))
                      (-1 * ((zmax b - zmin b) / 2 + zmin b)) v in
  Rabs (px w) <= 2 * B /\ Rabs (py w) <= 2 * B /\ Rabs (pz w) <= 2 * B.
Proof.
  intros (X0 & X1 & Y0 & Y1 & Z0 & Z1) (Hx & Hy & Hz). unfold add_offset; cbn.
  apply Rabs_bounds in X0, X1, Y0, Y1, Z0, Z1, Hx, Hy, Hz.
  repeat split; apply Rabs_le; lra.
Qed.

Lemma init_within (fp : string) (B : R) (m : Mesh) :
  m <> [] -> coords_within B m ->
  exists s, __init__ fp (Facets m) = Ok s /\ mesh s <> [] /\ cache_fresh s /\
            length (mesh s) = length m /\ coords_within (2 * B) (mesh s).
Proof.
  intros Hne Hm.
  destruct (boundingBox_ok (blank m) Hne) as (s1 & Hrun1 & Hm1 & _). simpl in Hm1.
  destruct (centerGeometry_ok s1) as (b & s & Hb & Hrun & Hmesh & _ & Hc); [congruence|].
  cbn zeta in Hmesh. exists s. split.
  { unfold __init__. rewrite (bind_ok _ _ _ _ _ Hrun1), Hrun. reflexivity. }
  rewrite Hmesh, Hm1 in *. split; [by apply map_vertices_nonempty|].
  split; [exact Hc|]. split; [unfold map_vertices; apply length_map|].
  apply (coords_within_map _ B); [|exact Hm].
  intros v Hv. apply (center_within B b v); [|exact Hv]. by apply (bbox_within B m).
Qed.

Lemma bpow_127 : 4 * bpow 125 <= bpow 128.
Proof.
  replace 128%Z with (1 + (1 + (1 + 125)))%Z by lia. rewrite !bpow_add, bpow_1.
  pose proof (bpow_pos 125). lra.
Qed.

End Sweep.

(** X21.  The steps of one sweep case compose: for every surface with at
    least one facet and coordinates of at most 2^125 in size (those of an
    STL file are single-precision numbers), every angle of attack in
    degrees, the default cell size 0.25 and dictionaries that have the
    entries the code indexes, the constructor, [setaoa],
    [blockMeshDomain] and [snappyHexMesh] all return, the solid handed to
    the mesher has a fresh cache and as many facets as the file, and
    meshing does not change it. *)
Theorem sweep_case_runs
    (fp : string) (m : Mesh) (aoa : R)
    (g : gmap string Value) (vs bl : list Value) (tmpl : list Point)
    (d geo cmc rr : gmap string Value) (loc : list Value) :
  m <> [] ->
  coords_within (bpow 125) m ->
  g !! "vertices" = Some (VList vs) ->
  Forall2 vec_of vs tmpl ->
  g !! "blocks" = Some (VList bl) ->
  (2 < length bl)%nat ->
  d !! "geometry" = Some (VDict geo) ->
  d !! "castellatedMeshControls" = Some (VDict cmc) ->
  cmc !! "refinementRegions" = Some (VDict rr) ->
  cmc !! "locationInMesh" = Some (VList loc) ->
  (2 < length loc)%nat ->
  exists model model' self1 self2,
    __init__ fp (Facets m) = Ok model /\
    setaoa aoa "degrees" model = (Ok tt, model') /\
    cache_fresh model' /\ length (mesh model') = length m /\
    blockMeshDomain (mkMesher model' 0.25 (VDict g) (VDict d)) = (Ok tt, self1) /\
    snappyHexMesh self1 = (Ok tt, self2) /\
    stlSolid self2 = model'.
Proof.
  intros Hne Hin Hv Ht Hb Hs Hgeo Hcmc Hrr Hloc Hlen.
  destruct (init_within fp (bpow 125) m Hne Hin) as (model & Hinit & Hne1 & _ & Hl1 & Hin1).
  destruct (rotate_ok 0 aoa 0 "degrees" model) as (model' & Hrot & Hm' & Hc');
    [tauto|assumption|].
  change (rotate 0 aoa 0 "degrees" model) with (setaoa aoa "degrees" model) in Hrot, Hm'.
  rewrite setaoa_mesh in Hm' by tauto.
  assert (Hin' : coords_within (2 * (2 * bpow 125)) (mesh model')).
  { rewrite Hm'. apply (coords_within_map _ (2 * bpow 125)); [|exact Hin1].
    intros v. apply rot_y_within. }
  assert (Hr : bb_float32 (bb model')).
  { destruct Hc' as [Hbox _].
    pose proof (bbox_within _ _ _ Hbox Hin') as (X0 & X1 & Y0 & Y1 & Z0 & Z1).
    pose proof bpow_127. unfold bb_float32, float32_range.
    repeat split; lra. }
  assert (Hcell : bpow (-126) <= Rabs 0.25).
  { rewrite Rabs_right by lra. pose proof bpow_m126_small. lra. }
  destruct (quotients_in_range (bb model') 0.25 Hr Hcell) as (Hx & Hy & Hz).
  pose proof (blockMeshDomain_run model' 0.25 (VDict d) g vs tmpl Hv Ht bl _ _ _ Hb Hs
                Hx Hy Hz) as Hrun1.
  eexists model, model', _, _. split; [exact Hinit|]. split; [exact Hrot|].
  split; [exact Hc'|]. split.
  { rewrite Hm'. unfold map_vertices. rewrite length_map. exact Hl1. }
  split; [exact Hrun1|].
  match type of Hrun1 with
  | _ = (_, mkMesher _ _ ?bmd _) =>
      pose proof (snappyHexMesh_run model' 0.25 bmd d geo cmc rr loc
                    Hgeo Hcmc Hrr Hloc Hlen) as Hrun2
  end.
  cbn beta zeta in Hrun2. split; [exact Hrun2|]. reflexivity.
Qed.

Lemma sweep_case_runs_witness :
  exists model model' self1 self2,
    __init__ "Aircraft.stl" (Facets [facet_off]) = Ok model /\
    setaoa 4 "degrees" model = (Ok tt, model') /\
    cache_fresh model' /\ length (mesh model') = 1%nat /\
    blockMeshDomain (mkMesher model' 0.25 (VDict template_blockMeshDict)
                              (VDict template_snappyHexMeshDict)) = (Ok tt, self1) /\
    snappyHexMesh self1 = (Ok tt, self2) /\
    stlSolid self2 = model'.
Proof.
  apply (sweep_case_runs "Aircraft.stl" [facet_off] 4 template_blockMeshDict
           unit_cube template_blocks unit_cube_points
           template_snappyHexMeshDict ∅
           (<["locationInMesh" := VList [VNum 0; VNum 0; VNum 0]]>
              (<["refinementRegions" := VDict ∅]> ∅))
           ∅ [VNum 0; VNum 0; VNum 0]).
  - intros H. discriminate H.
  - intros v Hv.
    assert (Hsmall : forall x, -1024 <= x <= 1024 -> Rabs x <= bpow 125).
    { intros x Hx. apply Rle_trans with (bpow 10); [|apply bpow_le; lia].
      rewrite bpow_10. apply Rabs_le. lra. }
    cbn in Hv. destruct Hv as [<-|[<-|[<-|[]]]]; cbn; repeat split; apply Hsmall; lra.
  - apply template_vertices.
  - apply unit_cube_vec_of.
  - apply template_blocks_entry.
  - simpl. lia.
  - unfold template_snappyHexMeshDict.
    rewrite lookup_insert_ne by str_ne. apply lookup_insert_eq.
  - apply lookup_insert_eq.
  - rewrite lookup_insert_ne by str_ne. apply lookup_insert_eq.
  - apply lookup_insert_eq.
  - simpl. lia.
Defined.

(** ** Position of the solid *)

(** X22.  In real arithmetic [centerGeometry] forgets an earlier
    translation: on a solid with at least one facet, translating and then
    centring returns the same solid as centring alone.  (The
    single-precision sums of the code round: there the two solids agree
    only up to the rounding of the translated coordinates, which for an
    offset large against the solid is as large as the solid.) *)
Theorem centerGeometry_forgets_translation (a b c : R) (s : solidSTL) :
  mesh s <> [] ->
  exists s1 s2,
    translate a b c s = (Ok tt, s1) /\
    centerGeometry s1 = (Ok tt, s2) /\
    centerGeometry s = (Ok tt, s2).
Proof.
  intros Hne.
  destruct (translate_ok a b c s Hne) as (s1 & Hrun1 & Hm1 & Hc1).
  assert (Hne1 : mesh s1 <> []) by (rewrite Hm1; by apply map_vertices_nonempty).
  destruct (centerGeometry_ok s1 Hne1) as (b1 & s2 & Hb1 & Hrun2 & Hm2 & _ & Hc2).
  destruct (centerGeometry_ok s Hne) as (b0 & s3 & Hb0 & Hrun3 & Hm3 & _ & Hc3).
  cbn zeta in Hm2, Hm3.
  assert (Eb : b1 = mkBB (xmin b0 + a) (xmax b0 + a) (ymin b0 + b) (ymax b0 + b)
                         (zmin b0 + c) (zmax b0 + c)).
  { apply (is_bbox_unique (mesh s1)); [exact Hb1|].
    rewrite Hm1. by apply is_bbox_translate. }
  exists s1, s2. split; [exact Hrun1|]. split; [exact Hrun2|].
  rewrite Hrun3. f_equal. apply cache_fresh_unique; try assumption.
  rewrite Hm3, Hm2, Hm1, map_vertices_compose.
  apply map_vertices_ext. intros v. rewrite add_offset_add, Eb.
  unfold add_offset; cbn. apply point_eq; lra.
Qed.

Lemma centerGeometry_forgets_translation_witness :
  exists s1 s2,
    translate 7 8 9 solid_5 = (Ok tt, s1) /\
    centerGeometry s1 = (Ok tt, s2) /\
    centerGeometry solid_5 = (Ok tt, s2).
Proof.
  apply (centerGeometry_forgets_translation 7 8 9 solid_5). intros H. discriminate H.
Defined.
